(** * mm_json.h: tokenizer, flat loader and path queries

    A shallow embedding of the single-header JSON parser [mm_json.h]
    and the properties of its specification.

    Conventions of the embedding.
    - A C pointer is an address in [Z]; the null pointer is [0].  All
      byte data (the JSON document and the query path) lives in one
      [memory]: a block of bytes placed at a strictly positive base
      address.  Reading outside the block gives the byte [0].
    - [int] and [unsigned] arithmetic is written with its 32-bit
      wrap-around ([int32], [uint32]).
    - An out-parameter ([struct json_token *obj], [int *read], ...) is a
      component of the result; the caller is taken to pass a valid slot.
    - Loops whose trip count is not bounded by a counter of the code take
      a [fuel] argument and return [None] when it runs out. *)

From Stdlib Require Import ZArith List Bool Lia String Ascii QArith Qround.
From stdpp Require Import base option gmap.
Import ListNotations.
Local Open Scope Z_scope.

(** ** Machine integers and memory *)

Definition int32 (z : Z) : Z := (z + 2 ^ 31) mod 2 ^ 32 - 2 ^ 31.
Definition uint32 (z : Z) : Z := z mod 2 ^ 32.

Record memory := Memory { base : positive; bytes : list Z }.

(** [*(const unsigned char* )p] *)
Definition peek (m : memory) (p : Z) : Z :=
  if (p <? Z.pos (base m)) then 0
  else nth (Z.to_nat (p - Z.pos (base m))) (bytes m) 0.

Definition bytes_of_string (s : string) : list Z :=
  map (fun a => Z.of_nat (nat_of_ascii a)) (list_ascii_of_string s).

(** Character constants used by the source. *)
Definition ch (s : string) : Z :=
  match s with
  | String a _ => Z.of_nat (nat_of_ascii a)
  | EmptyString => 0
  end.

Definition TAB : Z := 9.
Definition LF : Z := 10.
Definition CR : Z := 13.
Definition DQUOTE : Z := 34.
Definition BACKSLASH : Z := 92.

(** ** API types *)

Inductive json_token_type :=
| JSON_NONE | JSON_OBJECT | JSON_ARRAY | JSON_NUMBER
| JSON_STRING | JSON_TRUE | JSON_FALSE | JSON_NULL.

Record json_token := Token {
  type : json_token_type;
  str : Z;
  len : Z;
  children : Z;
  sub : Z }.

Inductive json_status :=
| JSON_OK | JSON_INVAL | JSON_OUT_OF_TOKEN | JSON_PARSING_ERROR.

(** [iter.go] points at one of the tokenizer's jump tables, or is null. *)
Inductive table :=
| GO_NULL | GO_STRUCT | GO_BARE | GO_STRING | GO_UTF8 | GO_ESC.

Record json_iter := Iter {
  ilen : Z;
  err : bool;
  depth : Z;
  go : table;
  src : Z }.

Inductive json_parser_states :=
| JSON_STATE_FAILED | JSON_STATE_LOOP | JSON_STATE_SEP | JSON_STATE_UP
| JSON_STATE_DOWN | JSON_STATE_QUP | JSON_STATE_QDOWN | JSON_STATE_ESC
| JSON_STATE_UNESC | JSON_STATE_BARE | JSON_STATE_UNBARE
| JSON_STATE_UTF8_2 | JSON_STATE_UTF8_3 | JSON_STATE_UTF8_4
| JSON_STATE_UTF8_NEXT.

Inductive json_nuber_states :=
| JSON_STATE_NUM_FAILED | JSON_STATE_NUM_LOOP | JSON_STATE_NUM_FLT
| JSON_STATE_NUM_EXP | JSON_STATE_NUM_BREAK.

Definition JSON_ITER_NULL : json_iter := Iter 0 false 0 GO_NULL 0.
Definition JSON_TOKEN_NULL : json_token := Token JSON_NONE 0 0 0 0.

Definition type_eqb (a b : json_token_type) : bool :=
  match a, b with
  | JSON_NONE, JSON_NONE | JSON_OBJECT, JSON_OBJECT | JSON_ARRAY, JSON_ARRAY
  | JSON_NUMBER, JSON_NUMBER | JSON_STRING, JSON_STRING
  | JSON_TRUE, JSON_TRUE | JSON_FALSE, JSON_FALSE | JSON_NULL, JSON_NULL => true
  | _, _ => false
  end.

Definition is_container (t : json_token_type) : bool :=
  type_eqb t JSON_OBJECT || type_eqb t JSON_ARRAY.

(** ** The jump tables filled by [json_init]

    Each table is the function from a byte to the entry [json_init]
    leaves there; where [json_init] assigns an entry twice the later
    assignment wins, and an entry never assigned is the zero state. *)

Definition in_range (lo hi c : Z) : bool := (lo <=? c) && (c <=? hi).

Definition json_go_struct (c : Z) : json_parser_states :=
  if (c =? ch "n") || (c =? ch "f") || (c =? ch "t") || (c =? ch "-")
  then JSON_STATE_BARE
  else if (c =? ch "}") || (c =? ch "]") then JSON_STATE_DOWN
  else if (c =? ch "{") || (c =? ch "[") then JSON_STATE_UP
  else if (c =? ch ",") then JSON_STATE_LOOP
  else if (c =? ch "=") || (c =? ch ":") then JSON_STATE_SEP
  else if (c =? DQUOTE) then JSON_STATE_QUP
  else if (c =? ch " ") || (c =? LF) || (c =? CR) || (c =? TAB)
  then JSON_STATE_LOOP
  else if in_range 48 57 c then JSON_STATE_BARE
  else JSON_STATE_FAILED.

Definition json_go_bare (c : Z) : json_parser_states :=
  if (c =? ch "}") || (c =? ch "]") || (c =? ch ",")
     || (c =? LF) || (c =? CR) || (c =? TAB)
  then JSON_STATE_UNBARE
  else if in_range 32 126 c then JSON_STATE_LOOP
  else JSON_STATE_FAILED.

Definition json_go_string (c : Z) : json_parser_states :=
  if (c =? DQUOTE) then JSON_STATE_QDOWN
  else if (c =? BACKSLASH) then JSON_STATE_ESC
  else if in_range 240 247 c then JSON_STATE_UTF8_4
  else if in_range 224 239 c then JSON_STATE_UTF8_3
  else if in_range 192 223 c then JSON_STATE_UTF8_2
  else if in_range 32 126 c then JSON_STATE_LOOP
  else JSON_STATE_FAILED.

Definition json_go_utf8 (c : Z) : json_parser_states :=
  if in_range 128 191 c then JSON_STATE_UTF8_NEXT else JSON_STATE_FAILED.

Definition json_go_esc (c : Z) : json_parser_states :=
  if (c =? DQUOTE) || (c =? BACKSLASH) || (c =? ch "/") || (c =? ch "b")
     || (c =? ch "f") || (c =? ch "n") || (c =? ch "r") || (c =? ch "t")
     || (c =? ch "u")
  then JSON_STATE_UNESC
  else JSON_STATE_FAILED.

(** The digits are stored as [JSON_STATE_LOOP], whose value (1) is that
    of [JSON_STATE_NUM_LOOP]. *)
Definition json_go_num (c : Z) : json_nuber_states :=
  if (c =? CR) || (c =? TAB) || (c =? LF) || (c =? ch " ")
  then JSON_STATE_NUM_BREAK
  else if (c =? ch "E") || (c =? ch "e") then JSON_STATE_NUM_EXP
  else if (c =? ch ".") then JSON_STATE_NUM_FLT
  else if (c =? ch "+") || (c =? ch "-") then JSON_STATE_NUM_LOOP
  else if in_range 48 57 c then JSON_STATE_NUM_LOOP
  else JSON_STATE_NUM_FAILED.

(** [tbl[c]] for [tbl = iter.go]; [json_read] replaces a null [go] by
    [json_go_struct] before its loop. *)
Definition lookup_table (t : table) (c : Z) : json_parser_states :=
  match t with
  | GO_NULL | GO_STRUCT => json_go_struct c
  | GO_BARE => json_go_bare c
  | GO_STRING => json_go_string c
  | GO_UTF8 => json_go_utf8 c
  | GO_ESC => json_go_esc c
  end.

(** ** Helpers *)

(** [json_type]; the token pointer is never null at its call sites. *)
Definition json_type (m : memory) (tok : json_token) : json_token_type :=
  if (str tok =? 0) || (len tok =? 0) then JSON_NONE
  else
    let c := peek m (str tok) in
    if c =? ch "{" then JSON_OBJECT
    else if c =? ch "[" then JSON_ARRAY
    else if c =? DQUOTE then JSON_STRING
    else if c =? ch "t" then JSON_TRUE
    else if c =? ch "f" then JSON_FALSE
    else if c =? ch "n" then JSON_NULL
    else JSON_NUMBER.

Definition json_deq (m : memory) (tok : json_token) : json_token :=
  if (peek m (str tok) =? DQUOTE) && (2 <=? len tok)
  then Token (type tok) (str tok + 1) (int32 (len tok - 2))
             (children tok) (sub tok)
  else tok.

(** [obj->type = json_type(obj); if (obj->type == JSON_STRING) json_deq(obj);] *)
Definition finish_token (m : memory) (obj : json_token) : json_token :=
  let t := json_type m obj in
  let obj := Token t (str obj) (len obj) (children obj) (sub obj) in
  if type_eqb t JSON_STRING then json_deq m obj else obj.

(** ** Tokenizer *)

Definition json_begin (str : Z) (len : Z) : json_iter :=
  Iter len false 0 GO_NULL str.

Definition set_go (g : table) (it : json_iter) : json_iter :=
  Iter (ilen it) (err it) (depth it) g (src it).
Definition set_depth (d : Z) (it : json_iter) : json_iter :=
  Iter (ilen it) (err it) d (go it) (src it).
Definition set_err (e : bool) (it : json_iter) : json_iter :=
  Iter (ilen it) e (depth it) (go it) (src it).
Definition set_src (s l : Z) (it : json_iter) : json_iter :=
  Iter l (err it) (depth it) (go it) s.

Definition set_str (s : Z) (t : json_token) : json_token :=
  Token (type t) s (len t) (children t) (sub t).
Definition set_len (l : Z) (t : json_token) : json_token :=
  Token (type t) (str t) l (children t) (sub t).
Definition set_children (c : Z) (t : json_token) : json_token :=
  Token (type t) (str t) (len t) c (sub t).
Definition set_sub (s : Z) (t : json_token) : json_token :=
  Token (type t) (str t) (len t) (children t) s.

(** [if (iter.depth == 2) obj->children++; obj->sub++;] *)
Definition count_nested (it : json_iter) (obj : json_token) : json_token :=
  let obj := if depth it =? 2
             then set_children (int32 (children obj + 1)) obj else obj in
  set_sub (int32 (sub obj + 1)) obj.

(** The local variables of [json_read] that live across iterations of
    its [for] loop. *)
Record read_state := ReadState {
  r_iter : json_iter;
  r_obj : json_token;
  r_cur : Z;
  r_len : Z;
  r_utf8 : Z;
  r_c : Z }.

Inductive read_step :=
| Continue (s : read_state)
| Return (it : json_iter) (obj : json_token).

(** The code after label [l_end]. *)
Definition read_end (m : memory) (s : read_state) : read_step :=
  let iter := r_iter s in
  let obj := r_obj s in
  if depth iter =? 0 then
    let iter := set_src 0 0 iter in
    if negb (str obj =? 0) then
      let l := if r_c s =? ch "}"
               then int32 ((r_cur s - 1) - str obj)
               else int32 (r_cur s - str obj) in
      Return iter (finish_token m (set_len l obj))
    else Return iter obj
  else Return iter obj.

(** The code after label [l_yield]. *)
Definition read_yield (m : memory) (iter : json_iter) (obj : json_token)
    (cur len : Z) : read_step :=
  Return (set_src (cur + 1) (len - 1) iter) (finish_token m obj).

(** One iteration of the [for] loop, entered with [len <> 0]; a
    [Continue] carries the state after the loop's [cur++, len--]. *)
Definition read_body (m : memory) (s : read_state) : read_step :=
  let iter := r_iter s in
  let obj := r_obj s in
  let cur := r_cur s in
  let len := r_len s in
  let c := peek m cur in
  let next it ob cu le ut := Continue (ReadState it ob (cu + 1) (le - 1) ut c) in
  if c =? 0 then read_end m (ReadState iter obj cur len (r_utf8 s) c)
  else if (depth iter =? 1) && ((c =? ch "}") || (c =? ch "]"))
          && (len =? 1) && (str obj =? 0)
  then Return (set_depth 0 (set_src 0 0 iter)) obj
  else
    match lookup_table (go iter) c with
    | JSON_STATE_FAILED => Return (set_err true iter) obj
    | JSON_STATE_LOOP => next iter obj cur len (r_utf8 s)
    | JSON_STATE_SEP =>
        let obj := if depth iter =? 2
                   then set_children (int32 (children obj - 1)) obj
                   else obj in
        next iter obj cur len (r_utf8 s)
    | JSON_STATE_UP =>
        let obj := if 1 <? depth iter then count_nested iter obj else obj in
        let obj := if depth iter =? 1 then set_str cur obj else obj in
        next (set_depth (uint32 (depth iter + 1)) iter) obj cur len (r_utf8 s)
    | JSON_STATE_DOWN =>
        let iter := set_depth (uint32 (depth iter - 1)) iter in
        if depth iter =? 1 then
          let obj := set_len (int32 (int32 (cur - str obj) + 1)) obj in
          if str obj =? 0 then next iter obj cur len (r_utf8 s)
          else read_yield m iter obj cur len
        else next iter obj cur len (r_utf8 s)
    | JSON_STATE_QUP =>
        let obj := if depth iter <=? 1 then set_str cur obj
                   else count_nested iter obj in
        next (set_go GO_STRING iter) obj cur len (r_utf8 s)
    | JSON_STATE_QDOWN =>
        let iter := set_go GO_STRUCT iter in
        if depth iter <=? 1 then
          let obj := set_len (int32 (int32 (cur - str obj) + 1)) obj in
          if str obj =? 0 then next iter obj cur len (r_utf8 s)
          else read_yield m iter obj cur len
        else next iter obj cur len (r_utf8 s)
    | JSON_STATE_ESC => next (set_go GO_ESC iter) obj cur len (r_utf8 s)
    | JSON_STATE_UNESC => next (set_go GO_STRING iter) obj cur len (r_utf8 s)
    | JSON_STATE_BARE =>
        let obj := if depth iter <=? 1 then set_str cur obj
                   else count_nested iter obj in
        next (set_go GO_BARE iter) obj cur len (r_utf8 s)
    | JSON_STATE_UNBARE =>
        let iter := set_go GO_STRUCT iter in
        if depth iter <=? 1 then
          let obj := set_len (int32 (cur - str obj)) obj in
          Return (set_src cur len iter) (finish_token m obj)
        else next iter obj (cur - 1) (len + 1) (r_utf8 s)
    | JSON_STATE_UTF8_2 => next (set_go GO_UTF8 iter) obj cur len 1
    | JSON_STATE_UTF8_3 => next (set_go GO_UTF8 iter) obj cur len 2
    | JSON_STATE_UTF8_4 => next (set_go GO_UTF8 iter) obj cur len 3
    | JSON_STATE_UTF8_NEXT =>
        let u := int32 (r_utf8 s - 1) in
        let iter := if u =? 0 then set_go GO_STRING iter else iter in
        next iter obj cur len u
    end.

(** [for (cur = iter.src; len; cur++, len--) { ... } l_end: ...] *)
Fixpoint read_loop (fuel : nat) (m : memory) (s : read_state)
    : option (json_iter * json_token) :=
  match fuel with
  | O => None
  | S fuel =>
      if r_len s =? 0 then
        match read_end m s with
        | Return it obj => Some (it, obj)
        | Continue _ => None
        end
      else
        match read_body m s with
        | Return it obj => Some (it, obj)
        | Continue s' => read_loop fuel m s'
        end
  end.

(** Every byte is dispatched at most twice (a byte that ends a nested
    bare run is read again under [json_go_struct]), and the loop test
    runs once more at the end of the input. *)
Definition read_fuel (len : Z) : nat := S (S (2 * Z.to_nat len)).

(** [iter = *prev; iter.err = 0; if (!iter.go) iter.go = json_go_struct;] *)
Definition read_start (prev : json_iter) : json_iter :=
  let iter := set_err false prev in
  match go iter with
  | GO_NULL => set_go GO_STRUCT iter
  | _ => iter
  end.

(** The loop state in which [json_read] enters its loop:
    [*obj = JSON_TOKEN_NULL], [len = iter.len], [cur = iter.src]. *)
Definition read_init (iter : json_iter) : read_state :=
  ReadState iter JSON_TOKEN_NULL (src iter) (ilen iter) 0 0.

(** [json_read(obj, prev)]: [prev] is [None] for a null pointer.  The
    result is the returned iterator and the token left in [*obj]. *)
Definition json_read (m : memory) (prev : option json_iter)
    : option (json_iter * json_token) :=
  match prev with
  | None => Some (set_err true JSON_ITER_NULL, JSON_TOKEN_NULL)
  | Some p =>
      if (src p =? 0) || (ilen p =? 0) || err p
      then Some (set_err true JSON_ITER_NULL, JSON_TOKEN_NULL)
      else
        let iter := read_start p in
        read_loop (read_fuel (ilen iter)) m (read_init iter)
  end.

(** [json_parse]: two consecutive reads into [p->name] and [p->value]. *)
Definition json_parse (m : memory) (it : option json_iter)
    : option (json_iter * (json_token * json_token)) :=
  match json_read m it with
  | None => None
  | Some (next, name) =>
      if err next then Some (next, (name, JSON_TOKEN_NULL))
      else match json_read m (Some next) with
           | None => None
           | Some (it', value) => Some (it', (name, value))
           end
  end.

(** ** Parser *)

(** The [while] loop of [json_num]. *)
Fixpoint num_while (fuel : nat) (m : memory) (iter : json_iter)
    (tok : json_token) (count : Z) : option Z :=
  match fuel with
  | O => None
  | S fuel =>
      if negb (err iter) && negb (src iter =? 0) && negb (str tok =? 0) then
        let count := int32 (count + int32 (1 + sub tok)) in
        match json_read m (Some iter) with
        | None => None
        | Some (iter', tok') => num_while fuel m iter' tok' count
        end
      else Some count
  end.

Definition json_num (fuel : nat) (m : memory) (json : Z) (length : Z)
    : option Z :=
  if (json =? 0) || (length =? 0) then Some 0
  else
    match json_read m (Some (json_begin json length)) with
    | None => None
    | Some (iter, tok) => num_while fuel m iter tok 0
    end.

(** The token array [toks] is a finite map from index to token: the
    entries are the slots written so far.  [toks[i]] of a slot never
    written reads as the zero token. *)
Definition tok_at (toks : gmap Z json_token) (i : Z) : json_token :=
  default JSON_TOKEN_NULL (toks !! i).

Definition load_result : Type := json_status * gmap Z json_token * Z.

(** [json_load] and its [while] loop; the result carries the status, the
    token array and [*read]. *)
Fixpoint json_load (fuel : nat) (m : memory) (toks : gmap Z json_token)
    (max read json length : Z) {struct fuel} : option load_result :=
  match fuel with
  | O => None
  | S fuel =>
      if (json =? 0) || (length =? 0) || (max =? 0)
      then Some (JSON_INVAL, toks, read)
      else if max <=? read then Some (JSON_OUT_OF_TOKEN, toks, read)
      else
        match json_read m (Some (json_begin json length)) with
        | None => None
        | Some (iter, tok) =>
            if err iter && negb (ilen iter =? 0)
            then Some (JSON_PARSING_ERROR, toks, read)
            else load_while fuel m toks max read iter tok JSON_OK
        end
  end
with load_while (fuel : nat) (m : memory) (toks : gmap Z json_token)
    (max read : Z) (iter : json_iter) (tok : json_token)
    (status : json_status) {struct fuel} : option load_result :=
  match fuel with
  | O => None
  | S fuel =>
      if ilen iter =? 0 then Some (status, toks, read)
      else
        let toks := <[read := tok]> toks in
        let read := int32 (read + 1) in
        if max <? read then Some (JSON_OUT_OF_TOKEN, toks, read)
        else
          let last := tok_at toks (int32 (read - 1)) in
          let continue toks read status :=
            match json_read m (Some iter) with
            | None => None
            | Some (iter', tok') =>
                if err iter' && negb (src iter' =? 0) && negb (ilen iter' =? 0)
                then Some (JSON_PARSING_ERROR, toks, read)
                else load_while fuel m toks max read iter' tok' status
            end in
          if is_container (type last) then
            match json_load fuel m toks max read (str last) (len last) with
            | None => None
            | Some (JSON_OK, toks, read) => continue toks read JSON_OK
            | Some r => Some r
            end
          else continue toks read status
  end.

(** ** Test documents

    In the text of a test document an apostrophe stands for the double
    quote of JSON. *)
Definition json_text (s : string) : list Z :=
  map (fun c => if c =? 39 then DQUOTE else c) (bytes_of_string s).

Definition doc (s : string) : memory := Memory 1000 (json_text s).
Definition doc_len (s : string) : Z := Z.of_nat (String.length s).

(** The array holding the tokens [ts] at the indices [0, 1, ...]. *)
Definition tok_array (ts : list json_token) : gmap Z json_token :=
  list_to_map (zip (map Z.of_nat (seq 0 (List.length ts))) ts).

(** ** Utility

    [json_number] is [double]; it is modelled by the rationals, which is
    exact for the sums and products of small decimal numbers the
    conversions below compute. *)
Definition json_number : Type := Q.

Definition int64 (z : Z) : Z := (z + 2 ^ 63) mod 2 ^ 64 - 2 ^ 63.

(** [json_ipow]: the loop halves [exp], an [unsigned], so 32 iterations
    exhaust it. *)
Fixpoint ipow_loop (n : nat) (res base exp : Z) : Z :=
  match n with
  | O => res
  | S n =>
      if exp =? 0 then res
      else
        let res := if Z.odd exp then int64 (res * base) else res in
        ipow_loop n res (int32 (base * base)) (Z.shiftr exp 1)
  end.

Definition json_ipow (base exp : Z) : json_number :=
  inject_Z (ipow_loop 33 1 base exp).

Definition is_digit (c : Z) : bool := (ch "0" <=? c) && (c <=? ch "9").

(** The [for] loops of [json_stoi] and [json_stof] visit the bytes
    [tok->str[i]] for [i] from the start offset up to [tok->len]. *)
Definition tok_bytes (m : memory) (tok : json_token) (off : Z) : list Z :=
  map (fun i => peek m (str tok + off + Z.of_nat i))
      (seq 0 (Z.to_nat (len tok - off))).

Definition json_stoi (m : memory) (tok : json_token) : json_number :=
  if (str tok =? 0) || (len tok =? 0) then 0%Q
  else
    let c0 := peek m (str tok) in
    let off := if (c0 =? ch "-") || (c0 =? ch "+") then 1 else 0 in
    let neg := c0 =? ch "-" in
    let n := fold_left
               (fun (n : Q) c =>
                  if is_digit c
                  then (n * inject_Z 10 + inject_Z c - inject_Z (ch "0"))%Q
                  else n)
               (tok_bytes m tok off) 0%Q in
    if neg then (- n)%Q else n.

Definition json_stof (m : memory) (tok : json_token) : json_number :=
  if (str tok =? 0) || (len tok =? 0) then 0%Q
  else
    fst (fold_left
           (fun (nf : Q * Q) c =>
              let '(n, f) := nf in
              if is_digit c
              then ((n + inject_Z (c - ch "0") * f)%Q, (f * (1 # 10))%Q)
              else nf)
           (tok_bytes m tok 0) (0%Q, (1 # 10)%Q)).

(** The three sub-tokens [nums[INT]], [nums[FLT]], [nums[EXP]] of
    [json_convert] and the slot [write] points at. *)
Inductive num_slot := INT | FLT | EXP.

Record convert_state := ConvertState {
  n_int : json_token;
  n_flt : json_token;
  n_exp : json_token;
  write : num_slot }.

Definition slot (s : convert_state) (w : num_slot) : json_token :=
  match w with INT => n_int s | FLT => n_flt s | EXP => n_exp s end.

Definition set_slot (s : convert_state) (w : num_slot) (t : json_token)
    : convert_state :=
  match w with
  | INT => ConvertState t (n_flt s) (n_exp s) (write s)
  | FLT => ConvertState (n_int s) t (n_exp s) (write s)
  | EXP => ConvertState (n_int s) (n_flt s) t (write s)
  end.

Definition set_write (w : num_slot) (s : convert_state) : convert_state :=
  ConvertState (n_int s) (n_flt s) (n_exp s) w.

(** [write->len = (int)(cur - write->str); write = &nums[w]; write->str = cur + 1;] *)
Definition split_at (s : convert_state) (cur : Z) (w : num_slot)
    : convert_state :=
  let s := set_slot s (write s)
             (set_len (int32 (cur - str (slot s (write s)))) (slot s (write s))) in
  let s := set_write w s in
  set_slot s w (set_str (cur + 1) (slot s w)).

(** The scanning loop of [json_convert]: [n] is the value of [len], the
    number of bytes still to visit; [None] is the early
    [return JSON_NONE], otherwise the loop leaves [(nums, cur)]. *)
Fixpoint convert_loop (n : nat) (m : memory) (s : convert_state) (cur : Z)
    : option (convert_state * Z) :=
  match n with
  | O => Some (s, cur)
  | S n =>
      match json_go_num (peek m cur) with
      | JSON_STATE_NUM_FAILED => None
      | JSON_STATE_NUM_FLT =>
          if negb (str (n_flt s) =? 0) then None
          else if negb (str (n_exp s) =? 0) then None
          else convert_loop n m (split_at s cur FLT) (cur + 1)
      | JSON_STATE_NUM_EXP =>
          if negb (str (n_exp s) =? 0) then None
          else convert_loop n m (split_at s cur EXP) (cur + 1)
      | JSON_STATE_NUM_BREAK => Some (s, cur + 1)
      | JSON_STATE_NUM_LOOP => convert_loop n m s (cur + 1)
      end
  end.

(** [json_convert(num, tok)] with valid pointers: the returned kind, and
    the value stored in [*num] when one is stored. *)
Definition json_convert (m : memory) (tok : json_token)
    : json_token_type * option json_number :=
  if (str tok =? 0) || (len tok =? 0) then (JSON_NONE, None)
  else
    let s0 := ConvertState (set_str (str tok) JSON_TOKEN_NULL)
                JSON_TOKEN_NULL JSON_TOKEN_NULL INT in
    match convert_loop (Z.to_nat (len tok)) m s0 (str tok) with
    | None => (JSON_NONE, None)
    | Some (s, cur) =>
        let s := set_slot s (write s)
                   (set_len (int32 (cur - str (slot s (write s))))
                            (slot s (write s))) in
        let i := json_stoi m (n_int s) in
        let f := json_stof m (n_flt s) in
        let e := json_stoi m (n_exp s) in
        let ae := if Qlt_le_dec e 0 then (- e)%Q else e in
        let p := json_ipow 10 (uint32 (Qfloor ae)) in
        let p := if Qlt_le_dec e 0 then (1 / p)%Q else p in
        let v := ((i + (if Qlt_le_dec i 0 then - f else f)) * p)%Q in
        (JSON_NUMBER, Some v)
    end.

(** [json_cpy(dst, max, tok)] with valid pointers: the returned length
    and the destination buffer, a finite map from index to byte. *)
Definition json_cpy (m : memory) (dst : gmap Z Z) (max : Z) (tok : json_token)
    : Z * gmap Z Z :=
  if max =? 0 then (0, dst)
  else
    let ret := if max <? int32 (len tok + 1) then max else len tok in
    let siz := if max <? int32 (len tok + 1) then int32 (max - 1) else len tok in
    let dst := fold_left (fun d i => <[i := peek m (str tok + i)]> d)
                 (map Z.of_nat (seq 0 (Z.to_nat siz))) dst in
    (ret, <[siz := 0]> dst).

(** [json_lcmp(tok, str, len)] with a valid token pointer. *)
Definition json_lcmp (m : memory) (tok : json_token) (s : Z) (l : Z) : Z :=
  if (s =? 0) || (l =? 0) then 1
  else
    let n := Z.to_nat (Z.min (len tok) l) in
    if forallb (fun i => peek m (str tok + Z.of_nat i) =? peek m (s + Z.of_nat i))
               (seq 0 n)
    then 0 else 1.

(** ** Query *)

(** A scan for a byte stops at the latest at the first byte after the
    memory block, which reads as the terminator [0]. *)
Definition scan_fuel (m : memory) : nat := S (List.length (bytes m)).

(** The [while] loop of [json_strchr]: [inl p] is [return str] inside
    the loop, [inr p] the value of [str] when the loop ends. *)
Fixpoint strchr_loop (n : nat) (m : memory) (s c l dec : Z) : Z + Z :=
  match n with
  | O => inr s
  | S n =>
      if negb (peek m s =? 0) && (0 <=? l) then
        if peek m s =? c then inl s
        else strchr_loop n m (s + 1) c (int32 (l - dec)) dec
      else inr s
  end.

Definition json_strchr (m : memory) (s c l : Z) : Z :=
  let neg := l <? 0 in
  let dec := if neg then 0 else 1 in
  let l := if neg then 0 else l in
  if s =? 0 then 0
  else
    match strchr_loop (scan_fuel m) m s c l dec with
    | inl p => p
    | inr p => if neg then p else 0
    end.

Definition JSON_DELIMITER : Z := ch ".".

(** [json_path_parse_name(tok, path, delimiter)]: the token left in
    [*tok] and the returned rest of the path. *)
Definition json_path_parse_name (m : memory) (tok : json_token) (path : Z)
    (delimiter : Z) : json_token * Z :=
  if (path =? 0) || (peek m path =? 0) then (tok, 0)
  else
    let tok := set_str path tok in
    let del := json_strchr m (str tok) delimiter (-1) in
    let begin := json_strchr m (str tok) (ch "[") (-1) in
    let end_ := json_strchr m (str tok) (ch "]") (-1) in
    if negb (begin =? 0) && negb (end_ =? 0) && (begin =? str tok) then
      let tok := set_len (int32 (int32 (end_ - begin) + 1)) tok in
      if peek m (end_ + 1) =? 0 then (tok, 0)
      else if peek m (end_ + 1) =? ch "." then (tok, end_ + 2)
      else (tok, end_ + 1)
    else if begin <? del then
      (set_len (int32 (begin - str tok)) tok, begin)
    else if del =? 0 then (tok, 0)
    else if peek m del =? 0 then (set_len (int32 (del - str tok)) tok, 0)
    else (set_len (int32 (del - str tok)) tok, del + 1).

(** [json_path_parse_array(array, token)]: the returned flag and the
    token left in [*array]. *)
Definition json_path_parse_array (m : memory) (array token : json_token)
    : bool * json_token :=
  let array := set_str (str token) array in
  let begin := json_strchr m (str array) (ch "[") (len token) in
  if (begin =? 0) || (len token <=? int32 (begin - str array))
  then (false, array)
  else
    let end_ := json_strchr m begin (ch "]")
                  (int32 (len token - int32 (begin - str array))) in
    if (end_ =? 0) || (len token <=? int32 (end_ - str array))
    then (false, array)
    else (true, set_len (int32 ((end_ - 1) - begin)) (set_str (begin + 1) array)).

(** [(int)n] for a [json_number]: truncation toward zero. *)
Definition number_to_int (n : json_number) : Z :=
  int32 (Z.quot (Qnum n) (Z.pos (Qden n))).

(** The [for (j = 0; j < n; ++j)] loop of [json_query] that steps over
    array elements: [None] is its [return NULL], otherwise the final
    index [i]. *)
Fixpoint skip_elements (k : nat) (toks : gmap Z json_token) (count : Z)
    (n : json_number) (j i : Z) : option Z :=
  match k with
  | O => Some i
  | S k =>
      if Qlt_le_dec (inject_Z j) n then
        let iter := tok_at toks i in
        let i := if is_container (type iter)
                 then int32 (int32 (i + sub iter) + 1)
                 else int32 (i + 1) in
        if count <? i then None
        else skip_elements k toks count n (int32 (j + 1)) i
      else Some i
  end.

(** The local variables of [json_query] across its [while (1)] loop;
    [iter] is always [&toks[q_i]]. *)
Record query_state := QueryState {
  q_i : Z;
  q_begin : bool;
  q_name : json_token;
  q_array : json_token;
  q_index : Z;
  q_size : Z;
  q_path : Z }.

Inductive query_step :=
| QContinue (s : query_state)
| QReturn (r : option Z).

(** One iteration of the [while (1)] loop; a returned pointer
    [&toks[k]] is [Some k], the null pointer [None]. *)
Definition query_body (m : memory) (toks : gmap Z json_token) (count : Z)
    (s : query_state) : query_step :=
  let i := q_i s in
  let iter := tok_at toks i in
  if is_container (type iter) || q_begin s then
    if q_begin s then
      QContinue (QueryState i false (q_name s) (q_array s) 0 count (q_path s))
    else if type_eqb (type iter) JSON_OBJECT then
      if count <? int32 (i + 1) then QReturn None
      else QContinue (QueryState (int32 (i + 1)) false (q_name s) (q_array s)
                        0 (children iter) (q_path s))
    else
      let '(ok, array) := json_path_parse_array m (q_array s) (q_name s) in
      if negb ok then QReturn None
      else if count <=? int32 (i + 1) then QReturn None
      else if len array <? 1 then QReturn None
      else
        match json_convert m array with
        | (JSON_NUMBER, Some n) =>
            if children iter <=? number_to_int n then QReturn None
            else
              let array := set_len 0 (set_str 0 array) in
              match skip_elements (Z.to_nat (Qceiling n)) toks count n 0
                      (int32 (i + 1)) with
              | None => QReturn None
              | Some i =>
                  if q_path s =? 0 then QReturn (Some i)
                  else
                    let '(name, path) :=
                      json_path_parse_name m (q_name s) (q_path s)
                        JSON_DELIMITER in
                    QContinue (QueryState i false name array 0 (q_size s) path)
              end
        | _ => QReturn None
        end
  else if json_lcmp m iter (str (q_name s)) (len (q_name s)) =? 0 then
    if q_path s =? 0 then
      if count <? int32 (i + 1) then QReturn None
      else QReturn (Some (i + 1))
    else if count <? int32 (i + 1) then QReturn None
    else if negb (is_container (type (tok_at toks (i + 1)))) then QReturn None
    else
      let '(name, path) :=
        json_path_parse_name m (q_name s) (q_path s) JSON_DELIMITER in
      QContinue (QueryState (int32 (i + 1)) false name (q_array s)
                   (q_index s) (q_size s) path)
  else
    let index := int32 (q_index s + 1) in
    if q_size s <=? index then QReturn None
    else if count <=? int32 (i + 1) then QReturn None
    else
      let next := tok_at toks (i + 1) in
      let i := if is_container (type next)
               then int32 (i + int32 (sub next + 2))
               else int32 (i + 2) in
      if count <=? i then QReturn None
      else QContinue (QueryState i false (q_name s) (q_array s)
                        index (q_size s) (q_path s)).

Fixpoint query_loop (fuel : nat) (m : memory) (toks : gmap Z json_token)
    (count : Z) (s : query_state) : option (option Z) :=
  match fuel with
  | O => None
  | S fuel =>
      match query_body m toks count s with
      | QReturn r => Some r
      | QContinue s' => query_loop fuel m toks count s'
      end
  end.

(** [json_query(toks, count, path)] with a valid [toks]. *)
Definition json_query (fuel : nat) (m : memory) (toks : gmap Z json_token)
    (count : Z) (path : Z) : option (option Z) :=
  if count =? 0 then Some None
  else if path =? 0 then Some (Some 0)
  else
    let '(name, path) :=
      json_path_parse_name m JSON_TOKEN_NULL path JSON_DELIMITER in
    query_loop fuel m toks count
      (QueryState 0 true name (set_len 0 (set_str 0 JSON_TOKEN_NULL)) 0 0 path).

(** [json_query_number(num, toks, count, path)] with valid [num] and
    [toks]: the returned kind and the value stored in [*num], if any. *)
Definition json_query_number (fuel : nat) (m : memory)
    (toks : gmap Z json_token) (count : Z) (path : Z)
    : option (json_token_type * option json_number) :=
  if (count =? 0) || (path =? 0) then Some (JSON_NONE, None)
  else
    match json_query fuel m toks count path with
    | None => None
    | Some None => Some (JSON_NONE, None)
    | Some (Some k) =>
        let tok := tok_at toks k in
        if negb (type_eqb (type tok) JSON_NUMBER) then Some (type tok, None)
        else Some (json_convert m tok)
    end.

(** [json_query_string(buffer, max, size, toks, count, path)] with valid
    pointers: the returned kind, the buffer, and the value stored in
    [*size], if any. *)
Definition json_query_string (fuel : nat) (m : memory) (buffer : gmap Z Z)
    (max : Z) (toks : gmap Z json_token) (count : Z) (path : Z)
    : option (json_token_type * gmap Z Z * option Z) :=
  if (count =? 0) || (path =? 0) then Some (JSON_NONE, buffer, None)
  else
    match json_query fuel m toks count path with
    | None => None
    | Some None => Some (JSON_NONE, buffer, None)
    | Some (Some k) =>
        let tok := tok_at toks k in
        if negb (type_eqb (type tok) JSON_STRING)
        then Some (type tok, buffer, None)
        else
          let '(size, buffer) := json_cpy m buffer max tok in
          Some (type tok, buffer, Some size)
    end.

Definition json_query_type (fuel : nat) (m : memory)
    (toks : gmap Z json_token) (count : Z) (path : Z)
    : option json_token_type :=
  if (count =? 0) || (path =? 0) then Some JSON_NONE
  else
    match json_query fuel m toks count path with
    | None => None
    | Some None => Some JSON_NONE
    | Some (Some k) => Some (type (tok_at toks k))
    end.

(** A document followed by its terminator and a query path. *)
Definition doc_path (s p : string) : memory :=
  Memory 1000 (json_text s ++ 0 :: bytes_of_string p).
Definition path_ptr (s : string) : Z := 1000 + doc_len s + 1.

Definition doc_ab : string := "{'a':1,'b':'hi'}".
Definition doc_nested : string := "{'o':{'a':1,'b':'hi'}}".

(** ** Specification of the numeric scan *)

(** The bytes [p[0 .. n-1]]. *)
Definition mem_bytes (m : memory) (p : Z) (n : nat) : list Z :=
  map (fun i => peek m (p + Z.of_nat i)) (seq 0 n).

(** The bytes of a token. *)
Definition token_bytes (m : memory) (tok : json_token) : list Z :=
  mem_bytes m (str tok) (Z.to_nat (len tok)).






(** ** Specification of the nesting structure

    The run of [json_read]'s loop from a loop state, as a relation: the
    state reaches the [return] of the iterator and token [r]. *)
Inductive runs (m : memory) : read_state -> json_iter * json_token -> Prop :=
| runs_end s it obj :
    r_len s = 0 -> read_end m s = Return it obj -> runs m s (it, obj)
| runs_return s it obj :
    r_len s <> 0 -> read_body m s = Return it obj -> runs m s (it, obj)
| runs_step s s' r :
    r_len s <> 0 -> read_body m s = Continue s' -> runs m s' r -> runs m s r.

(** A token with the trees of the tokens nested in it. *)
#[local] Set Warnings "-register-all".
Inductive tree := Node (tok : json_token) (kids : list tree).

Definition root (t : tree) : json_token :=
  match t with Node tok _ => tok end.

(** Pre-order. *)
Fixpoint flatten (t : tree) : list json_token :=
  match t with
  | Node tok kids => tok :: concat (map flatten kids)
  end.

Definition flatten_forest (f : list tree) : list json_token :=
  concat (map flatten f).

(** What [json_num] adds up over the roots of a forest. *)
Definition total (f : list tree) : Z :=
  fold_right (fun t acc => 1 + sub (root t) + acc) 0 f.

(** [well_nested m it f]: reading from the iterator [it] yields the
    roots of [f] one after the other and then exhausts the input, every
    read but the last leaving a usable iterator and a token; the kids of
    a container are what reading the bytes of the container yields, and
    its [sub] is what [json_num] counts there; other tokens have no kids
    and [sub = 0]. *)
Inductive well_nested (m : memory) : json_iter -> list tree -> Prop :=
| wn_end it it' tok :
    json_read m (Some it) = Some (it', tok) ->
    ilen it' = 0 -> src it' = 0 ->
    well_nested m it []
| wn_leaf it it' tok rest :
    json_read m (Some it) = Some (it', tok) ->
    ilen it' <> 0 -> src it' <> 0 -> err it' = false -> str tok <> 0 ->
    is_container (type tok) = false -> sub tok = 0 ->
    well_nested m it' rest ->
    well_nested m it (Node tok [] :: rest)
| wn_container it it' tok kids rest :
    json_read m (Some it) = Some (it', tok) ->
    ilen it' <> 0 -> src it' <> 0 -> err it' = false -> str tok <> 0 ->
    is_container (type tok) = true ->
    well_nested m (json_begin (str tok) (len tok)) kids ->
    sub tok = total kids ->
    well_nested m it' rest ->
    well_nested m it (Node tok kids :: rest).

(** The buffer [(json, length)] is one complete object or array: it
    starts with an opening bracket and, read as a member of a container
    (at depth 1), it is one container token that spans the whole
    buffer. *)
Definition single_container (m : memory) (json length : Z) : Prop :=
  exists it tok,
    (peek m json = ch "{" \/ peek m json = ch "[")
    /\ json_read m (Some (Iter length false 1 GO_STRUCT json)) = Some (it, tok)
    /\ is_container (type tok) = true
    /\ str tok = json /\ len tok = length.

(** The array after storing the tokens [ts] from index [i] on. *)
Fixpoint store (toks : gmap Z json_token) (i : Z) (ts : list json_token)
    : gmap Z json_token :=
  match ts with
  | [] => toks
  | t :: ts => store (<[i := t]> toks) (i + 1) ts
  end.

Definition kids (t : tree) : list tree :=
  match t with Node _ ks => ks end.

(** The nodes of a forest in pre-order, each with its index in the flat
    array and the index of its next sibling, if it has one. *)
Section Layout.
Variable lay : tree -> nat -> option nat -> list (nat * tree * option nat).

Fixpoint layout_list (ks : list tree) (j : nat)
    : list (nat * tree * option nat) :=
  match ks with
  | [] => []
  | k :: ks' =>
      let j' := (j + List.length (flatten k))%nat in
      lay k j (match ks' with [] => None | _ => Some j' end)
        ++ layout_list ks' j'
  end.
End Layout.

Fixpoint layout (t : tree) (i : nat) (sib : option nat)
    : list (nat * tree * option nat) :=
  match t with
  | Node tok ks => (i, t, sib) :: layout_list layout ks (S i)
  end.

Definition layout_forest (f : list tree) (j : nat)
    : list (nat * tree * option nat) :=
  layout_list layout f j.

(** ** Invariants of the tokenizer loop

    [outer_inv m s o]: the loop state [o] is inside a container whose
    first byte is at [s] and that is the token in flight. *)
Record outer_inv (m : memory) (s : Z) (o : read_state) : Prop := OuterInv {
  oi_depth : 2 <= depth (r_iter o) <= r_cur o - s + 1;
  oi_str : str (r_obj o) = s;
  oi_type : type (r_obj o) = JSON_NONE;
  oi_s : 0 < s < r_cur o;
  oi_len : 0 <= r_len o;
  oi_bound : r_cur o - s + r_len o < 2 ^ 31 - 1;
  oi_sub : 0 <= sub (r_obj o) <= r_cur o - s - 1;
  oi_up : json_go_struct (peek m s) = JSON_STATE_UP }.

(** [inner_inv m s i]: the loop state [i] belongs to a read of the
    bytes of the container that starts at [s], after its first byte.  At
    depth 1 a token is in flight exactly inside a string or a bare run;
    deeper, the token in flight is a container. *)
Record inner_inv (m : memory) (s : Z) (i : read_state) : Prop := InnerInv {
  ii_err : err (r_iter i) = false;
  ii_depth : 1 <= depth (r_iter i);
  ii_type : type (r_obj i) = JSON_NONE;
  ii_flight :
    if depth (r_iter i) =? 1 then
      match go (r_iter i) with
      | GO_NULL => False
      | GO_STRUCT => str (r_obj i) = 0 /\ sub (r_obj i) = 0
      | GO_BARE =>
          s < str (r_obj i) < r_cur i /\ sub (r_obj i) = 0
          /\ json_go_struct (peek m (str (r_obj i))) = JSON_STATE_BARE
      | GO_STRING | GO_UTF8 | GO_ESC =>
          s < str (r_obj i) < r_cur i /\ sub (r_obj i) = 0
          /\ peek m (str (r_obj i)) = DQUOTE
      end
    else
      go (r_iter i) <> GO_NULL
      /\ s < str (r_obj i) < r_cur i
      /\ json_go_struct (peek m (str (r_obj i))) = JSON_STATE_UP
      /\ 0 <= sub (r_obj i) <= r_cur i - str (r_obj i) - 1
      /\ depth (r_iter i) <= r_cur i - str (r_obj i) + 1 }.

(** [sim o i n]: the state [o] of the read that has the container in
    flight and the state [i] of a read of the container's bytes are at
    the same byte, one level of nesting apart; [n] bytes of [o]'s input
    follow the container. *)
Record sim (o i : read_state) (n : Z) : Prop := Sim {
  sim_cur : r_cur i = r_cur o;
  sim_utf8 : go (r_iter o) = GO_UTF8 -> r_utf8 i = r_utf8 o;
  sim_go : go (r_iter i) = go (r_iter o);
  sim_depth : depth (r_iter o) = depth (r_iter i) + 1;
  sim_len : r_len i = r_len o - n }.

(** What the token in flight has added to the count of the enclosing
    container. *)
Definition inflight (i : read_state) : Z :=
  if str (r_obj i) =? 0 then 0 else 1 + sub (r_obj i).

Definition node_ok (m : memory) (tok : json_token) (kids : list tree) : Prop :=
  (is_container (type tok) = true
   /\ well_nested m (json_begin (str tok) (len tok)) kids
   /\ sub tok = total kids)
  \/ (is_container (type tok) = false /\ sub tok = 0 /\ kids = []).

(** [tail m i ri delta]: the read in state [i] returns [ri]; either the
    input is exhausted, or [ri] is a token, the reads that follow are
    well nested, and [delta] is what the tokens from [i] on still add to
    the count. *)
Definition tail (m : memory) (i : read_state) (ri : json_iter * json_token)
    (delta : Z) : Prop :=
  (ilen (fst ri) = 0 /\ src (fst ri) = 0 /\ str (r_obj i) = 0 /\ delta = 0)
  \/ (ilen (fst ri) <> 0 /\ src (fst ri) <> 0 /\ err (fst ri) = false
      /\ str (snd ri) <> 0
      /\ (exists rest,
             well_nested m (fst ri) rest
             /\ delta = 1 + sub (snd ri) - inflight i + total rest)
      /\ (if str (r_obj i) =? 0 then exists kids, node_ok m (snd ri) kids
          else is_container (type (snd ri)) = (2 <=? depth (r_iter i))
               /\ (depth (r_iter i) = 1 -> sub (snd ri) = 0))).

(** The premises under which a loop state is about to read a
    container: at depth 1, under [json_go_struct], no token in flight,
    at an opening bracket. *)
Record at_container (m : memory) (o : read_state) : Prop := AtContainer {
  ac_depth : depth (r_iter o) = 1;
  ac_go : go (r_iter o) = GO_STRUCT;
  ac_str : str (r_obj o) = 0;
  ac_sub : sub (r_obj o) = 0;
  ac_type : type (r_obj o) = JSON_NONE;
  ac_up : json_go_struct (peek m (r_cur o)) = JSON_STATE_UP;
  ac_cur : 0 < r_cur o;
  ac_len : 0 < r_len o < 2 ^ 31 - 1 }.

(** The statement proved by induction on the number of bytes left: a
    read that is at the opening bracket of a container and returns a
    container token returns one whose bytes are well nested and whose
    [sub] is the count of the tokens nested in it. *)
Definition containers_nested (m : memory) (bound : Z) : Prop :=
  forall o r,
    r_len o < bound -> at_container m o -> runs m o r ->
    is_container (type (snd r)) = true ->
    exists kids,
      well_nested m (json_begin (str (snd r)) (len (snd r))) kids
      /\ sub (snd r) = total kids.

(** ** Buffers that the tokenizer splits into finished tokens *)

(** The [g] bytes from [p] on lie between two tokens of the top level,
    met at depth [d] (0 outside of the outermost container, 1 inside
    it): blanks, commas, the separators [:] and [=], the bracket that
    opens the outermost container and the bracket that closes it.  A
    closing bracket met at depth 0 is not among them, nor is a byte
    that starts a token.  The result is the depth after the bytes. *)
Fixpoint gap (m : memory) (p : Z) (g : nat) (d : Z) : option Z :=
  match g with
  | O => Some d
  | S g =>
      match json_go_struct (peek m p) with
      | JSON_STATE_LOOP | JSON_STATE_SEP => gap m (p + 1) g d
      | JSON_STATE_UP => if d =? 0 then gap m (p + 1) g 1 else None
      | JSON_STATE_DOWN => if d =? 1 then gap m (p + 1) g 0 else None
      | _ => None
      end
  end.

(** The byte [c], met at depth [d] between two tokens, starts a token:
    a double quote, the first byte of a bare token or, inside the
    outermost container, an opening bracket. *)
Definition starts_token (d c : Z) : Prop :=
  json_go_struct c = JSON_STATE_QUP
  \/ json_go_struct c = JSON_STATE_BARE
  \/ (json_go_struct c = JSON_STATE_UP /\ d = 1).

(** [no_stray_close m it]: a read that starts at the iterator [it],
    between two tokens, meets no closing bracket at depth 0 before its
    token.  Wherever the bytes from [src it] on form a gap that ends
    at depth 0, the byte after them is not a closing bracket. *)
Definition no_stray_close (m : memory) (it : json_iter) : Prop :=
  forall g : nat,
    Z.of_nat g < ilen it ->
    gap m (src it) g (depth it) = Some 0 ->
    json_go_struct (peek m (src it + Z.of_nat g)) <> JSON_STATE_DOWN.

(** [tokenized m it last]: the reads of the top level from the
    iterator [it] on split the input into finished tokens.  Every read
    that leaves input ([len <> 0]) returns a finished token (its type
    is set) and meets no closing bracket at depth 0 before it; the
    read that finds the end of the input returns the iterator
    [last]. *)
Inductive tokenized (m : memory) : json_iter -> json_iter -> Prop :=
| tk_last it it' tok :
    json_read m (Some it) = Some (it', tok) ->
    ilen it' = 0 ->
    tokenized m it it'
| tk_token it it' tok last :
    json_read m (Some it) = Some (it', tok) ->
    ilen it' <> 0 ->
    type tok <> JSON_NONE ->
    no_stray_close m it ->
    tokenized m it' last ->
    tokenized m it last.

(** An iterator between two tokens of the top level. *)
Definition idle (it : json_iter) : Prop :=
  err it = false /\ (go it = GO_STRUCT \/ go it = GO_NULL)
  /\ (depth it = 0 \/ depth it = 1)
  /\ 0 < src it /\ 0 < ilen it < 2 ^ 31 - 1.

(** A loop state with a string or a bare token in flight at the top
    level. *)
Record leaf_inv (m : memory) (i : read_state) : Prop := LeafInv {
  li_err : err (r_iter i) = false;
  li_depth : depth (r_iter i) = 0 \/ depth (r_iter i) = 1;
  li_type : type (r_obj i) = JSON_NONE;
  li_sub : sub (r_obj i) = 0;
  li_str : 0 < str (r_obj i) < r_cur i;
  li_len : 0 <= r_len i;
  li_bound : r_cur i - str (r_obj i) + r_len i < 2 ^ 31 - 1;
  li_go :
    match go (r_iter i) with
    | GO_BARE => json_go_struct (peek m (str (r_obj i))) = JSON_STATE_BARE
    | GO_STRING | GO_UTF8 | GO_ESC => peek m (str (r_obj i)) = DQUOTE
    | GO_STRUCT | GO_NULL => False
    end }.

(** [top_nested m it f]: as [well_nested], for the reads of
    [json_load] at the top level.  Reading from [it] yields the roots
    of [f] one after the other, every one of them with a read that
    leaves input; the read that finds the end of the input may return
    one more token (a token that ends with the last byte of the
    buffer), which is not a root of [f]: [json_load] does not store
    it. *)
Inductive top_nested (m : memory) : json_iter -> list tree -> Prop :=
| tn_end it it' tok :
    json_read m (Some it) = Some (it', tok) ->
    ilen it' = 0 ->
    top_nested m it []
| tn_token it it' tok kids rest :
    json_read m (Some it) = Some (it', tok) ->
    ilen it' <> 0 -> src it' <> 0 -> err it' = false -> str tok <> 0 ->
    node_ok m tok kids ->
    top_nested m it' rest ->
    top_nested m it (Node tok kids :: rest).

(** A document with a blank before its object and a line feed after
    it. *)
Definition doc_padded : memory :=
  Memory 1000 (json_text " {'a':[1,{'b':2}]}" ++ [LF]).

(** Three buffers that are not split into finished tokens: one that
    starts with a closing bracket, and two that end inside a string. *)
Definition doc_unbalanced : string := "]1,[[[]]".
Definition doc_unfinished : string := "[[']]".
Definition doc_unfinished_array : string := "[['1][]]".

(** The document [[[[1]],2]] and the nesting of its tokens. *)
Definition doc_siblings : string := "[[[1]],2]".
Definition forest_siblings : list tree :=
  [Node (Token JSON_ARRAY 1001 5 1 2)
     [Node (Token JSON_ARRAY 1002 3 1 1)
        [Node (Token JSON_NUMBER 1003 1 0 0) []]];
   Node (Token JSON_NUMBER 1007 1 0 0) []].

(** The layout of a loaded array: the tokens are the pre-order of the
    nesting forest [f] of the document; the layout of [f] lists every
    index of the array; and for the node at index [i]: its token is
    [toks[i]], its [sub] is the number of tokens nested in it,
    [i + sub < count], the tokens at [i+1 .. i+sub] are the tokens nested
    in it, in pre-order, and its next sibling, if it has one, is at
    [i + sub + 1]. *)
Definition subtrees_laid_out (m : memory) (json length : Z)
    (toks : gmap Z json_token) (count : Z) : Prop :=
  exists f,
    top_nested m (json_begin json length) f
    /\ toks = store ∅ 0 (flatten_forest f)
    /\ count = Z.of_nat (List.length (flatten_forest f))
    /\ map (fun e => fst (fst e)) (layout_forest f 0) = seq 0 (Z.to_nat count)
    /\ forall i t sib,
         In (i, t, sib) (layout_forest f 0) ->
         toks !! Z.of_nat i = Some (root t)
         /\ sub (root t) = Z.of_nat (List.length (flatten_forest (kids t)))
         /\ Z.of_nat i + sub (root t) < count
         /\ (forall k : nat,
                (k < List.length (flatten_forest (kids t)))%nat ->
                toks !! (Z.of_nat i + 1 + Z.of_nat k)
                = flatten_forest (kids t) !! k)
         /\ (forall j, sib = Some j ->
                       Z.of_nat j = Z.of_nat i + sub (root t) + 1
                       /\ Z.of_nat j < count).
(** The first byte at or after [s] that is [c] or the terminator:
    nothing before offset [k] is either, and the byte at [k] is. *)
Definition first_stop (m : memory) (s c : Z) (k : nat) : Prop :=
  (forall i : nat, (i < k)%nat ->
                   peek m (s + Z.of_nat i) <> 0 /\ peek m (s + Z.of_nat i) <> c)
  /\ (peek m (s + Z.of_nat k) = c \/ peek m (s + Z.of_nat k) = 0).

(** The end of a name segment of a path: the first byte that is the
    delimiter, an opening bracket or the terminator. *)
Definition segment_end (m : memory) (path delimiter : Z) (k : nat) : Prop :=
  (forall i : nat, (i < k)%nat ->
                   peek m (path + Z.of_nat i) <> 0
                   /\ peek m (path + Z.of_nat i) <> delimiter
                   /\ peek m (path + Z.of_nat i) <> ch "[")
  /\ (peek m (path + Z.of_nat k) = 0
      \/ peek m (path + Z.of_nat k) = delimiter
      \/ peek m (path + Z.of_nat k) = ch "[").
(** The bracketed index of a path segment: the segment's first opening
    bracket is at offset [b], the first closing bracket after it at
    offset [e], and no terminator comes before [e]. *)
Definition bracket_pair (m : memory) (s : Z) (b e : nat) : Prop :=
  (b < e)%nat
  /\ peek m (s + Z.of_nat b) = ch "["
  /\ peek m (s + Z.of_nat e) = ch "]"
  /\ (forall i : nat, (i < e)%nat -> peek m (s + Z.of_nat i) <> 0)
  /\ (forall i : nat, (i < b)%nat -> peek m (s + Z.of_nat i) <> ch "[")
  /\ (forall i : nat, (b <= i < e)%nat -> peek m (s + Z.of_nat i) <> ch "]").
(** ** Comparing a token with a C string *)

(** The [for] loop of [json_cmp], entered with the counter [i] and the
    running pointer [s]; its result is the value [json_cmp] returns.
    The test [i < tok->len] ends the loop after at most [tok->len]
    rounds, which is the bound [n]. *)
Fixpoint cmp_loop (n : nat) (m : memory) (tok : json_token) (i s : Z) : Z :=
  match n with
  | O => 0
  | S n =>
      if (i <? len tok) && negb (peek m s =? 0) then
        if negb (peek m (str tok + i) =? peek m s) then 1
        else cmp_loop n m tok (int32 (i + 1)) (s + 1)
      else 0
  end.

(** [json_cmp(tok, str)] with a valid token pointer. *)
Definition json_cmp (m : memory) (tok : json_token) (s : Z) : Z :=
  if s =? 0 then 1
  else cmp_loop (S (Z.to_nat (len tok))) m tok 0 s.

(** [n] is the length of the terminated string at [s]. *)
Definition strlen (m : memory) (s : Z) (n : nat) : Prop :=
  (forall i : nat, (i < n)%nat -> peek m (s + Z.of_nat i) <> 0)
  /\ peek m (s + Z.of_nat n) = 0.

(** The token and the bytes at [s] agree on their first [n] bytes. *)
Definition agree (m : memory) (tok : json_token) (s : Z) (n : Z) : Prop :=
  forall i : nat, Z.of_nat i < n ->
                  peek m (str tok + Z.of_nat i) = peek m (s + Z.of_nat i).
(** ** The buffer of a read *)

(** What the loop of [json_read] keeps true of its variables when it was
    entered with the buffer [src0 .. src0 + len0): the iterator still
    describes that buffer, [cur] and [len] split it, and the token under
    construction starts inside it, before [cur]; its type is set only
    when the token is finished. *)
Definition read_inv (src0 len0 : Z) (s : read_state) : Prop :=
  src (r_iter s) = src0 /\ ilen (r_iter s) = len0
  /\ src0 <= r_cur s /\ 0 <= r_len s /\ r_cur s + r_len s = src0 + len0
  /\ (str (r_obj s) = 0 \/ src0 <= str (r_obj s) < r_cur s)
  /\ type (r_obj s) = JSON_NONE.

(** The iterator [it] is exhausted or describes a tail of the buffer. *)
Definition iter_within (src0 len0 : Z) (it : json_iter) : Prop :=
  (src it = 0 /\ ilen it = 0)
  \/ (src0 <= src it /\ 0 <= ilen it /\ src it + ilen it = src0 + len0).

(** The bytes of the token [tok] lie inside the buffer. *)
Definition token_within (src0 len0 : Z) (tok : json_token) : Prop :=
  src0 <= str tok /\ 0 <= len tok /\ str tok + len tok <= src0 + len0.

(** The token [tok] ends at or before the position of the iterator
    [it], which has moved on from the start of the buffer (or is
    exhausted). *)
Definition token_before (src0 : Z) (it : json_iter) (tok : json_token)
    : Prop :=
  src it = 0 \/ (str tok + len tok <= src it /\ src0 < src it).

Definition read_ok (src0 len0 : Z) (it : json_iter) (tok : json_token)
    : Prop :=
  iter_within src0 len0 it
  /\ (type tok <> JSON_NONE ->
      token_within src0 len0 tok /\ token_before src0 it tok).
(** ** What [json_load] writes *)

(** The outcome [(st, toks', read')] of a load that started with the
    array [toks], the capacity [max] and the counter [read]: the counter
    does not go back and ends at most one above [max], at most at [max]
    unless the status is [JSON_OUT_OF_TOKEN], and the slots outside
    [read .. read' - 1] are untouched. *)
Definition load_frame (toks : gmap Z json_token) (max read : Z)
    (r : load_result) : Prop :=
  let '(st, toks', read') := r in
  read <= read' /\ read' <= max + 1
  /\ (st <> JSON_OUT_OF_TOKEN -> read' <= max)
  /\ (forall k : Z, k < read \/ read' <= k -> toks' !! k = toks !! k).

(** The iterator [it] is at its end or describes bytes between [lo] and
    [hi]; a finished token [tok] lies between [lo] and [hi]. *)
Definition iter_between (lo hi : Z) (it : json_iter) : Prop :=
  ilen it = 0 \/ (lo <= src it /\ 0 < ilen it /\ src it + ilen it <= hi).

Definition token_between (lo hi : Z) (tok : json_token) : Prop :=
  type tok <> JSON_NONE ->
  lo <= str tok /\ 0 <= len tok /\ str tok + len tok <= hi.

(** The finished tokens in the slots [read .. read' - 1] of the outcome
    lie between [lo] and [hi]. *)
Definition stored_between (lo hi read : Z) (r : load_result) : Prop :=
  let '(_, toks', read') := r in
  forall k : Z, read <= k < read' -> token_between lo hi (tok_at toks' k).

Definition load_ok (lo hi : Z) (toks : gmap Z json_token) (max read : Z)
    (r : load_result) : Prop :=
  load_frame toks max read r /\ stored_between lo hi read r.
(** A buffer on which the tokenizer stops making progress. *)
Definition doc_loop : string := "[['][1".
(** ** The walk of [json_query] *)

(** The index of [json_query] stays inside the token array, one past
    its end included. *)
Definition query_inv (count : Z) (s : query_state) : Prop :=
  0 <= q_i s <= count.

(** The number of loop rounds [json_query] has left at most: every
    round but the first moves [i] forward. *)
Definition query_left (count : Z) (s : query_state) : nat :=
  (Z.to_nat (count - q_i s) + if q_begin s then 1 else 0)%nat.
(** ** The bytes a read depends on *)

(** Two memories hold the same bytes at the addresses [lo .. hi - 1]. *)
Definition agree_on (m1 m2 : memory) (lo hi : Z) : Prop :=
  forall p : Z, lo <= p < hi -> peek m1 p = peek m2 p.
(** ** The value of a number *)

(** The value of a string of decimal digits. *)
Definition decimal (ds : list Z) : Z :=
  fold_left (fun n c => 10 * n + (c - ch "0")) ds 0.

(** The value [n] under the sign bytes [sign]. *)
Definition signed (sign : list Z) (n : Z) : Z :=
  match sign with
  | c :: _ => if c =? ch "-" then - n else n
  | [] => n
  end.
(** ** The keys of the outermost object *)

(** [path] is one name of [k] bytes, followed by the terminator. *)
Definition plain_name (m : memory) (path : Z) (k : nat) : Prop :=
  0 < path /\ peek m path <> 0 /\ peek m path <> ch "["
  /\ Z.of_nat k < 2 ^ 31
  /\ segment_end m path JSON_DELIMITER k
  /\ peek m (path + Z.of_nat k) = 0.

(** From the key at index [i], the index of the next key: past the
    value, and past the tokens nested in it when it is a container. *)
Definition next_key (toks : gmap Z json_token) (i : Z) : Z :=
  let v := tok_at toks (i + 1) in
  if is_container (type v) then i + (sub v + 2) else i + 2.

(** The index of the key of the pair number [a] of the outermost
    object, whose first key is [toks[0]]. *)
Fixpoint key_at (toks : gmap Z json_token) (a : nat) : Z :=
  match a with
  | O => 0
  | S a => next_key toks (key_at toks a)
  end.

(** The first [n] pairs lie in the array: each key is followed by its
    value before [count], no key is a container, and the [sub] of a
    value is a count of tokens. *)
Definition pairs (toks : gmap Z json_token) (count : Z) (n : nat) : Prop :=
  forall a : nat,
    (a < n)%nat ->
    is_container (type (tok_at toks (key_at toks a))) = false
    /\ key_at toks a + 1 < count
    /\ 0 <= sub (tok_at toks (key_at toks a + 1)) < 2 ^ 30.

(** The state of [json_query] at the key of pair [a], when the path
    began with the name [(path, k)] and [rest] is what follows it. *)
Definition at_pair (toks : gmap Z json_token) (path : Z) (k : nat)
    (array : json_token) (count rest : Z) (a : nat) : query_state :=
  QueryState (key_at toks a) false
    (set_len (Z.of_nat k) (set_str path JSON_TOKEN_NULL)) array
    (Z.of_nat a) count rest.
(** ** The elements of an array *)

(** From the element at index [i], the index of the next element: past
    the tokens nested in it when it is a container. *)
Definition next_elem (toks : gmap Z json_token) (i : Z) : Z :=
  let t := tok_at toks i in
  if is_container (type t) then i + sub t + 1 else i + 1.

(** The index of element number [a] of the array whose first element
    is at index [i0]. *)
Fixpoint elem_at (toks : gmap Z json_token) (i0 : Z) (a : nat) : Z :=
  match a with
  | O => i0
  | S a => next_elem toks (elem_at toks i0 a)
  end.

(** Stepping over the first [q] elements stays inside the array; the
    [sub] of an element is a count of tokens. *)
Definition elems (toks : gmap Z json_token) (count i0 : Z) (q : nat) : Prop :=
  forall a : nat,
    (a < q)%nat ->
    0 <= sub (tok_at toks (elem_at toks i0 a)) < 2 ^ 30
    /\ elem_at toks i0 (S a) <= count.

(** [path] is a name of [k] bytes followed by an index: an opening
    bracket, the digits [ds], a closing bracket at offset [e] from the
    opening one, and the terminator. *)
Definition indexed_name (m : memory) (path : Z) (k e : nat) (ds : list Z)
    : Prop :=
  0 < path /\ peek m path <> 0 /\ peek m path <> ch "["
  /\ Z.of_nat k < 2 ^ 31
  /\ segment_end m path JSON_DELIMITER k
  /\ peek m (path + Z.of_nat k) = ch "["
  /\ first_stop m (path + Z.of_nat k) (ch "]") e
  /\ peek m (path + Z.of_nat k + Z.of_nat e) = ch "]"
  /\ Z.of_nat e + 1 < 2 ^ 31
  /\ peek m (path + Z.of_nat k + Z.of_nat e + 1) = 0
  /\ mem_bytes m (path + Z.of_nat k + 1) (e - 1) = ds
  /\ Forall (fun c => is_digit c = true) ds
  /\ (1 <= List.length ds <= 9)%nat.
(** An object with an array value, and its tokens. *)
Definition doc_arr : string := "{'a':[10,20,30]}".
Definition toks_arr : gmap Z json_token :=
  store ∅ 0 [Token JSON_STRING 1002 1 0 0; Token JSON_ARRAY 1005 10 3 3;
             Token JSON_NUMBER 1006 2 0 0; Token JSON_NUMBER 1009 2 0 0;
             Token JSON_NUMBER 1012 2 0 0].
(** ** Plain tokens *)

(** The [g] bytes from [p] on are skipped before a token, starting at
    depth [d]: blanks, commas and the separators [:] and [=], and the
    opening bracket of the outermost container, which raises the depth
    from 0 to 1.  The result is the depth after them. *)
Fixpoint skip (m : memory) (p : Z) (g : nat) (d : Z) : option Z :=
  match g with
  | O => Some d
  | S g =>
      match json_go_struct (peek m p) with
      | JSON_STATE_LOOP | JSON_STATE_SEP => skip m (p + 1) g d
      | JSON_STATE_UP => if d =? 0 then skip m (p + 1) g 1 else None
      | _ => None
      end
  end.

(** The [n] bytes from [p] on are plain string content: printable
    ASCII other than the double quote and the backslash. *)
Definition plain_content (m : memory) (p : Z) (n : nat) : Prop :=
  forall i : nat,
    (i < n)%nat -> json_go_string (peek m (p + Z.of_nat i)) = JSON_STATE_LOOP.

(** The [n] bytes from [p] on continue a bare token. *)
Definition bare_content (m : memory) (p : Z) (n : nat) : Prop :=
  forall i : nat,
    (i < n)%nat -> json_go_bare (peek m (p + Z.of_nat i)) = JSON_STATE_LOOP.

(** An iterator between tokens: no error, outside of a string or bare
    token, at depth 0 or 1. *)
Definition between_tokens (it : json_iter) : Prop :=
  err it = false /\ (go it = GO_STRUCT \/ go it = GO_NULL)
  /\ (depth it = 0 \/ depth it = 1)
  /\ 0 < src it /\ 0 < ilen it < 2 ^ 31.

(** The type of a bare token, by its first byte. *)
Definition bare_type (c : Z) : json_token_type :=
  if c =? ch "t" then JSON_TRUE
  else if c =? ch "f" then JSON_FALSE
  else if c =? ch "n" then JSON_NULL
  else JSON_NUMBER.
(** * Properties *)

(** ** Tactics *)

(** Replace the character constants by their codes. *)
Ltac chvals :=
  repeat match goal with
         | |- context [ch ?s] =>
             let v := eval vm_compute in (ch s) in change (ch s) with v
         | H : context [ch ?s] |- _ =>
             let v := eval vm_compute in (ch s) in change (ch s) with v in H
         end;
  unfold DQUOTE, BACKSLASH, LF, CR, TAB in *.

(** ** Machine integers *)

Lemma int32_id (z : Z) : - 2 ^ 31 <= z < 2 ^ 31 -> int32 z = z.
Proof.
  intros H. unfold int32.
  rewrite Z.mod_small by lia. lia.
Qed.

Lemma uint32_id (z : Z) : 0 <= z < 2 ^ 32 -> uint32 z = z.
Proof. intros H. unfold uint32. now rewrite Z.mod_small. Qed.

(** ** Invalid iterators *)

(** C9: [json_read] called with a null iterator pointer, or with an
    iterator whose [src] is null, whose [len] is 0 or whose [err] flag is
    set, leaves the null token in the output slot and returns the null
    iterator with [err = 1]; the result does not depend on the content of
    memory, so no input byte is examined. *)
Theorem json_read_invalid_iterator (m : memory) (prev : option json_iter) :
  (prev = None \/
   exists p, prev = Some p /\ (src p = 0 \/ ilen p = 0 \/ err p = true)) ->
  json_read m prev = Some (Iter 0 true 0 GO_NULL 0, Token JSON_NONE 0 0 0 0)
  /\ forall m', json_read m' prev = json_read m prev.
Proof.
  intros [-> | (p & -> & Hp)].
  - split; reflexivity.
  - assert (Hguard : (src p =? 0) || (ilen p =? 0) || err p = true).
    { destruct Hp as [H | [H | H]]; rewrite H; simpl;
        rewrite ?orb_true_r; reflexivity. }
    split; [| intros m']; unfold json_read; rewrite Hguard; reflexivity.
Qed.

Lemma json_read_invalid_iterator_witness :
  json_read (doc "[1]") (Some (Iter 3 true 1 GO_STRUCT 1000))
  = Some (Iter 0 true 0 GO_NULL 0, Token JSON_NONE 0 0 0 0)
  /\ forall m', json_read m' (Some (Iter 3 true 1 GO_STRUCT 1000))
                = json_read (doc "[1]") (Some (Iter 3 true 1 GO_STRUCT 1000)).
Proof.
  apply json_read_invalid_iterator.
  right. exists (Iter 3 true 1 GO_STRUCT 1000).
  split; [reflexivity | right; right; reflexivity].
Defined.

(** ** Typed queries with a null path *)

(** C10: on an array with [count > 0], the typed helpers
    [json_query_number], [json_query_string] and [json_query_type] return
    the [None] kind for a null path (and store nothing), although
    [json_query] itself returns the root token [&toks[0]] for it. *)
Theorem typed_queries_reject_null_path (fuel : nat) (m : memory)
    (toks : gmap Z json_token) (count : Z) (buffer : gmap Z Z) (max : Z) :
  0 < count ->
  json_query_number fuel m toks count 0 = Some (JSON_NONE, None)
  /\ json_query_string fuel m buffer max toks count 0
     = Some (JSON_NONE, buffer, None)
  /\ json_query_type fuel m toks count 0 = Some JSON_NONE
  /\ json_query fuel m toks count 0 = Some (Some 0).
Proof.
  intros Hc.
  unfold json_query_number, json_query_string, json_query_type, json_query.
  replace (count =? 0) with false by (symmetry; apply Z.eqb_neq; lia).
  repeat split; reflexivity.
Qed.

Lemma typed_queries_reject_null_path_witness :
  json_query_number 0 (doc "[1]") (tok_array [Token JSON_NUMBER 1001 1 0 0]) 1 0
  = Some (JSON_NONE, None)
  /\ json_query_string 0 (doc "[1]") ∅ 8 (tok_array [Token JSON_NUMBER 1001 1 0 0]) 1 0
     = Some (JSON_NONE, ∅, None)
  /\ json_query_type 0 (doc "[1]") (tok_array [Token JSON_NUMBER 1001 1 0 0]) 1 0
     = Some JSON_NONE
  /\ json_query 0 (doc "[1]") (tok_array [Token JSON_NUMBER 1001 1 0 0]) 1 0
     = Some (Some 0).
Proof. apply typed_queries_reject_null_path. lia. Defined.

(** ** Loading concrete documents *)

(** The first claim read literally on [doc_ab] fails: the count is 4, not
    5, and no [Object] token is stored. *)
Lemma outer_object_not_materialized :
  ~ (json_num 8 (doc doc_ab) 1000 16 = Some 5
     /\ json_load 8 (doc doc_ab) ∅ 5 0 1000 16
        = Some (JSON_OK,
                tok_array [Token JSON_OBJECT 1000 15 2 4;
                           Token JSON_STRING 1002 1 0 0;
                           Token JSON_NUMBER 1005 1 0 0;
                           Token JSON_STRING 1008 1 0 0;
                           Token JSON_STRING 1012 2 0 0], 5)).
Proof. intros [H _]. vm_compute in H. discriminate H. Qed.

(** C1 (amended): the outermost container of a document is not stored;
    its members are the tokens of the flat array, in pre-order.  For
    [{"a":1,"b":"hi"}], [json_num] is 4 and a load fills the array with
    exactly [String "a", Number "1", String "b", String "hi"].  A
    container nested in the document is stored, followed by its contents
    in pre-order: the same object as the value of a key loads as
    [String "o", Object len=16 children=2 sub=4, String "a", Number "1",
     String "b", String "hi"]. *)
Theorem load_object_document (k : nat) :
  json_num (5 + k) (doc doc_ab) 1000 16 = Some 4
  /\ json_load (6 + k) (doc doc_ab) ∅ 5 0 1000 16
     = Some (JSON_OK,
             tok_array [Token JSON_STRING 1002 1 0 0;
                        Token JSON_NUMBER 1005 1 0 0;
                        Token JSON_STRING 1008 1 0 0;
                        Token JSON_STRING 1012 2 0 0], 4)
  /\ json_num (3 + k) (doc doc_nested) 1000 22 = Some 6
  /\ json_load (9 + k) (doc doc_nested) ∅ 7 0 1000 22
     = Some (JSON_OK,
             tok_array [Token JSON_STRING 1002 1 0 0;
                        Token JSON_OBJECT 1005 16 2 4;
                        Token JSON_STRING 1007 1 0 0;
                        Token JSON_NUMBER 1010 1 0 0;
                        Token JSON_STRING 1013 1 0 0;
                        Token JSON_STRING 1017 2 0 0], 6).
Proof. repeat (split; [vm_compute; reflexivity |]); vm_compute; reflexivity. Qed.

(** The boundary claim read literally fails: the count of [{}] is 0. *)
Lemma empty_document_has_no_token :
  ~ (json_num 8 (doc "{}") 1000 2 = Some 1
     /\ json_num 8 (doc "[]") 1000 2 = Some 1).
Proof. intros [H _]. vm_compute in H. discriminate H. Qed.

(** C7 (amended): for the two-byte documents [{}] and [[]], [json_num]
    returns 0 and [json_load] returns [Ok] without writing a token.  An
    empty container that is a member of a document loads as a single
    token of kind [Object] (respectively [Array]) with [children = 0] and
    [sub = 0]. *)
Theorem load_empty_containers (k : nat) :
  json_num (1 + k) (doc "{}") 1000 2 = Some 0
  /\ json_num (1 + k) (doc "[]") 1000 2 = Some 0
  /\ json_load (2 + k) (doc "{}") ∅ 4 0 1000 2 = Some (JSON_OK, ∅, 0)
  /\ json_load (2 + k) (doc "[]") ∅ 4 0 1000 2 = Some (JSON_OK, ∅, 0)
  /\ json_num (2 + k) (doc "[{}]") 1000 4 = Some 1
  /\ json_num (2 + k) (doc "[[]]") 1000 4 = Some 1
  /\ json_load (4 + k) (doc "[{}]") ∅ 4 0 1000 4
     = Some (JSON_OK, tok_array [Token JSON_OBJECT 1001 2 0 0], 1)
  /\ json_load (4 + k) (doc "[[]]") ∅ 4 0 1000 4
     = Some (JSON_OK, tok_array [Token JSON_ARRAY 1001 2 0 0], 1).
Proof. repeat (split; [vm_compute; reflexivity |]); vm_compute; reflexivity. Qed.

(** ** Capacity *)

(** C6 (defect): with [max = 1] the document [[1,2]] needs two tokens.
    [json_load] returns [OutOfToken], but only after it has stored the
    second token at index 1, which is [max]: the capacity test
    [*read > max] follows the store [toks[*read] = tok]. *)
Theorem load_writes_at_max :
  json_load 4 (doc "[1,2]") ∅ 1 0 1000 5
  = Some (JSON_OUT_OF_TOKEN,
          tok_array [Token JSON_NUMBER 1001 1 0 0;
                     Token JSON_NUMBER 1003 1 0 0], 2)
  /\ tok_array [Token JSON_NUMBER 1001 1 0 0; Token JSON_NUMBER 1003 1 0 0] !! 1
     = Some (Token JSON_NUMBER 1003 1 0 0).
Proof. split; vm_compute; reflexivity. Qed.

(** ** Queries past the end of the array *)

(** C4 (defect): the document [["a"]] loads as the single token
    [String "a"].  The path [a] matches it as a key, no token follows,
    and [json_query] returns [&toks[1]], one past the end of the array,
    instead of null: this test is [(i + 1) > count] where the sibling
    test of the same loop is [(i + 1) >= count]. *)
Theorem query_returns_past_the_end :
  json_load 4 (doc_path "['a']" "a") ∅ 4 0 1000 5
  = Some (JSON_OK, tok_array [Token JSON_STRING 1002 1 0 0], 1)
  /\ json_query 4 (doc_path "['a']" "a")
       (tok_array [Token JSON_STRING 1002 1 0 0]) 1 (path_ptr "['a']")
     = Some (Some 1).
Proof. split; vm_compute; reflexivity. Qed.

(** ** Bounded copy *)

Lemma copy_bytes_lookup (f : Z -> Z) (n : nat) (d : gmap Z Z) (i : Z) :
  fold_left (fun d i => <[i := f i]> d) (map Z.of_nat (seq 0 n)) d !! i
  = if decide (0 <= i < Z.of_nat n) then Some (f i) else d !! i.
Proof.
  induction n as [| n IH].
  - simpl. destruct (decide _); [lia | reflexivity].
  - rewrite seq_S, map_app, fold_left_app. simpl.
    destruct (decide (i = Z.of_nat n)) as [-> | Hne].
    + clear IH. rewrite lookup_insert_eq.
      destruct (decide (0 <= Z.of_nat n < Z.of_nat (S n))); [reflexivity | lia].
    + rewrite lookup_insert_ne by congruence. rewrite IH.
      destruct (decide (0 <= i < Z.of_nat n)),
               (decide (0 <= i < Z.of_nat (S n))); try reflexivity; lia.
Qed.

(** The claim on the return value read literally fails: a 5-byte token
    copied with [max = 3] stores 2 bytes and the terminator, and the
    call returns 3. *)
Lemma json_cpy_truncated_return :
  ~ (fst (json_cpy (doc "hello") ∅ 3 (Token JSON_STRING 1000 5 0 0)) = 2)
  /\ snd (json_cpy (doc "hello") ∅ 3 (Token JSON_STRING 1000 5 0 0))
     = {[ 0 := 104; 1 := 101; 2 := 0 ]}.
Proof. split; [intros H; vm_compute in H; discriminate H | vm_compute; reflexivity]. Qed.

(** C8 (amended): for a token of length [len >= 0] and [max > 0],
    [json_cpy] copies the first [min(len, max-1)] bytes of the token to
    the start of the destination, writes a NUL after them and leaves the
    rest of the destination alone.  It returns [len] when the token fits
    ([len < max]) and [max], one more than the number of bytes copied,
    when the copy is truncated. *)
Theorem json_cpy_bounded (m : memory) (dst : gmap Z Z) (max : Z)
    (tok : json_token) :
  0 < max < 2 ^ 31 ->
  0 <= len tok < 2 ^ 31 - 1 ->
  let n := Z.min (len tok) (max - 1) in
  let r := json_cpy m dst max tok in
  n <= max - 1
  /\ (forall i, 0 <= i < n -> snd r !! i = Some (peek m (str tok + i)))
  /\ snd r !! n = Some 0
  /\ (forall i, i < 0 \/ n < i -> snd r !! i = dst !! i)
  /\ fst r = (if len tok <? max then len tok else max).
Proof.
  intros Hmax Hlen n r. subst r. unfold json_cpy.
  replace (max =? 0) with false by (symmetry; apply Z.eqb_neq; lia).
  rewrite (int32_id (len tok + 1)) by lia.
  rewrite (int32_id (max - 1)) by lia.
  assert (Hsiz : (if max <? len tok + 1 then max - 1 else len tok) = n).
  { subst n. destruct (Z.ltb_spec max (len tok + 1)); lia. }
  rewrite Hsiz. cbn [fst snd].
  split; [lia |]. split; [| split; [| split]].
  - intros i Hi. rewrite lookup_insert_ne by lia.
    rewrite (copy_bytes_lookup (fun i => peek m (str tok + i))).
    destruct (decide _); [reflexivity | lia].
  - apply lookup_insert_eq.
  - intros i Hi. rewrite lookup_insert_ne by lia.
    rewrite (copy_bytes_lookup (fun i => peek m (str tok + i))).
    destruct (decide _); [lia | reflexivity].
  - destruct (Z.ltb_spec max (len tok + 1)), (Z.ltb_spec (len tok) max);
      try reflexivity; lia.
Qed.

Lemma json_cpy_bounded_witness :
  let n := Z.min 5 (3 - 1) in
  let r := json_cpy (doc "hello") ∅ 3 (Token JSON_STRING 1000 5 0 0) in
  n <= 3 - 1
  /\ (forall i, 0 <= i < n -> snd r !! i = Some (peek (doc "hello") (1000 + i)))
  /\ snd r !! n = Some 0
  /\ (forall i, i < 0 \/ n < i -> snd r !! i = (∅ : gmap Z Z) !! i)
  /\ fst r = (if 5 <? 3 then 5 else 3).
Proof.
  apply (json_cpy_bounded (doc "hello") ∅ 3 (Token JSON_STRING 1000 5 0 0));
    simpl; lia.
Defined.

(** ** Numeric conversion *)

Lemma mem_bytes_S (m : memory) (p : Z) (n : nat) :
  mem_bytes m p (S n) = peek m p :: mem_bytes m (p + 1) n.
Proof.
  unfold mem_bytes. simpl. f_equal; [f_equal; lia |].
  rewrite <- seq_shift, map_map.
  apply map_ext. intros i. f_equal. lia.
Qed.






Section Scan.
Variables (l3 : list Z).


End Scan.



Lemma digit_loops (c : Z) :
  is_digit c = true -> json_go_num c = JSON_STATE_NUM_LOOP.
Proof.
  unfold is_digit, json_go_num, in_range. chvals.
  intros H. apply andb_true_iff in H. destruct H as [H1 H2].
  apply Z.leb_le in H1, H2.
  repeat match goal with
         | |- context [?a =? ?b] => destruct (Z.eqb_spec a b); [lia |]
         end.
  simpl. destruct (Z.leb_spec 48 c), (Z.leb_spec c 57); simpl; try lia.
  reflexivity.
Qed.






(** ** The loop of [json_read] as a relation *)

Lemma unbare_only_in_bare (g : table) (c : Z) :
  lookup_table g c = JSON_STATE_UNBARE -> g = GO_BARE.
Proof.
  destruct g; simpl; try reflexivity;
    unfold json_go_struct, json_go_string, json_go_utf8, json_go_esc;
    repeat match goal with
           | |- context [if ?b then _ else _] => destruct b
           end; discriminate.
Qed.

(** A bound on the number of iterations left. *)
Definition steps_left (s : read_state) : nat :=
  (2 * Z.to_nat (r_len s)
   + match go (r_iter s) with GO_BARE => 1 | _ => 0 end)%nat.

Lemma read_end_returns (m : memory) (s : read_state) :
  exists it obj, read_end m s = Return it obj.
Proof.
  unfold read_end.
  repeat match goal with
         | |- context [if ?b then _ else _] => destruct b
         end; eauto.
Qed.

Lemma read_body_continue (m : memory) (s s' : read_state) :
  0 < r_len s -> read_body m s = Continue s' ->
  0 <= r_len s' /\ (steps_left s' < steps_left s)%nat.
Proof.
  intros Hlen Hbody. unfold read_body in Hbody.
  destruct (peek m (r_cur s) =? 0).
  { destruct (read_end_returns m (ReadState (r_iter s) (r_obj s) (r_cur s)
                                   (r_len s) (r_utf8 s) (peek m (r_cur s))))
      as (it & obj & He).
    rewrite He in Hbody. discriminate. }
  destruct (_ && _); [discriminate |].
  destruct (lookup_table (go (r_iter s)) (peek m (r_cur s))) eqn:Ht;
    try discriminate;
    try (apply unbare_only_in_bare in Ht);
    repeat match type of Hbody with
           | context [if ?b then _ else _] => destruct b
           end;
    try discriminate;
    injection Hbody as <-; unfold steps_left, read_yield in *; simpl;
    try rewrite Ht; split; try lia;
    destruct (go (r_iter s)); lia.
Qed.

Lemma read_loop_runs (m : memory) (fuel : nat) :
  forall s r, read_loop fuel m s = Some r -> runs m s r.
Proof.
  induction fuel as [| fuel IH]; intros s r H; [discriminate |].
  simpl in H. destruct (Z.eqb_spec (r_len s) 0) as [H0 | H0].
  - destruct (read_end m s) eqn:He; [discriminate |].
    injection H as <-. now apply runs_end.
  - destruct (read_body m s) eqn:Hb.
    + eapply runs_step; eauto.
    + injection H as <-. now apply runs_return.
Qed.

Lemma runs_read_loop (m : memory) (s : read_state) (r : json_iter * json_token) :
  runs m s r ->
  forall fuel, 0 <= r_len s -> (steps_left s < fuel)%nat ->
               read_loop fuel m s = Some r.
Proof.
  induction 1 as [s it obj H0 He | s it obj H0 Hb | s s' r H0 Hb _ IH];
    intros fuel Hlen Hfuel; (destruct fuel as [| fuel]; [lia |]); simpl.
  - rewrite H0. simpl. rewrite He. reflexivity.
  - destruct (Z.eqb_spec (r_len s) 0); [contradiction |].
    rewrite Hb. reflexivity.
  - destruct (Z.eqb_spec (r_len s) 0); [contradiction |].
    rewrite Hb.
    destruct (read_body_continue m s s') as [Hl Hs]; [lia | assumption |].
    apply IH; [assumption | lia].
Qed.

Lemma runs_deterministic (m : memory) (s : read_state) r1 r2 :
  runs m s r1 -> runs m s r2 -> r1 = r2.
Proof.
  induction 1 as [s it obj H0 He | s it obj H0 Hb | s s' r H0 Hb _ IH];
    inversion 1; subst; try congruence.
  apply IH. congruence.
Qed.

(** The loop of [json_read] terminates within its fuel. *)
Lemma read_loop_total (m : memory) (fuel : nat) :
  forall s, 0 <= r_len s -> (steps_left s < fuel)%nat ->
            exists r, read_loop fuel m s = Some r.
Proof.
  induction fuel as [| fuel IH]; intros s Hlen Hfuel; [lia |].
  simpl. destruct (Z.eqb_spec (r_len s) 0) as [H0 | H0].
  - destruct (read_end_returns m s) as (it & obj & ->). eauto.
  - destruct (read_body m s) eqn:Hb; [| eauto].
    destruct (read_body_continue m s s0) as [Hl Hs]; [lia | assumption |].
    apply IH; [assumption | lia].
Qed.

Lemma steps_left_init (it : json_iter) :
  0 <= ilen it ->
  (steps_left (read_init (read_start it)) < read_fuel (ilen (read_start it)))%nat.
Proof.
  intros H. unfold steps_left, read_fuel, read_init, read_start.
  destruct it as [l e d g sr]; destruct g; simpl in *; lia.
Qed.

(** [json_read] is total on iterators of non-negative length. *)
Lemma json_read_total (m : memory) (prev : option json_iter) :
  (forall p, prev = Some p -> 0 <= ilen p) ->
  exists r, json_read m prev = Some r.
Proof.
  intros H. destruct prev as [p |]; [| simpl; eauto].
  unfold json_read. destruct (_ || _); [eauto |].
  apply read_loop_total; [| apply steps_left_init; auto].
  unfold read_init, read_start. destruct p as [l e d g sr], g; simpl;
    apply (H _ eq_refl).
Qed.

(** A read that enters the loop returns what the loop run returns. *)
Lemma json_read_runs (m : memory) (p : json_iter) (r : json_iter * json_token) :
  src p <> 0 -> 0 < ilen p -> err p = false ->
  (json_read m (Some p) = Some r <-> runs m (read_init (read_start p)) r).
Proof.
  intros Hs Hl He. unfold json_read.
  replace (src p =? 0) with false by (symmetry; apply Z.eqb_neq; lia).
  replace (ilen p =? 0) with false by (symmetry; apply Z.eqb_neq; lia).
  rewrite He. cbn [orb]. split.
  - apply read_loop_runs.
  - intros H. apply runs_read_loop; [assumption | |].
    + unfold read_init, read_start.
      destruct p as [l e d g sr], g; simpl in *; lia.
    + apply steps_left_init. lia.
Qed.

(** ** A container in flight *)

Ltac zcase :=
  match goal with
  | |- context [Z.eqb ?a ?b] => destruct (Z.eqb_spec a b)
  | |- context [Z.ltb ?a ?b] => destruct (Z.ltb_spec a b)
  | |- context [Z.leb ?a ?b] => destruct (Z.leb_spec a b)
  | H : context [Z.eqb ?a ?b] |- _ => destruct (Z.eqb_spec a b)
  | H : context [Z.ltb ?a ?b] |- _ => destruct (Z.ltb_spec a b)
  | H : context [Z.leb ?a ?b] |- _ => destruct (Z.leb_spec a b)
  end.

Lemma up_bytes (c : Z) :
  json_go_struct c = JSON_STATE_UP <-> c = ch "{" \/ c = ch "[".
Proof.
  unfold json_go_struct, in_range. chvals.
  split.
  - repeat zcase; simpl; try discriminate; auto.
  - intros [-> | ->]; reflexivity.
Qed.

Lemma up_is_container (m : memory) (tok : json_token) :
  json_go_struct (peek m (str tok)) = JSON_STATE_UP ->
  str tok <> 0 -> len tok <> 0 ->
  is_container (json_type m tok) = true
  /\ finish_token m tok
     = Token (json_type m tok) (str tok) (len tok) (children tok) (sub tok).
Proof.
  intros Hup Hs Hl. apply up_bytes in Hup.
  unfold finish_token, json_type.
  destruct (Z.eqb_spec (str tok) 0); [contradiction |].
  destruct (Z.eqb_spec (len tok) 0); [contradiction |]. cbn [orb].
  destruct Hup as [-> | ->]; split; reflexivity.
Qed.

Ltac wraps :=
  repeat first
    [ rewrite int32_id in * by lia
    | rewrite uint32_id in * by lia ].

Lemma outer_body (m : memory) (s : Z) (o : read_state) :
  outer_inv m s o -> 0 < r_len o ->
  match read_body m o with
  | Continue o' =>
      outer_inv m s o'
      /\ r_cur o' + r_len o' = r_cur o + r_len o
      /\ r_len o' <= r_len o
      /\ sub (r_obj o) <= sub (r_obj o')
  | Return it tok =>
      is_container (type tok) = true ->
      depth (r_iter o) = 2
      /\ lookup_table (go (r_iter o)) (peek m (r_cur o)) = JSON_STATE_DOWN
      /\ it = set_src (r_cur o + 1) (r_len o - 1) (set_depth 1 (r_iter o))
      /\ str tok = s /\ len tok = r_cur o - s + 1 /\ sub tok = sub (r_obj o)
  end.
Proof.
  destruct o as [[il er d g sr] [ty st ln chn su] cur len ut c].
  intros [Hd Hst Hty Hs Hl Hb Hsu Hup] Hlen. simpl in *. subst st ty.
  unfold read_body. cbn -[peek int32 uint32 lookup_table finish_token].
  destruct (Z.eqb_spec (peek m cur) 0) as [Hc0 | Hc0].
  { unfold read_end. cbn -[peek int32 uint32 lookup_table finish_token].
    destruct (Z.eqb_spec d 0); [lia |]. discriminate. }
  destruct (Z.eqb_spec d 1); [lia |]. cbn [andb].
  destruct (lookup_table g (peek m cur)) eqn:Ht.
  all: cbn -[peek int32 uint32 lookup_table finish_token].
  all: try discriminate.
  all: unfold count_nested, set_children, set_sub, set_depth, set_go, set_str,
         set_len, set_src, read_yield;
       cbn -[peek int32 uint32 lookup_table finish_token].
  all: try (rewrite (uint32_id (d - 1)) by lia).
  all: try (rewrite (uint32_id (d + 1)) by lia).
  all: repeat zcase; try lia.
  all: cbn -[peek int32 uint32 lookup_table finish_token].
  all: try (rewrite (int32_id (su + 1)) by lia).
  all: try (rewrite (int32_id (cur - s)) by lia).
  all: try (rewrite (int32_id (cur - s + 1)) by lia).
  all: try (split; [constructor; cbn; try assumption; try reflexivity; try lia
                   | cbn; lia]).
  intros Hcont.
  match goal with
  | |- context [finish_token m ?t] =>
      destruct (up_is_container m t) as [_ Hfin];
        [assumption | cbn; lia | cbn; lia |]; rewrite Hfin in *
  end.
  cbn. repeat split; try lia; try reflexivity.
  unfold set_src. cbn. f_equal; lia.
Qed.

Lemma outer_end (m : memory) (s : Z) (o : read_state) it tok :
  outer_inv m s o -> read_end m o = Return it tok ->
  is_container (type tok) = false.
Proof.
  destruct o as [[il er d g sr] [ty st ln chn su] cur len ut c].
  intros [Hd Hst Hty Hs Hl Hb Hsu Hup]. simpl in *. subst.
  unfold read_end. cbn -[finish_token].
  destruct (Z.eqb_spec d 0); [lia |].
  intros H. injection H as <- <-. reflexivity.
Qed.

(** A read that has a container in flight and returns a container
    token returns that container, whose last byte is the one before
    the returned position. *)
Lemma outer_yield (m : memory) (s : Z) (o : read_state) r :
  runs m o r -> outer_inv m s o -> is_container (type (snd r)) = true ->
  0 <= ilen (fst r) < r_len o
  /\ src (fst r) = r_cur o + r_len o - ilen (fst r)
  /\ str (snd r) = s
  /\ len (snd r) = src (fst r) - s
  /\ sub (r_obj o) <= sub (snd r).
Proof.
  induction 1 as [o it obj H0 He | o it obj H0 Hb | o o' r H0 Hb _ IH];
    intros Hinv Hc; cbn [fst snd] in *.
  - rewrite (outer_end m s o it obj Hinv He) in Hc. discriminate.
  - pose proof (outer_body m s o Hinv) as Hbody.
    rewrite Hb in Hbody.
    destruct Hbody as (Hd & Ht & -> & Hs & Hl & Hsub);
      [destruct Hinv; lia | exact Hc |].
    cbn in *. destruct Hinv. repeat split; try lia.
  - pose proof (outer_body m s o Hinv) as Hbody.
    rewrite Hb in Hbody.
    destruct Hbody as (Hinv' & Hpos & Hle & Hsub); [destruct Hinv; lia |].
    destruct (IH Hinv' Hc) as (H1 & H2 & H3 & H4 & H5).
    repeat split; try lia.
Qed.

(** ** The jump tables and the token kinds *)

Lemma lookup_table_go (g : table) (c : Z) :
  match lookup_table g c with
  | JSON_STATE_SEP | JSON_STATE_UP | JSON_STATE_DOWN | JSON_STATE_QUP
  | JSON_STATE_BARE => g = GO_STRUCT \/ g = GO_NULL
  | JSON_STATE_UNBARE => g = GO_BARE
  | JSON_STATE_QDOWN | JSON_STATE_ESC | JSON_STATE_UTF8_2
  | JSON_STATE_UTF8_3 | JSON_STATE_UTF8_4 => g = GO_STRING
  | JSON_STATE_UNESC => g = GO_ESC
  | JSON_STATE_UTF8_NEXT => g = GO_UTF8
  | JSON_STATE_LOOP =>
      g = GO_STRUCT \/ g = GO_NULL \/ g = GO_BARE \/ g = GO_STRING
  | JSON_STATE_FAILED => True
  end.
Proof.
  destruct g; simpl;
    unfold json_go_struct, json_go_bare, json_go_string, json_go_utf8,
      json_go_esc;
    repeat match goal with
           | |- context [if ?b then _ else _] => destruct b
           end; auto.
Qed.

Ltac byte_cases c :=
  repeat match goal with
         | |- context [Z.eqb c ?b] =>
             destruct (Z.eqb_spec c b) as [-> | ?];
             [cbn; try discriminate; auto; try lia |]
         end.

Lemma down_bytes (c : Z) :
  json_go_struct c = JSON_STATE_DOWN <-> c = ch "}" \/ c = ch "]".
Proof.
  unfold json_go_struct, in_range. chvals.
  split.
  - byte_cases c. cbn. destruct (_ && _); discriminate.
  - intros [-> | ->]; reflexivity.
Qed.

Lemma bare_bytes (c : Z) :
  json_go_struct c = JSON_STATE_BARE ->
  c <> ch "{" /\ c <> ch "[" /\ c <> DQUOTE.
Proof.
  unfold json_go_struct, in_range. chvals.
  byte_cases c. cbn. intros _. lia.
Qed.

Lemma finish_string (m : memory) (ty : json_token_type) (q ln chn su : Z) :
  peek m q = DQUOTE -> q <> 0 -> 2 <= ln ->
  finish_token m (Token ty q ln chn su)
  = Token JSON_STRING (q + 1) (int32 (ln - 2)) chn su.
Proof.
  intros Hq Hq0 Hln. unfold finish_token, json_type, json_deq. cbn [str len].
  destruct (Z.eqb_spec q 0); [contradiction |].
  destruct (Z.eqb_spec ln 0); [lia |]. cbn [orb].
  rewrite Hq. cbn -[int32 peek].
  destruct (Z.leb_spec 2 ln); [reflexivity | lia].
Qed.

Lemma json_type_bare (m : memory) (ty : json_token_type) (q ln chn su : Z) :
  json_go_struct (peek m q) = JSON_STATE_BARE -> q <> 0 -> ln <> 0 ->
  is_container (json_type m (Token ty q ln chn su)) = false
  /\ type_eqb (json_type m (Token ty q ln chn su)) JSON_STRING = false.
Proof.
  intros Hq Hq0 Hln. apply bare_bytes in Hq. destruct Hq as (H1 & H2 & H3).
  unfold json_type. cbn [str len].
  destruct (Z.eqb_spec q 0); [contradiction |].
  destruct (Z.eqb_spec ln 0); [contradiction |]. cbn [orb].
  destruct (Z.eqb_spec (peek m q) (ch "{")); [contradiction |].
  destruct (Z.eqb_spec (peek m q) (ch "[")); [contradiction |].
  destruct (Z.eqb_spec (peek m q) DQUOTE); [contradiction |].
  repeat match goal with
         | |- context [if ?b then _ else _] => destruct b
         end; split; reflexivity.
Qed.

Lemma finish_bare (m : memory) (ty : json_token_type) (q ln chn su : Z) :
  json_go_struct (peek m q) = JSON_STATE_BARE -> q <> 0 -> ln <> 0 ->
  exists ty',
    finish_token m (Token ty q ln chn su) = Token ty' q ln chn su
    /\ is_container ty' = false.
Proof.
  intros Hq Hq0 Hln.
  destruct (json_type_bare m ty q ln chn su Hq Hq0 Hln) as [H1 H2].
  unfold finish_token. rewrite H2. cbn [str len children sub].
  eexists. split; [reflexivity | exact H1].
Qed.

(** ** One step inside a container, seen from two levels *)

Lemma inner_b_check (m : memory) (s : Z) (g : table) (d st su cur c len : Z) :
  0 < s ->
  (if d =? 1
   then
     match g with
     | GO_NULL => False
     | GO_STRUCT => st = 0 /\ su = 0
     | GO_BARE =>
         s < st < cur /\ su = 0
         /\ json_go_struct (peek m st) = JSON_STATE_BARE
     | _ => s < st < cur /\ su = 0 /\ peek m st = DQUOTE
     end
   else
     g <> GO_NULL
     /\ s < st < cur
     /\ json_go_struct (peek m st) = JSON_STATE_UP
     /\ 0 <= su <= cur - st - 1 /\ d <= cur - st + 1) ->
  lookup_table g c <> JSON_STATE_DOWN ->
  (d =? 1) && ((c =? ch "}") || (c =? ch "]")) && (len =? 1) && (st =? 0)
  = false.
Proof.
  intros Hs Hfl Ht.
  destruct (Z.eqb_spec d 1); [| reflexivity].
  destruct (Z.eqb_spec st 0); [| apply andb_false_r].
  destruct g; try (exfalso; lia); try contradiction.
  cbn [lookup_table] in Ht.
  destruct (Z.eqb_spec c (ch "}")) as [-> | ?]; [exfalso; apply Ht; reflexivity |].
  destruct (Z.eqb_spec c (ch "]")) as [-> | ?]; [exfalso; apply Ht; reflexivity |].
  reflexivity.
Qed.

Lemma qup_bytes (c : Z) : json_go_struct c = JSON_STATE_QUP -> c = DQUOTE.
Proof.
  unfold json_go_struct, in_range. chvals.
  byte_cases c. cbn. destruct (_ && _); discriminate.
Qed.

Lemma sim_step (m : memory) (s n : Z) (o i o' : read_state) :
  outer_inv m s o -> inner_inv m s i -> sim o i n ->
  0 <= n -> 1 <= r_len i ->
  read_body m o = Continue o' ->
  (exists i',
      read_body m i = Continue i'
      /\ inner_inv m s i' /\ sim o' i' n
      /\ inflight i' - inflight i = sub (r_obj o') - sub (r_obj o)
      /\ (str (r_obj i) <> 0 ->
          str (r_obj i') <> 0
          /\ (2 <=? depth (r_iter i')) = (2 <=? depth (r_iter i)))
      /\ (str (r_obj i) = 0 -> str (r_obj i') <> 0 ->
          if 2 <=? depth (r_iter i') then at_container m i
          else depth (r_iter i') = 1))
  \/ (exists it' tok,
         read_body m i = Return it' tok
         /\ inner_inv m s (read_init it') /\ sim o' (read_init it') n
         /\ read_start it' = it'
         /\ src it' <> 0 /\ err it' = false
         /\ str tok <> 0 /\ str (r_obj i) <> 0
         /\ 1 + sub tok = inflight i
         /\ sub (r_obj o') = sub (r_obj o)
         /\ is_container (type tok) = (2 <=? depth (r_iter i))
         /\ (depth (r_iter i) = 1 -> sub tok = 0)).
Proof.
  destruct o as [[il er d g sr] [ty st ln chn su] cur len ut c].
  destruct i as [[il' er' d' g' sr'] [ty' st' ln' chn' su'] cur' len' ut' c'].
  intros [Hd Hst Hty Hs Hl Hb Hsu Hup] [Herr Hd' Hty' Hfl]
         [Hcur Hut Hgo Hdep Hlen] Hn Hlen' Hbody.
  cbn in Hd, Hst, Hty, Hs, Hl, Hb, Hsu, Hup, Herr, Hd', Hty', Hfl, Hcur, Hut, Hgo, Hdep, Hlen, Hlen'.
  subst st ty cur' g' er' ty' d.
  unfold read_body in Hbody |- *.
  cbn -[peek int32 uint32 lookup_table finish_token ch] in Hbody |- *.
  destruct (Z.eqb_spec (peek m cur) 0) as [Hc0 | Hc0].
  { unfold read_end in Hbody.
    cbn -[peek int32 uint32 lookup_table finish_token ch] in Hbody.
    destruct (Z.eqb_spec (d' + 1) 0); [lia |]. discriminate. }
  destruct (Z.eqb_spec (d' + 1) 1) as [? | _]; [lia |].
  cbn [andb] in Hbody.
  pose proof (lookup_table_go g (peek m cur)) as Hg.
  assert (Hbchk : lookup_table g (peek m cur) <> JSON_STATE_DOWN \/ d' <> 1 ->
                  (d' =? 1) && ((peek m cur =? ch "}") || (peek m cur =? ch "]"))
                  && (len' =? 1) && (st' =? 0) = false).
  { intros [H | H].
    - apply (inner_b_check m s g d' st' su' cur); [lia | exact Hfl | exact H].
    - destruct (Z.eqb_spec d' 1); [contradiction | reflexivity]. }
  destruct (lookup_table g (peek m cur)) eqn:Ht.
  all: try discriminate.
  all: destruct g; try (exfalso; clear - Hg; intuition discriminate).
  all: clear Hg.
  all: cbn [lookup_table] in Ht.
  all: try (specialize (Hut eq_refl); subst ut').
  all: try (apply qup_bytes in Ht as Hq).
  all: destruct (Z.eqb_spec d' 1) as [-> | Hd1]; try contradiction;
       try (exfalso; destruct Hfl as [Hfl _]; congruence).
  all: try (rewrite Hbchk by (first [left; discriminate | right; lia])).
  all: clear Hbchk.
  all: unfold count_nested, set_children, set_sub, set_depth, set_go, set_str,
         set_len, set_src, read_yield in Hbody |- *;
       cbn -[peek int32 uint32 lookup_table finish_token ch] in Hbody |- *.
  all: repeat (rewrite uint32_id in Hbody by lia).
  all: repeat (rewrite uint32_id by lia).
  all: repeat zcase; try lia.
  all: cbn -[peek int32 uint32 lookup_table finish_token ch] in Hbody |- *.
  all: try discriminate.
  all: injection Hbody as <-.
  all: repeat match goal with H : _ /\ _ |- _ => destruct H end.
  all: subst.
  all: try (rewrite (int32_id (su' + 1)) by lia).
  all: try (rewrite (int32_id (su + 1)) by lia).
  all: try (rewrite (int32_id (cur - st')) by lia).
  all: try (rewrite (int32_id (cur - st' + 1)) by lia).
  all: try (rewrite finish_string by (try assumption; lia)).
  all: try match goal with
       | Hb : json_go_struct (peek ?m0 ?q) = JSON_STATE_BARE
         |- context [finish_token ?m0 (Token ?ty ?q ?ln ?c ?u)] =>
           destruct (finish_bare m0 ty q ln c u Hb) as (ty1 & -> & Hty1);
             [lia | lia |]
       | Hu : json_go_struct (peek ?m0 ?q) = JSON_STATE_UP
         |- context [finish_token ?m0 (Token ?ty ?q ?ln ?c ?u)] =>
           destruct (up_is_container m0 (Token ty q ln c u) Hu) as [Hty1 ->];
             [cbn; lia | cbn; lia |]
       end.
  all: first [ left; eexists; split; [reflexivity |]
             | right; do 2 eexists; split; [reflexivity |] ].
  all: (split; [constructor; cbn -[peek ch]; repeat zcase;
                repeat split; try assumption; try reflexivity;
                try discriminate; try lia
               | split; [constructor; cbn -[peek ch]; try assumption;
                         try reflexivity; try discriminate; try lia;
                         try (intros; first [reflexivity | discriminate])
                        |]]).
  all: repeat split; intros; unfold inflight; cbn -[peek ch] in *;
       repeat zcase; try lia; try assumption; try reflexivity;
       try discriminate; try congruence.
Qed.

(** ** The tokens nested in a container *)

Lemma sim_final (m : memory) (s n : Z) (o i : read_state) it tok :
  outer_inv m s o -> inner_inv m s i -> sim o i n -> r_len i = 1 ->
  0 < r_len o ->
  read_body m o = Return it tok -> is_container (type tok) = true ->
  exists it',
    read_body m i = Return it' (r_obj i)
    /\ ilen it' = 0 /\ src it' = 0 /\ str (r_obj i) = 0.
Proof.
  intros Ho Hi Hsim Hlen1 Hlen Hbody Hc.
  pose proof (outer_body m s o Ho Hlen) as Hob. rewrite Hbody in Hob.
  destruct (Hob Hc) as (Hd & Ht & _).
  destruct o as [[il er d g sr] [ty st ln chn su] cur len ut c].
  destruct i as [[il' er' d' g' sr'] [ty' st' ln' chn' su'] cur' len' ut' c'].
  destruct Ho as [Hd0 Hst Hty Hs Hl Hb Hsu Hup].
  destruct Hi as [Herr Hd' Hty' Hfl].
  destruct Hsim as [Hcur Hut Hgo Hdep Hlen'].
  cbn in *. subst.
  assert (d' = 1) by lia. subst d'.
  pose proof (lookup_table_go g (peek m cur)) as Hg. rewrite Ht in Hg.
  destruct Hg as [-> | ->]; [| contradiction].
  cbn in Hfl, Ht. destruct Hfl as [-> ->].
  apply down_bytes in Ht.
  unfold read_body. cbn -[peek ch lookup_table].
  assert (Hc0 : peek m cur <> 0) by (destruct Ht as [-> | ->]; discriminate).
  destruct (Z.eqb_spec (peek m cur) 0); [contradiction |].
  replace ((peek m cur =? ch "}") || (peek m cur =? ch "]")) with true
    by (destruct Ht as [-> | ->]; reflexivity).
  rewrite Hlen1. cbn. eauto.
Qed.

Lemma total_cons (t : tree) (f : list tree) :
  total (t :: f) = 1 + sub (root t) + total f.
Proof. reflexivity. Qed.

(** From an idle state on, the reads are well nested. *)
Lemma tail_well_nested (m : memory) (it : json_iter) (i : read_state) ri
    (delta : Z) :
  json_read m (Some it) = Some ri -> tail m i ri delta ->
  str (r_obj i) = 0 ->
  exists f, well_nested m it f /\ total f = delta.
Proof.
  intros Hread Htail Hidle. destruct ri as [it' tok]. cbn [fst snd] in *.
  destruct Htail as [(Hl & Hs & _ & ->)
                    | (Hl & Hs & He & Hstr & (rest & Hwn & ->) & Hkids)].
  - exists []. split; [eapply wn_end; eauto | reflexivity].
  - rewrite Hidle in Hkids. cbn in Hkids.
    unfold inflight. rewrite Hidle. cbn.
    destruct Hkids as [kids [(Hc & Hk & Hsub) | (Hc & Hsub & ->)]].
    + exists (Node tok kids :: rest). split.
      * eapply wn_container; eauto.
      * rewrite total_cons. cbn. lia.
    + exists (Node tok [] :: rest). split.
      * eapply wn_leaf; eauto.
      * rewrite total_cons. cbn. lia.
Qed.

Lemma read_init_start (it : json_iter) :
  read_start it = it -> read_init (read_start it) = read_init it.
Proof. intros ->. reflexivity. Qed.

Lemma sim_run (m : memory) (s bound : Z) :
  containers_nested m bound ->
  forall o r,
    runs m o r ->
    forall i,
      outer_inv m s o -> inner_inv m s i -> sim o i (ilen (fst r)) ->
      is_container (type (snd r)) = true ->
      r_len o < bound ->
      exists ri, runs m i ri /\ tail m i ri (sub (snd r) - sub (r_obj o)).
Proof.
  intros IHT.
  induction 1 as [o it obj H0 He | o it obj H0 Hb | o o' r H0 Hb Hruns IH];
    intros i Ho Hi Hsim Hc Hbound; cbn [fst snd] in *.
  - rewrite (outer_end m s o it obj Ho He) in Hc. discriminate.
  - assert (Hlen : 0 < r_len o) by (destruct Ho; lia).
    pose proof (outer_body m s o Ho Hlen) as Hob. rewrite Hb in Hob.
    destruct (Hob Hc) as (Hd & Ht & -> & Hs & Hl & Hsub).
    assert (Hi1 : r_len i = 1) by (destruct Hsim; cbn in *; lia).
    destruct (sim_final m s _ o i _ obj Ho Hi Hsim Hi1 Hlen Hb Hc)
      as (it' & Hbi & Hl0 & Hs0 & Hidle).
    exists (it', r_obj i). split.
    + apply runs_return; [lia | exact Hbi].
    + left. cbn [fst snd]. repeat split; try assumption. lia.
  - assert (Hlen : 0 < r_len o) by (destruct Ho; lia).
    pose proof (outer_body m s o Ho Hlen) as Hob. rewrite Hb in Hob.
    destruct Hob as (Ho' & Hpos & Hle & Hsub).
    destruct (outer_yield m s o' r Hruns Ho' Hc) as (Hn & Hsrc & Hstr & Hl & Hs').
    assert (Hi1 : 1 <= r_len i) by (destruct Hsim; lia).
    destruct (sim_step m s (ilen (fst r)) o i o' Ho Hi Hsim) as
      [(i' & Hbi & Hi' & Hsim' & Hfl & Hkeep & Hnew)
      | (it' & tok & Hbi & Hi' & Hsim' & Hst & Hsrc' & Herr & Htok & Hfli
         & Hsubt & Hsubo & Hcont & Hleaf)]; [lia | lia | exact Hb | |].
    + destruct (IH i' Ho' Hi' Hsim' Hc) as (ri & Hri & Htail); [lia |].
      exists ri. split; [eapply runs_step; eauto; lia |].
      destruct Htail as [(Hl0 & Hs0 & Hidle' & Hd0)
                        | (Hl0 & Hs0 & He0 & Hstr0 & (rest & Hwn & Hd0) & Hk)].
      * left. repeat split; try assumption.
        -- destruct (Z.eq_dec (str (r_obj i)) 0) as [? | Hne]; [assumption |].
           destruct (Hkeep Hne) as [Hne' _]. contradiction.
        -- destruct (Z.eq_dec (str (r_obj i)) 0) as [Hz | Hne].
           ++ unfold inflight in Hfl. rewrite Hz, Hidle' in Hfl. cbn in Hfl. lia.
           ++ destruct (Hkeep Hne) as [Hne' _]. contradiction.
      * right. repeat split; try assumption.
        -- exists rest. split; [assumption | lia].
        -- destruct (Z.eqb_spec (str (r_obj i)) 0) as [Hz | Hne].
           ++ destruct (Z.eqb_spec (str (r_obj i')) 0) as [Hz' | Hne'];
                [exact Hk |].
              destruct Hk as [Hk1 Hk2]. specialize (Hnew Hz Hne').
              destruct (Z.leb_spec 2 (depth (r_iter i'))).
              ** destruct (IHT i ri) as (kids & Hkids & Hsubk);
                   [destruct Hsim; lia | exact Hnew
                   | eapply runs_step; eauto; lia | exact Hk1 |].
                 exists kids. left. auto.
              ** exists []. right. auto.
           ++ destruct (Hkeep Hne) as [Hne' Hdep].
              destruct (Z.eqb_spec (str (r_obj i')) 0); [contradiction |].
              destruct Hk as [Hk1 Hk2]. rewrite <- Hdep. split; [exact Hk1 |].
              intros Hd1. apply Hk2.
              destruct Hi' as [_ Hd' _ _].
              destruct (Z.leb_spec 2 (depth (r_iter i'))),
                       (Z.leb_spec 2 (depth (r_iter i))); try discriminate; lia.
    + destruct (IH (read_init it') Ho' Hi' Hsim' Hc) as (ri & Hri & Htail);
        [lia |].
      assert (Hil : ilen it' = r_len o' - ilen (fst r))
        by (destruct Hsim' as [_ _ _ _ Hx]; exact Hx).
      assert (Hread : json_read m (Some it') = Some ri).
      { apply json_read_runs; try assumption; [lia |].
        rewrite Hst. exact Hri. }
      destruct (tail_well_nested m it' (read_init it') ri _ Hread Htail eq_refl)
        as (f & Hf & Htot).
      exists (it', tok). split; [apply runs_return; [lia | exact Hbi] |].
      right. cbn [fst snd]. repeat split; try assumption; try lia.
      * exists f. split; [exact Hf | lia].
      * destruct (Z.eqb_spec (str (r_obj i)) 0); [contradiction |].
        split; assumption.
Qed.

(** The first iteration at an opening bracket, at depth 1 and at depth
    0. *)
Lemma enter_container (m : memory) (o : read_state) :
  at_container m o ->
  exists o1,
    read_body m o = Continue o1
    /\ outer_inv m (r_cur o) o1
    /\ r_cur o1 = r_cur o + 1 /\ r_len o1 = r_len o - 1
    /\ sub (r_obj o1) = 0 /\ go (r_iter o1) = GO_STRUCT
    /\ depth (r_iter o1) = 2.
Proof.
  destruct o as [[il er d g sr] [ty st ln chn su] cur len ut c].
  intros [Hd Hg Hst Hsu Hty Hup Hcur Hlen]. cbn in *. subst.
  pose proof Hup as Hup'. apply up_bytes in Hup'.
  unfold read_body. cbn -[peek ch lookup_table uint32 int32].
  assert (Hc0 : peek m cur <> 0) by (destruct Hup' as [-> | ->]; discriminate).
  destruct (Z.eqb_spec (peek m cur) 0); [contradiction |].
  replace ((peek m cur =? ch "}") || (peek m cur =? ch "]")) with false
    by (destruct Hup' as [-> | ->]; reflexivity).
  cbn -[peek ch lookup_table uint32 int32]. cbn [lookup_table]. rewrite Hup.
  cbn -[peek ch uint32 int32].
  rewrite (uint32_id (1 + 1)) by lia.
  eexists. split; [reflexivity |].
  repeat split; cbn -[peek ch]; try assumption; try reflexivity; try lia.
Qed.

Lemma enter_document (m : memory) (s l : Z) :
  json_go_struct (peek m s) = JSON_STATE_UP ->
  read_body m (read_init (read_start (json_begin s l)))
  = Continue (ReadState (Iter l false 1 GO_STRUCT s) JSON_TOKEN_NULL
                (s + 1) (l - 1) 0 (peek m s)).
Proof.
  intros Hup. pose proof Hup as Hup'. apply up_bytes in Hup'.
  unfold read_body. cbn -[peek ch lookup_table uint32 int32].
  assert (Hc0 : peek m s <> 0) by (destruct Hup' as [-> | ->]; discriminate).
  destruct (Z.eqb_spec (peek m s) 0); [contradiction |].
  cbn [lookup_table]. rewrite Hup. reflexivity.
Qed.

Lemma containers_nested_all (m : memory) (b : nat) :
  containers_nested m (Z.of_nat b).
Proof.
  induction b as [| b IH]; intros o r Hlen Hat Hruns Hc.
  - destruct Hat. lia.
  - destruct (enter_container m o Hat)
      as (o1 & Hb & Ho1 & Hcur1 & Hlen1 & Hsub1 & Hgo1 & Hd1).
    assert (Hruns1 : runs m o1 r).
    { inversion Hruns; subst; try congruence. destruct Hat. lia. }
    destruct (outer_yield m (r_cur o) o1 r Hruns1 Ho1 Hc)
      as (Hn & Hsrc & Hstr & Hl & _).
    set (s := r_cur o) in *. set (l := len (snd r)) in *.
    assert (Hup : json_go_struct (peek m s) = JSON_STATE_UP)
      by (destruct Hat; assumption).
    set (i1 := ReadState (Iter l false 1 GO_STRUCT s) JSON_TOKEN_NULL
                 (s + 1) (l - 1) 0 (peek m s)).
    assert (Hi1 : inner_inv m s i1) by (constructor; cbn; auto; lia).
    assert (Hsim : sim o1 i1 (ilen (fst r))).
    { constructor; cbn; try lia; try congruence. }
    destruct (sim_run m s (Z.of_nat b) IH o1 r Hruns1 i1 Ho1 Hi1 Hsim Hc)
      as (ri & Hri & Htail); [lia |].
    assert (Hs0 : 0 < s) by (destruct Hat; assumption).
    assert (Hread : json_read m (Some (json_begin s l)) = Some ri).
    { apply json_read_runs; cbn; try lia; try reflexivity.
      eapply runs_step; [| apply enter_document; exact Hup | exact Hri].
      cbn. lia. }
    destruct (tail_well_nested m _ i1 ri _ Hread Htail eq_refl)
      as (f & Hf & Htot).
    exists f. rewrite Hstr. split; [exact Hf | lia].
Qed.

(** ** Documents that are one container *)

Lemma single_container_nested (m : memory) (json length : Z) :
  0 < json -> 0 < length < 2 ^ 31 - 1 ->
  single_container m json length ->
  exists f, well_nested m (json_begin json length) f.
Proof.
  intros Hj Hl (it & tok & Hup & Hread & Hc & Hstr & Hlen).
  apply json_read_runs in Hread; cbn; try lia; try reflexivity.
  set (o := read_init (read_start (Iter length false 1 GO_STRUCT json))) in *.
  assert (Hat : at_container m o).
  { constructor; cbn; try reflexivity; try lia. apply up_bytes. exact Hup. }
  assert (Hb : r_len o < Z.of_nat (Z.to_nat (length + 1))) by (cbn; lia).
  destruct (containers_nested_all m (Z.to_nat (length + 1)) o (it, tok)
              Hb Hat Hread Hc) as (f & Hf & _).
  cbn [snd] in Hf. rewrite Hstr, Hlen in Hf. eauto.
Qed.

Lemma wn_read (m : memory) (it : json_iter) (f : list tree) :
  well_nested m it f -> exists r, json_read m (Some it) = Some r.
Proof. inversion 1; eauto. Qed.

Lemma flatten_forest_cons (t : tree) (f : list tree) :
  flatten_forest (t :: f) = flatten t ++ flatten_forest f.
Proof. reflexivity. Qed.

Lemma flatten_node (tok : json_token) (ks : list tree) :
  flatten (Node tok ks) = tok :: flatten_forest ks.
Proof. reflexivity. Qed.

(** [json_num] adds up the number of tokens of a well-nested forest. *)
Lemma total_length (m : memory) (it : json_iter) (f : list tree) :
  well_nested m it f -> total f = Z.of_nat (List.length (flatten_forest f)).
Proof.
  induction 1 as [| it it' tok rest _ _ _ _ _ _ Hsub _ IH
                  | it it' tok ks rest _ _ _ _ _ _ _ IHk Hsub _ IH].
  - reflexivity.
  - rewrite total_cons, flatten_forest_cons, flatten_node, IH. cbn [root].
    rewrite Hsub. cbn. lia.
  - rewrite total_cons, flatten_forest_cons, flatten_node, IH. cbn [root].
    rewrite Hsub, IHk. cbn [List.length List.app].
    rewrite length_app. lia.
Qed.

Lemma store_app (ts1 ts2 : list json_token) :
  forall (toks : gmap Z json_token) (i : Z),
    store toks i (ts1 ++ ts2)
    = store (store toks i ts1) (i + Z.of_nat (List.length ts1)) ts2.
Proof.
  induction ts1 as [| t ts1 IH]; intros toks i; cbn [store List.app List.length].
  - f_equal. lia.
  - rewrite IH. f_equal. lia.
Qed.

Lemma total_nonneg (m : memory) (it : json_iter) (f : list tree) :
  well_nested m it f -> 0 <= total f.
Proof. intros H. rewrite (total_length m it f H). lia. Qed.

Lemma num_while_spec (m : memory) (it0 : json_iter) (f : list tree) :
  well_nested m it0 f ->
  forall fuel it tok count,
    json_read m (Some it0) = Some (it, tok) ->
    0 <= count -> count + total f < 2 ^ 31 ->
    (List.length f < fuel)%nat ->
    num_while fuel m it tok count = Some (count + total f).
Proof.
  induction 1 as [it0 it' tok' Hr Hl Hs
                 | it0 it' tok' rest Hr Hl Hs He Hstr Hc Hsub Hrest IH
                 | it0 it' tok' ks rest Hr Hl Hs He Hstr Hc Hks _ Hsub Hrest IH];
    intros fuel it tok count Hread Hcount Hbound Hfuel;
    rewrite Hr in Hread; injection Hread as <- <-;
    (destruct fuel as [| fuel]; [cbn in Hfuel; lia |]);
    cbn [num_while].
  - rewrite Hs. cbn. rewrite andb_false_r. cbn. f_equal. cbn. lia.
  - rewrite He. destruct (Z.eqb_spec (src it') 0); [contradiction |].
    destruct (Z.eqb_spec (str tok') 0); [contradiction |]. cbn [negb andb].
    pose proof (total_nonneg m it' rest Hrest) as Hnn.
    rewrite total_cons in Hbound |- *. cbn [root] in *. rewrite Hsub in *.
    rewrite (int32_id (1 + 0)) by lia. rewrite int32_id by lia.
    destruct (wn_read m it' rest Hrest) as ([it2 tok2] & Hr2). rewrite Hr2.
    rewrite (IH fuel it2 tok2 _ Hr2) by (cbn in Hfuel; lia). f_equal. lia.
  - rewrite He. destruct (Z.eqb_spec (src it') 0); [contradiction |].
    destruct (Z.eqb_spec (str tok') 0); [contradiction |]. cbn [negb andb].
    pose proof (total_nonneg m it' rest Hrest) as Hnn.
    pose proof (total_nonneg m _ ks Hks) as Hnk.
    rewrite total_cons in Hbound |- *. cbn [root] in *. rewrite Hsub in *.
    rewrite (int32_id (1 + total ks)) by lia. rewrite int32_id by lia.
    destruct (wn_read m it' rest Hrest) as ([it2 tok2] & Hr2). rewrite Hr2.
    rewrite (IH fuel it2 tok2 _ Hr2) by (cbn in Hfuel; lia). f_equal. lia.
Qed.

Lemma json_num_spec (m : memory) (json length : Z) (f : list tree) (fuel : nat) :
  well_nested m (json_begin json length) f ->
  json <> 0 -> length <> 0 ->
  total f < 2 ^ 31 -> (List.length f < fuel)%nat ->
  json_num fuel m json length = Some (total f).
Proof.
  intros Hf Hj Hl Hb Hfuel. unfold json_num.
  destruct (Z.eqb_spec json 0); [contradiction |].
  destruct (Z.eqb_spec length 0); [contradiction |]. cbn [orb].
  destruct (wn_read m _ f Hf) as ([it tok] & Hr). rewrite Hr.
  rewrite (num_while_spec m _ f Hf fuel it tok 0 Hr) by lia.
  reflexivity.
Qed.

Lemma tok_at_insert (toks : gmap Z json_token) (i : Z) (t : json_token) :
  tok_at (<[i := t]> toks) i = t.
Proof. unfold tok_at. rewrite lookup_insert_eq. reflexivity. Qed.

(** A successful load stores the tokens of the forest in pre-order. *)
Lemma load_spec (m : memory) (max : Z) :
  max < 2 ^ 31 - 1 ->
  forall fuel,
    (forall toks read p n f toks' read',
        well_nested m (json_begin p n) f -> 0 <= read ->
        json_load fuel m toks max read p n = Some (JSON_OK, toks', read') ->
        toks' = store toks read (flatten_forest f)
        /\ read' = read + Z.of_nat (List.length (flatten_forest f))
        /\ read' <= max /\ (List.length f < fuel)%nat)
    /\ (forall toks read it0 it tok f toks' read',
           well_nested m it0 f -> json_read m (Some it0) = Some (it, tok) ->
           0 <= read <= max ->
           load_while fuel m toks max read it tok JSON_OK
           = Some (JSON_OK, toks', read') ->
           toks' = store toks read (flatten_forest f)
           /\ read' = read + Z.of_nat (List.length (flatten_forest f))
           /\ read' <= max /\ (List.length f < fuel)%nat).
Proof.
  intros Hmax. induction fuel as [| fuel [IH1 IH2]].
  { split; intros; discriminate. }
  split.
  - intros toks read p n f toks' read' Hf Hread Hload.
    cbn [json_load] in Hload.
    destruct ((p =? 0) || (n =? 0) || (max =? 0)); [discriminate |].
    destruct (Z.leb_spec max read); [discriminate |].
    destruct (json_read m (Some (json_begin p n))) as [[it tok] |] eqn:Hr;
      [| discriminate].
    destruct (err it && negb (ilen it =? 0)); [discriminate |].
    edestruct IH2 as (H1 & H2 & H3 & H4);
      [exact Hf | exact Hr | | exact Hload |]; [lia |].
    repeat split; try assumption. lia.
  - intros toks read it0 it tok f toks' read' Hf Hr Hread Hload.
    cbn [load_while] in Hload.
    rewrite (int32_id (read + 1)) in Hload by lia.
    replace (int32 (read + 1 - 1)) with read in Hload
      by (rewrite int32_id by lia; lia).
    rewrite tok_at_insert in Hload.
    inversion Hf as [? it' tok' Hr' Hl Hs
                    | ? it' tok' rest Hr' Hl Hs He Hstr Hc Hsub Hrest
                    | ? it' tok' ks rest Hr' Hl Hs He Hstr Hc Hks Hsub Hrest];
      subst; rewrite Hr in Hr'; injection Hr' as <- <-.
    + rewrite Hl in Hload. cbn in Hload. injection Hload as <- <-.
      cbn. repeat split; try lia.
    + destruct (Z.eqb_spec (ilen it) 0); [contradiction |].
      destruct (Z.ltb_spec max (read + 1)); [discriminate |].
      rewrite Hc in Hload.
      destruct (json_read m (Some it)) as [[it2 tok2] |] eqn:Hr2;
        [| discriminate].
      destruct (err it2 && negb (src it2 =? 0) && negb (ilen it2 =? 0));
        [discriminate |].
      edestruct IH2 as (H1 & H2 & H3 & H4);
        [exact Hrest | exact Hr2 | | exact Hload |]; [lia |].
      rewrite flatten_forest_cons, flatten_node. cbn [flatten_forest concat map
        List.app List.length store].
      repeat split; try assumption; try lia.
    + destruct (Z.eqb_spec (ilen it) 0); [contradiction |].
      destruct (Z.ltb_spec max (read + 1)); [discriminate |].
      rewrite Hc in Hload.
      destruct (json_load fuel m (<[read:=tok]> toks) max (read + 1)
                  (str tok) (len tok)) as [[[st toks1] read1] |] eqn:Hrec;
        [| discriminate].
      destruct st; try (injection Hload as ? ? ?; discriminate).
      edestruct IH1 as (K1 & K2 & K3 & K4);
        [exact Hks | | exact Hrec |]; [lia |].
      destruct (json_read m (Some it)) as [[it2 tok2] |] eqn:Hr2;
        [| discriminate].
      destruct (err it2 && negb (src it2 =? 0) && negb (ilen it2 =? 0));
        [discriminate |].
      edestruct IH2 as (H1 & H2 & H3 & H4);
        [exact Hrest | exact Hr2 | | exact Hload |]; [lia |].
      rewrite flatten_forest_cons, flatten_node.
      change ((tok :: flatten_forest ks) ++ flatten_forest rest)
        with (tok :: (flatten_forest ks ++ flatten_forest rest)).
      cbn [store List.length]. rewrite store_app, length_app.
      subst toks1 read1.
      repeat split; try assumption; try lia.
Qed.

(** ** The layout of the flat array *)

Lemma store_lookup (ts : list json_token) :
  forall (toks : gmap Z json_token) (i j : Z),
    store toks i ts !! j
    = if decide (i <= j < i + Z.of_nat (List.length ts))
      then ts !! Z.to_nat (j - i)
      else toks !! j.
Proof.
  induction ts as [| t ts IH]; intros toks i j; cbn [store List.length].
  - destruct (decide _); [lia | reflexivity].
  - rewrite IH.
    destruct (decide (i + 1 <= j < i + 1 + Z.of_nat (List.length ts))),
             (decide (i <= j < i + Z.of_nat (S (List.length ts)))); try lia.
    + replace (Z.to_nat (j - i)) with (S (Z.to_nat (j - (i + 1)))) by lia.
      reflexivity.
    + assert (j = i) by lia. subst j.
      rewrite lookup_insert_eq. replace (Z.to_nat (i - i)) with O by lia.
      reflexivity.
    + rewrite lookup_insert_ne by lia. reflexivity.
Qed.

Lemma layout_forest_cons (tok : json_token) (ks rest : list tree) (j : nat) :
  layout_forest (Node tok ks :: rest) j
  = (j, Node tok ks,
     match rest with
     | [] => None
     | _ => Some (j + S (List.length (flatten_forest ks)))%nat
     end)
      :: layout_forest ks (S j)
      ++ layout_forest rest (j + S (List.length (flatten_forest ks))).
Proof. reflexivity. Qed.

Lemma flatten_forest_nonempty (t : tree) (f : list tree) :
  flatten_forest (t :: f) <> [].
Proof. destruct t. discriminate. Qed.

(** Every node of the layout heads its subtree in the flat list, at
    its index; its next sibling, if any, follows the subtree. *)
Lemma layout_position (n : nat) :
  forall (f : list tree) (j0 i : nat) (t : tree) (sib : option nat),
    (List.length (flatten_forest f) <= n)%nat ->
    In (i, t, sib) (layout_forest f j0) ->
    exists pre post,
      flatten_forest f = pre ++ flatten t ++ post
      /\ i = (j0 + List.length pre)%nat
      /\ forall j, sib = Some j ->
                   j = (i + List.length (flatten t))%nat /\ post <> [].
Proof.
  induction n as [| n IH]; intros f j0 i t sib Hn Hin.
  - destruct f as [| [tok ks] rest]; [destruct Hin |].
    rewrite flatten_forest_cons, flatten_node in Hn. cbn in Hn. lia.
  - destruct f as [| [tok ks] rest]; [destruct Hin |].
    rewrite flatten_forest_cons, flatten_node in Hn.
    cbn [List.length List.app] in Hn. rewrite length_app in Hn.
    rewrite layout_forest_cons in Hin.
    destruct Hin as [Heq | Hin]; [| apply in_app_or in Hin as [Hin | Hin]].
    + injection Heq as <- <- <-.
      exists [], (flatten_forest rest). repeat split.
      * cbn. lia.
      * destruct rest; [discriminate |]. injection H as <-.
        rewrite flatten_node. cbn. lia.
      * destruct rest; [discriminate |]. apply flatten_forest_nonempty.
    + destruct (IH ks (S j0) i t sib ltac:(lia) Hin)
        as (pre & post & Hfl & Hi & Hsib).
      exists (tok :: pre), (post ++ flatten_forest rest). repeat split.
      * rewrite flatten_forest_cons, flatten_node, Hfl.
        cbn. rewrite <- !app_assoc. reflexivity.
      * cbn. lia.
      * apply (Hsib j H).
      * destruct (Hsib j H) as [_ Hp]. destruct post; [contradiction | discriminate].
    + destruct (IH rest _ i t sib ltac:(lia) Hin)
        as (pre & post & Hfl & Hi & Hsib).
      exists (flatten (Node tok ks) ++ pre), post. repeat split.
      * rewrite flatten_forest_cons, Hfl, <- app_assoc. reflexivity.
      * rewrite length_app, flatten_node. cbn. lia.
      * apply (Hsib j H).
      * apply (Hsib j H).
Qed.

(** The layout lists the indices of the flat array, in order. *)
Lemma layout_indices (n : nat) :
  forall (f : list tree) (j0 : nat),
    (List.length (flatten_forest f) <= n)%nat ->
    map (fun e => fst (fst e)) (layout_forest f j0)
    = seq j0 (List.length (flatten_forest f)).
Proof.
  induction n as [| n IH]; intros f j0 Hn.
  - destruct f as [| [tok ks] rest]; [reflexivity |].
    rewrite flatten_forest_cons, flatten_node in Hn. cbn in Hn. lia.
  - destruct f as [| [tok ks] rest]; [reflexivity |].
    rewrite flatten_forest_cons, flatten_node in Hn |- *.
    cbn [List.length List.app] in Hn |- *. rewrite length_app in Hn |- *.
    rewrite layout_forest_cons. cbn [map fst]. rewrite map_app.
    rewrite !IH by lia. cbn [seq]. f_equal.
    rewrite seq_app. f_equal. f_equal. lia.
Qed.

(** In a well-nested forest the [sub] of every node is the number of
    tokens nested in it. *)
Lemma layout_sub (m : memory) (it : json_iter) (f : list tree) :
  well_nested m it f ->
  forall j0 i t sib,
    In (i, t, sib) (layout_forest f j0) ->
    sub (root t) = Z.of_nat (List.length (flatten_forest (kids t))).
Proof.
  induction 1 as [it0 it' tok' Hr Hl Hs
                 | it0 it' tok' rest Hr Hl Hs He Hstr Hc Hsub Hrest IH
                 | it0 it' tok' ks rest Hr Hl Hs He Hstr Hc Hks IHk Hsub Hrest IH];
    intros j0 i t sib Hin.
  - destruct Hin.
  - rewrite layout_forest_cons in Hin.
    destruct Hin as [Heq | Hin]; [| apply in_app_or in Hin as [[] | Hin]].
    + injection Heq as <- <- <-. exact Hsub.
    + eapply IH; eauto.
  - rewrite layout_forest_cons in Hin.
    destruct Hin as [Heq | Hin]; [| apply in_app_or in Hin as [Hin | Hin]].
    + injection Heq as <- <- <-. cbn [root kids].
      rewrite Hsub. eapply total_length; eauto.
    + eapply IHk; eauto.
    + eapply IH; eauto.
Qed.


Ltac wn_side := first [reflexivity | cbn; lia | discriminate].

Ltac wn_step :=
  first
    [ eapply wn_end; [vm_compute; reflexivity | wn_side | wn_side]
    | eapply wn_leaf;
      [vm_compute; reflexivity | wn_side | wn_side | wn_side | wn_side
      | wn_side | wn_side |]
    | eapply wn_container;
      [vm_compute; reflexivity | wn_side | wn_side | wn_side | wn_side
      | wn_side | | wn_side |] ].

Lemma forest_siblings_nested :
  well_nested (doc doc_siblings) (json_begin 1000 9) forest_siblings.
Proof. unfold forest_siblings. repeat wn_step. Qed.

(** The sibling clause of the first invariant read literally fails: in
    [[[[1]],2]] the array [[1]] is stored at index 1 with [sub = 1]; it
    has no next sibling, yet index [1 + 1 + 1] holds the token [2], the
    next sibling of the enclosing array. *)
Lemma subtree_end_is_not_sibling :
  well_nested (doc doc_siblings) (json_begin 1000 9) forest_siblings
  /\ json_load 9 (doc doc_siblings) ∅ 9 0 1000 9
  = Some (JSON_OK, store ∅ 0 (flatten_forest forest_siblings), 4)
  /\ In (1%nat,
         Node (Token JSON_ARRAY 1002 3 1 1)
           [Node (Token JSON_NUMBER 1003 1 0 0) []],
         None)
        (layout_forest forest_siblings 0)
  /\ store ∅ 0 (flatten_forest forest_siblings) !! (1 + 1 + 1)
     = Some (Token JSON_NUMBER 1007 1 0 0).
Proof.
  split; [exact forest_siblings_nested |].
  split; [vm_compute; reflexivity |].
  split; [right; left; reflexivity | vm_compute; reflexivity].
Qed.

(** ** The reads of the top level *)

Lemma struct_byte_nonzero (c : Z) :
  json_go_struct c <> JSON_STATE_FAILED -> c <> 0.
Proof. intros H ->. apply H. reflexivity. Qed.

(** One byte of a gap. *)
Lemma gap_step (m : memory) (il sr p l ut c d d1 : Z) (g : nat) :
  d = 0 \/ d = 1 -> 1 < l ->
  gap m p (S g) d = Some d1 ->
  exists d',
    (d' = 0 \/ d' = 1)
    /\ gap m (p + 1) g d' = Some d1
    /\ read_body m (ReadState (Iter il false d GO_STRUCT sr) JSON_TOKEN_NULL
                      p l ut c)
       = Continue (ReadState (Iter il false d' GO_STRUCT sr) JSON_TOKEN_NULL
                     (p + 1) (l - 1) ut (peek m p)).
Proof.
  intros Hd Hl Hgap. cbn [gap] in Hgap.
  unfold read_body.
  cbn [r_iter r_obj r_cur r_len r_utf8 depth go str lookup_table].
  assert (Hnz : peek m p <> 0).
  { apply struct_byte_nonzero. intros H. rewrite H in Hgap. discriminate. }
  destruct (Z.eqb_spec (peek m p) 0) as [? | _]; [contradiction |].
  destruct (Z.eqb_spec l 1) as [? | _]; [lia |].
  rewrite andb_false_r. cbn [andb].
  destruct (json_go_struct (peek m p)); try discriminate.
  - exists d. split; [exact Hd |]. split; [exact Hgap | reflexivity].
  - exists d. split; [exact Hd |]. split; [exact Hgap |].
    destruct Hd as [-> | ->]; reflexivity.
  - destruct (Z.eqb_spec d 0) as [-> | _]; [| discriminate].
    exists 1. split; [right; reflexivity |]. split; [exact Hgap |].
    reflexivity.
  - destruct (Z.eqb_spec d 1) as [-> | _]; [| discriminate].
    exists 0. split; [left; reflexivity |]. split; [exact Hgap |].
    reflexivity.
Qed.

(** A run that starts in a gap passes through it. *)
Lemma gap_runs (m : memory) (il sr d1 : Z) (r : json_iter * json_token) :
  forall (g : nat) (p l ut c d : Z),
    d = 0 \/ d = 1 ->
    gap m p g d = Some d1 -> Z.of_nat g < l ->
    runs m (ReadState (Iter il false d GO_STRUCT sr) JSON_TOKEN_NULL p l ut c)
      r ->
    (d1 = 0 \/ d1 = 1)
    /\ exists c',
         runs m (ReadState (Iter il false d1 GO_STRUCT sr) JSON_TOKEN_NULL
                   (p + Z.of_nat g) (l - Z.of_nat g) ut c') r.
Proof.
  induction g as [| g IH]; intros p l ut c d Hd Hgap Hl Hruns.
  - cbn [gap] in Hgap. injection Hgap as <-. split; [exact Hd |].
    exists c. cbn [Z.of_nat]. rewrite Z.add_0_r, Z.sub_0_r. exact Hruns.
  - destruct (gap_step m il sr p l ut c d d1 g Hd ltac:(lia) Hgap)
      as (d' & Hd' & Hgap' & Hbody).
    inversion Hruns as [s it obj H0 He | s it obj H0 Hb | s s' r' H0 Hb Hr];
      subst; cbn [r_len] in *; try lia; try congruence.
    rewrite Hbody in Hb. injection Hb as <-.
    destruct (IH (p + 1) (l - 1) ut (peek m p) d' Hd' Hgap' ltac:(lia) Hr)
      as (Hd1 & c' & Hrest).
    split; [exact Hd1 |]. exists c'.
    replace (p + Z.of_nat (S g)) with (p + 1 + Z.of_nat g) by lia.
    replace (l - Z.of_nat (S g)) with (l - 1 - Z.of_nat g) by lia.
    exact Hrest.
Qed.

Lemma read_start_idle (it : json_iter) :
  idle it ->
  read_init (read_start it)
  = ReadState (Iter (ilen it) false (depth it) GO_STRUCT (src it))
      JSON_TOKEN_NULL (src it) (ilen it) 0 0.
Proof.
  intros (He & Hg & _). destruct it as [il er d g sr]. cbn in He, Hg.
  subst er. destruct Hg as [-> | ->]; reflexivity.
Qed.

(** ** A string or a bare token in flight at the top level *)

Lemma leaf_end (m : memory) (i : read_state) it tok :
  leaf_inv m i -> read_end m i = Return it tok ->
  type tok = JSON_NONE \/ ilen it = 0.
Proof.
  destruct i as [[il er d g sr] [ty st ln chn su] cur len ut c].
  intros [Herr Hd Hty Hsu Hst Hl Hb Hgo]. cbn in *. subst.
  unfold read_end. cbn -[finish_token int32].
  destruct (Z.eqb_spec d 0).
  - destruct (Z.eqb_spec st 0); [lia |]. cbn [negb].
    intros H. injection H as <- <-. right. reflexivity.
  - intros H. injection H as <- <-. left. reflexivity.
Qed.

Lemma leaf_body (m : memory) (i : read_state) :
  leaf_inv m i -> 0 < r_len i ->
  match read_body m i with
  | Continue i' =>
      leaf_inv m i' /\ r_len i' < r_len i
      /\ depth (r_iter i') = depth (r_iter i)
  | Return it tok =>
      type tok = JSON_NONE \/ ilen it = 0
      \/ (err it = false /\ go it = GO_STRUCT
          /\ depth it = depth (r_iter i)
          /\ 0 < src it /\ 0 < ilen it <= r_len i
          /\ is_container (type tok) = false /\ sub tok = 0
          /\ str tok <> 0)
  end.
Proof.
  destruct i as [[il er d g sr] [ty st ln chn su] cur len ut c].
  intros [Herr Hd Hty Hsu Hst Hl Hb Hgo] Hlen. cbn in *. subst.
  unfold read_body. cbn -[peek int32 uint32 lookup_table finish_token ch].
  destruct (Z.eqb_spec (peek m cur) 0) as [Hc0 | Hc0].
  { unfold read_end. cbn -[peek int32 uint32 lookup_table finish_token ch].
    destruct (Z.eqb_spec d 0).
    - destruct (Z.eqb_spec st 0); [lia |]. cbn [negb].
      destruct (_ =? _); right; left; reflexivity.
    - left. reflexivity. }
  destruct (Z.eqb_spec st 0) as [? | _]; [lia |].
  rewrite andb_false_r.
  pose proof (lookup_table_go g (peek m cur)) as Hg.
  destruct (lookup_table g (peek m cur)) eqn:Ht.
  all: destruct g; try contradiction;
       try (exfalso; clear - Hg; intuition discriminate).
  all: clear Hg.
  all: unfold count_nested, set_children, set_sub, set_depth, set_go, set_str,
         set_len, set_src, set_err, read_yield;
       cbn -[peek int32 uint32 lookup_table finish_token ch].
  all: try (left; reflexivity).
  all: try (replace (d <=? 1) with true by (symmetry; apply Z.leb_le; lia)).
  all: repeat zcase; try lia.
  all: cbn -[peek int32 uint32 lookup_table finish_token ch].
  all: try (rewrite (int32_id (cur - st)) by lia).
  all: try (rewrite (int32_id (cur - st + 1)) by lia).
  all: try (rewrite finish_string by (try assumption; lia)).
  all: try match goal with
       | Hb : json_go_struct (peek ?m0 ?q) = JSON_STATE_BARE
         |- context [finish_token ?m0 (Token ?ty ?q ?ln ?c ?u)] =>
           destruct (finish_bare m0 ty q ln c u Hb) as (ty1 & -> & Hty1);
             [lia | lia |]
       end.
  all: try (split; [constructor; cbn -[peek ch]; try assumption;
                    try reflexivity; try lia
                   | cbn; split; [lia | reflexivity]]).
  all: cbn -[peek ch].
  all: try (destruct (Z.eq_dec (len - 1) 0);
            [right; left; assumption |]).
  all: right; right; repeat split; try assumption; try reflexivity; try lia.
Qed.

Lemma leaf_runs (m : memory) (i : read_state) (r : json_iter * json_token) :
  runs m i r -> leaf_inv m i ->
  type (snd r) = JSON_NONE \/ ilen (fst r) = 0
  \/ (err (fst r) = false /\ go (fst r) = GO_STRUCT
      /\ depth (fst r) = depth (r_iter i)
      /\ 0 < src (fst r) /\ 0 < ilen (fst r) <= r_len i
      /\ is_container (type (snd r)) = false /\ sub (snd r) = 0
      /\ str (snd r) <> 0).
Proof.
  induction 1 as [i it obj H0 He | i it obj H0 Hb | i i' r H0 Hb _ IH];
    intros Hinv; cbn [fst snd].
  - destruct (leaf_end m i it obj Hinv He) as [H | H]; auto.
  - pose proof (leaf_body m i Hinv) as Hbody. rewrite Hb in Hbody.
    apply Hbody. destruct Hinv. lia.
  - pose proof (leaf_body m i Hinv) as Hbody. rewrite Hb in Hbody.
    destruct Hbody as (Hinv' & Hless & Hdep); [destruct Hinv; lia |].
    destruct (IH Hinv') as [H | [H | H]]; auto.
    right. right.
    destruct H as (H1 & H2 & H3 & H4 & H5 & H6 & H7 & H8).
    repeat split; try assumption; try lia; congruence.
Qed.

(** ** A container in flight at the top level *)

Lemma body_err (m : memory) (s s' : read_state) :
  read_body m s = Continue s' -> err (r_iter s') = err (r_iter s).
Proof.
  intros Hbody. unfold read_body in Hbody.
  destruct (peek m (r_cur s) =? 0).
  { destruct (read_end_returns m (ReadState (r_iter s) (r_obj s) (r_cur s)
                                   (r_len s) (r_utf8 s) (peek m (r_cur s))))
      as (it & obj & He).
    rewrite He in Hbody. discriminate. }
  destruct (_ && _); [discriminate |].
  destruct (lookup_table (go (r_iter s)) (peek m (r_cur s)));
    try discriminate;
    repeat match type of Hbody with
           | context [if ?b then _ else _] => destruct b
           end;
    try discriminate;
    injection Hbody as <-; reflexivity.
Qed.

Lemma outer_return_kind (m : memory) (s : Z) (o : read_state) it tok :
  outer_inv m s o -> 0 < r_len o ->
  read_body m o = Return it tok ->
  type tok = JSON_NONE \/ is_container (type tok) = true.
Proof.
  destruct o as [[il er d g sr] [ty st ln chn su] cur len ut c].
  intros [Hd Hst Hty Hs Hl Hb Hsu Hup] Hlen. simpl in *. subst st ty.
  unfold read_body. cbn -[peek int32 uint32 lookup_table finish_token].
  destruct (Z.eqb_spec (peek m cur) 0) as [Hc0 | Hc0].
  { unfold read_end. cbn -[peek int32 uint32 lookup_table finish_token].
    destruct (Z.eqb_spec d 0); [lia |].
    intros H. injection H as <- <-. left. reflexivity. }
  destruct (Z.eqb_spec d 1); [lia |]. cbn [andb].
  destruct (lookup_table g (peek m cur)) eqn:Ht.
  all: cbn -[peek int32 uint32 lookup_table finish_token].
  all: try discriminate.
  all: unfold count_nested, set_children, set_sub, set_depth, set_go, set_str,
         set_len, set_src, set_err, read_yield;
       cbn -[peek int32 uint32 lookup_table finish_token].
  all: try (rewrite (uint32_id (d - 1)) by lia).
  all: repeat zcase; try lia.
  all: cbn -[peek int32 uint32 lookup_table finish_token].
  all: try discriminate.
  all: try (intros H; injection H as <- <-; left; reflexivity).
  all: try (rewrite (int32_id (cur - s)) by lia).
  all: try (rewrite (int32_id (cur - s + 1)) by lia).
  intros H. injection H as <- <-. right.
  match goal with
  | |- context [finish_token m ?t] =>
      destruct (up_is_container m t) as [Hc Hfin];
        [assumption | cbn; lia | cbn; lia |]; rewrite Hfin
  end.
  exact Hc.
Qed.

Lemma outer_end_none (m : memory) (s : Z) (o : read_state) it tok :
  outer_inv m s o -> read_end m o = Return it tok -> type tok = JSON_NONE.
Proof.
  destruct o as [[il er d g sr] [ty st ln chn su] cur len ut c].
  intros [Hd Hst Hty Hs Hl Hb Hsu Hup]. simpl in *. subst.
  unfold read_end. cbn -[finish_token].
  destruct (Z.eqb_spec d 0); [lia |].
  intros H. injection H as <- <-. reflexivity.
Qed.

(** A read that has a container in flight returns a container token or
    no finished token; with the container it returns an iterator
    between two tokens, at depth 1. *)
Lemma outer_runs_idle (m : memory) (s : Z) (o : read_state) r :
  runs m o r -> outer_inv m s o -> err (r_iter o) = false ->
  type (snd r) <> JSON_NONE ->
  is_container (type (snd r)) = true
  /\ err (fst r) = false /\ depth (fst r) = 1
  /\ (go (fst r) = GO_STRUCT \/ go (fst r) = GO_NULL).
Proof.
  induction 1 as [o it obj H0 He | o it obj H0 Hb | o o' r H0 Hb _ IH];
    intros Hinv Herr Hty; cbn [fst snd] in *.
  - rewrite (outer_end_none m s o it obj Hinv He) in Hty. contradiction.
  - assert (Hlen : 0 < r_len o) by (destruct Hinv; lia).
    destruct (outer_return_kind m s o it obj Hinv Hlen Hb) as [H | Hc];
      [contradiction |].
    pose proof (outer_body m s o Hinv Hlen) as Hbody. rewrite Hb in Hbody.
    destruct (Hbody Hc) as (Hd & Ht & -> & _).
    split; [exact Hc |]. cbn. split; [exact Herr |]. split; [reflexivity |].
    pose proof (lookup_table_go (go (r_iter o)) (peek m (r_cur o))) as Hg.
    rewrite Ht in Hg. exact Hg.
  - assert (Hlen : 0 < r_len o) by (destruct Hinv; lia).
    pose proof (outer_body m s o Hinv Hlen) as Hbody. rewrite Hb in Hbody.
    destruct Hbody as (Hinv' & _).
    apply IH; [exact Hinv' | | exact Hty].
    rewrite (body_err m o o' Hb). exact Herr.
Qed.

(** ** One read of the top level *)

Lemma runs_continue (m : memory) (s s' : read_state) r :
  runs m s r -> r_len s <> 0 -> read_body m s = Continue s' -> runs m s' r.
Proof.
  intros Hruns Hl Hb.
  inversion Hruns as [? it obj H0 He | ? it obj H0 Hb' | ? s2 r' H0 Hb' Hr];
    subst; try contradiction; congruence.
Qed.

Lemma struct_not_closing (c : Z) :
  json_go_struct c <> JSON_STATE_DOWN ->
  (c =? ch "}") || (c =? ch "]") = false.
Proof.
  intros H.
  destruct (Z.eqb_spec c (ch "}")) as [-> | _]; [exfalso; apply H; reflexivity |].
  destruct (Z.eqb_spec c (ch "]")) as [-> | _]; [exfalso; apply H; reflexivity |].
  reflexivity.
Qed.

(** A read of the top level that crosses a gap and returns a finished
    token, leaving input: the token is a string or a bare token without
    nested tokens, or a container whose bytes are well nested, and the
    returned iterator is again between two tokens. *)
Lemma read_token (m : memory) (it it' : json_iter) (tok : json_token)
    (g : nat) (d : Z) :
  idle it ->
  json_read m (Some it) = Some (it', tok) ->
  ilen it' <> 0 -> type tok <> JSON_NONE ->
  gap m (src it) g (depth it) = Some d -> Z.of_nat g < ilen it ->
  starts_token d (peek m (src it + Z.of_nat g)) ->
  idle it' /\ src it' <> 0 /\ err it' = false /\ str tok <> 0
  /\ exists kids, node_ok m tok kids.
Proof.
  intros Hidle Hread Hl Hty Hgap Hg Hstart.
  pose proof Hidle as (He & Hgo & Hd & Hsrc & Hil).
  apply json_read_runs in Hread; [| lia | lia | exact He].
  rewrite (read_start_idle it Hidle) in Hread.
  destruct (gap_runs m _ _ d _ g _ _ _ _ _ Hd Hgap Hg Hread)
    as (Hd1 & c' & Hruns).
  set (p := src it + Z.of_nat g) in *.
  set (l := ilen it - Z.of_nat g) in *.
  assert (Hp : 0 < p) by (unfold p; lia).
  assert (Hl0 : 0 < l < 2 ^ 31 - 1) by (unfold l; lia).
  assert (Hle : (d <=? 1) = true) by (apply Z.leb_le; lia).
  destruct Hstart as [Hq | [Hb | [Hu Hd1']]].
  - (* a string *)
    assert (Hnz : peek m p <> 0)
      by (apply struct_byte_nonzero; rewrite Hq; discriminate).
    assert (Hnc : (peek m p =? ch "}") || (peek m p =? ch "]") = false)
      by (apply struct_not_closing; rewrite Hq; discriminate).
    assert (Hbody :
      read_body m (ReadState (Iter (ilen it) false d GO_STRUCT (src it))
                     JSON_TOKEN_NULL p l 0 c')
      = Continue (ReadState (Iter (ilen it) false d GO_STRING (src it))
                    (Token JSON_NONE p 0 0 0) (p + 1) (l - 1) 0 (peek m p))).
    { unfold read_body.
      cbn [r_iter r_obj r_cur r_len r_utf8 depth go str lookup_table].
      destruct (Z.eqb_spec (peek m p) 0) as [? | _]; [contradiction |].
      rewrite Hnc, andb_false_r. cbn [andb]. rewrite Hq, Hle. reflexivity. }
    apply (runs_continue m _ _ _ Hruns ltac:(cbn; lia)) in Hbody.
    apply leaf_runs in Hbody.
    2:{ constructor; cbn; try assumption; try reflexivity; try lia.
        apply qup_bytes. exact Hq. }
    cbn [fst snd r_iter r_len depth] in Hbody.
    destruct Hbody as [H | [H | (H1 & H2 & H3 & H4 & H5 & H6 & H7 & H8)]];
      try contradiction.
    split; [repeat split; auto; try lia; rewrite H3; exact Hd1 |].
    split; [lia |]. split; [exact H1 |]. split; [exact H8 |].
    exists []. right. auto.
  - (* a bare token *)
    assert (Hnz : peek m p <> 0)
      by (apply struct_byte_nonzero; rewrite Hb; discriminate).
    assert (Hnc : (peek m p =? ch "}") || (peek m p =? ch "]") = false)
      by (apply struct_not_closing; rewrite Hb; discriminate).
    assert (Hbody :
      read_body m (ReadState (Iter (ilen it) false d GO_STRUCT (src it))
                     JSON_TOKEN_NULL p l 0 c')
      = Continue (ReadState (Iter (ilen it) false d GO_BARE (src it))
                    (Token JSON_NONE p 0 0 0) (p + 1) (l - 1) 0 (peek m p))).
    { unfold read_body.
      cbn [r_iter r_obj r_cur r_len r_utf8 depth go str lookup_table].
      destruct (Z.eqb_spec (peek m p) 0) as [? | _]; [contradiction |].
      rewrite Hnc, andb_false_r. cbn [andb]. rewrite Hb, Hle. reflexivity. }
    apply (runs_continue m _ _ _ Hruns ltac:(cbn; lia)) in Hbody.
    apply leaf_runs in Hbody.
    2:{ constructor; cbn; try assumption; try reflexivity; try lia. }
    cbn [fst snd r_iter r_len depth] in Hbody.
    destruct Hbody as [H | [H | (H1 & H2 & H3 & H4 & H5 & H6 & H7 & H8)]];
      try contradiction.
    split; [repeat split; auto; try lia; rewrite H3; exact Hd1 |].
    split; [lia |]. split; [exact H1 |]. split; [exact H8 |].
    exists []. right. auto.
  - (* a container *)
    subst d.
    set (o := ReadState (Iter (ilen it) false 1 GO_STRUCT (src it))
                JSON_TOKEN_NULL p l 0 c') in *.
    assert (Hat : at_container m o)
      by (constructor; cbn; try assumption; try reflexivity; lia).
    destruct (enter_container m o Hat)
      as (o1 & Hb & Ho1 & Hcur1 & Hlen1 & Hsub1 & Hgo1 & Hdep1).
    pose proof (runs_continue m _ _ _ Hruns ltac:(cbn; lia) Hb) as Hruns1.
    assert (Herr1 : err (r_iter o1) = false)
      by (rewrite (body_err m o o1 Hb); reflexivity).
    destruct (outer_runs_idle m (r_cur o) o1 (it', tok) Hruns1 Ho1 Herr1 Hty)
      as (Hc & He' & Hd' & Hg').
    destruct (outer_yield m (r_cur o) o1 (it', tok) Hruns1 Ho1 Hc)
      as (Hn & Hsrc' & Hstr & Hlen & _).
    cbn [fst snd r_cur r_len o] in *.
    destruct (containers_nested_all m (Z.to_nat (l + 1)) o (it', tok))
      as (kids & Hkids & Hsub); [cbn; lia | exact Hat | exact Hruns | exact Hc |].
    cbn [snd] in Hkids, Hsub.
    split; [repeat split; auto; lia |].
    split; [lia |]. split; [exact He' |]. split; [lia |].
    exists kids. left. auto.
Qed.

(** ** The bytes before a token *)

Lemma gap_cons (m : memory) (p d d' : Z) (g : nat) :
  gap m p 1 d = Some d' -> gap m p (S g) d = gap m (p + 1) g d'.
Proof.
  cbn [gap]. destruct (json_go_struct (peek m p)); try discriminate;
    try (intros H; injection H as <-; reflexivity).
  - destruct (d =? 0); [| discriminate].
    intros H; injection H as <-; reflexivity.
  - destruct (d =? 1); [| discriminate].
    intros H; injection H as <-; reflexivity.
Qed.

(** One iteration between two tokens: the byte belongs to the gap, or
    it starts a token, or it is a closing bracket at depth 0, or the
    read returns without a finished token or with the input used
    up. *)
Lemma idle_body (m : memory) (il sr p l ut c d : Z) :
  d = 0 \/ d = 1 -> 0 < l ->
  (exists d',
      (d' = 0 \/ d' = 1) /\ gap m p 1 d = Some d'
      /\ read_body m (ReadState (Iter il false d GO_STRUCT sr)
                        JSON_TOKEN_NULL p l ut c)
         = Continue (ReadState (Iter il false d' GO_STRUCT sr)
                       JSON_TOKEN_NULL (p + 1) (l - 1) ut (peek m p)))
  \/ starts_token d (peek m p)
  \/ (d = 0 /\ json_go_struct (peek m p) = JSON_STATE_DOWN)
  \/ (exists it tok,
         read_body m (ReadState (Iter il false d GO_STRUCT sr)
                        JSON_TOKEN_NULL p l ut c) = Return it tok
         /\ (type tok = JSON_NONE \/ ilen it = 0)).
Proof.
  intros Hd Hl. unfold read_body.
  cbn [r_iter r_obj r_cur r_len r_utf8 depth go str lookup_table].
  change (str JSON_TOKEN_NULL) with 0.
  destruct (Z.eqb_spec (peek m p) 0) as [Hc0 | Hc0].
  { right. right. right. unfold read_end.
    cbn [r_iter r_obj depth str JSON_TOKEN_NULL].
    destruct (d =? 0); cbn; eauto. }
  destruct ((d =? 1) && ((peek m p =? ch "}") || (peek m p =? ch "]"))
            && (l =? 1) && (0 =? 0)) eqn:Hguard.
  { right. right. right. do 2 eexists. split; [reflexivity |].
    right. reflexivity. }
  pose proof (lookup_table_go GO_STRUCT (peek m p)) as Hg.
  cbn [lookup_table] in Hg. cbn [gap]. unfold starts_token.
  destruct (json_go_struct (peek m p)) eqn:Ht;
    try (exfalso; clear - Hg; intuition discriminate).
  - right. right. right. do 2 eexists. split; [reflexivity |].
    left. reflexivity.
  - left. exists d. split; [exact Hd |]. split; reflexivity.
  - left. exists d. split; [exact Hd |]. split; [reflexivity |].
    destruct Hd as [-> | ->]; reflexivity.
  - destruct Hd as [-> | ->].
    + left. exists 1. split; [right; reflexivity |]. split; reflexivity.
    + right. left. right. right. split; reflexivity.
  - destruct Hd as [-> | ->].
    + right. right. left. split; reflexivity.
    + left. exists 0. split; [left; reflexivity |]. split; reflexivity.
  - right. left. left. reflexivity.
  - right. left. right. left. reflexivity.
Qed.

Lemma idle_end (m : memory) (il sr p l ut c d : Z) it tok :
  read_end m (ReadState (Iter il false d GO_STRUCT sr) JSON_TOKEN_NULL
                p l ut c) = Return it tok ->
  type tok = JSON_NONE \/ ilen it = 0.
Proof.
  unfold read_end. cbn [r_iter r_obj depth str JSON_TOKEN_NULL].
  destruct (d =? 0); cbn; intros H; injection H as <- <-; auto.
Qed.

(** A read that starts between two tokens, returns a finished token
    and leaves input has crossed a gap to the first byte of a token,
    unless it has met a closing bracket at depth 0. *)
Lemma gap_before_token (m : memory) (il sr : Z) (r : json_iter * json_token) :
  ilen (fst r) <> 0 -> type (snd r) <> JSON_NONE ->
  forall (n : nat) (p l ut c d : Z),
    d = 0 \/ d = 1 -> 0 <= l -> Z.to_nat l = n ->
    runs m (ReadState (Iter il false d GO_STRUCT sr) JSON_TOKEN_NULL p l ut c)
      r ->
    exists (g : nat) (d' : Z),
      gap m p g d = Some d' /\ Z.of_nat g < l
      /\ (starts_token d' (peek m (p + Z.of_nat g))
          \/ (d' = 0
              /\ json_go_struct (peek m (p + Z.of_nat g)) = JSON_STATE_DOWN)).
Proof.
  intros Hil Hty. induction n as [| n IH]; intros p l ut c d Hd Hl Hn Hruns.
  - assert (l = 0) by lia. subst l.
    inversion Hruns as [s it obj H0 He | s it obj H0 Hb | s s' r' H0 Hb Hr];
      subst; cbn [r_len] in *; try lia.
    apply idle_end in He. cbn [fst snd] in *. destruct He; contradiction.
  - assert (Hl1 : 0 < l) by lia.
    destruct (idle_body m il sr p l ut c d Hd Hl1)
      as [(d' & Hd' & Hg1 & Hbody) | [Hstart | [Hdown | (it & tok & Hbody & Hres)]]].
    + apply (runs_continue m _ _ _ Hruns ltac:(cbn; lia)) in Hbody.
      destruct (IH (p + 1) (l - 1) ut (peek m p) d' Hd' ltac:(lia) ltac:(lia)
                  Hbody) as (g & d2 & Hgap & Hg & Hcase).
      exists (S g), d2. rewrite (gap_cons m p d d' g Hg1).
      split; [exact Hgap |]. split; [lia |].
      replace (p + Z.of_nat (S g)) with (p + 1 + Z.of_nat g) by lia.
      exact Hcase.
    + exists O, d. cbn [gap Z.of_nat]. rewrite Z.add_0_r.
      split; [reflexivity |]. split; [lia |]. left. exact Hstart.
    + exists O, d. cbn [gap Z.of_nat]. rewrite Z.add_0_r.
      split; [reflexivity |]. split; [lia |]. right. exact Hdown.
    + inversion Hruns as [s it0 obj H0 He | s it0 obj H0 Hb | s s' r' H0 Hb Hr];
        subst; cbn [r_len] in *; try lia; try congruence.
      rewrite Hbody in Hb. injection Hb as <- <-. cbn [fst snd] in *.
      destruct Hres; contradiction.
Qed.

Lemma token_after_gap (m : memory) (it it' : json_iter) (tok : json_token) :
  idle it ->
  json_read m (Some it) = Some (it', tok) ->
  ilen it' <> 0 -> type tok <> JSON_NONE ->
  no_stray_close m it ->
  exists (g : nat) (d : Z),
    gap m (src it) g (depth it) = Some d /\ Z.of_nat g < ilen it
    /\ starts_token d (peek m (src it + Z.of_nat g)).
Proof.
  intros Hidle Hread Hl Hty Hclose.
  pose proof Hidle as (He & Hgo & Hd & Hsrc & Hil).
  apply json_read_runs in Hread; [| lia | lia | exact He].
  rewrite (read_start_idle it Hidle) in Hread.
  destruct (gap_before_token m (ilen it) (src it) (it', tok) Hl Hty _
              (src it) (ilen it) 0 0 (depth it) Hd ltac:(lia) eq_refl Hread)
    as (g & d & Hgap & Hg & [Hs | [-> Hdown]]).
  - eauto.
  - exfalso. exact (Hclose g Hg Hgap Hdown).
Qed.

(** ** The forest of a tokenized buffer *)

Lemma idle_begin (json length : Z) :
  0 < json -> 0 < length < 2 ^ 31 - 1 -> idle (json_begin json length).
Proof.
  intros Hj Hl. unfold idle, json_begin. cbn.
  repeat split; auto; lia.
Qed.

(** The tokens of a tokenized buffer form a forest; the reads are well
    nested when the last read leaves no position behind. *)
Lemma tokenized_nested (m : memory) (it last : json_iter) :
  tokenized m it last -> idle it ->
  exists f, top_nested m it f /\ (src last = 0 -> well_nested m it f).
Proof.
  induction 1 as [it it' tok Hr Hl
                 | it it' tok last Hr Hl Hty Hclose _ IH];
    intros Hidle.
  - exists []. split; [eapply tn_end; eauto |].
    intros Hs. eapply wn_end; eauto.
  - destruct (token_after_gap m it it' tok Hidle Hr Hl Hty Hclose)
      as (g & d & Hgap & Hg & Hstart).
    destruct (read_token m it it' tok g d Hidle Hr Hl Hty Hgap Hg Hstart)
      as (Hidle' & Hs' & He' & Hstr & kids & Hnode).
    destruct (IH Hidle') as (rest & Htop & Hwn).
    exists (Node tok kids :: rest). split.
    + eapply tn_token; eauto.
    + intros Hs. specialize (Hwn Hs).
      destruct Hnode as [(Hc & Hk & Hsub) | (Hc & Hsub & ->)].
      * eapply wn_container; eauto.
      * eapply wn_leaf; eauto.
Qed.

(** The loop of [json_load] at the top level stores the tokens of the
    forest in pre-order. *)
Lemma load_top_spec (m : memory) (max : Z) :
  max < 2 ^ 31 - 1 ->
  forall it0 f,
    top_nested m it0 f ->
    forall fuel toks read it tok toks' read',
      json_read m (Some it0) = Some (it, tok) ->
      0 <= read <= max ->
      load_while fuel m toks max read it tok JSON_OK
      = Some (JSON_OK, toks', read') ->
      toks' = store toks read (flatten_forest f)
      /\ read' = read + Z.of_nat (List.length (flatten_forest f)).
Proof.
  intros Hmax.
  induction 1 as [it0 it' tok' Hr Hl
                 | it0 it' tok' ks rest Hr Hl Hs He Hstr Hnode Hrest IH];
    intros fuel toks read it tok toks' read' Hread Hrd Hload;
    rewrite Hr in Hread; injection Hread as <- <-;
    (destruct fuel as [| fuel]; [discriminate |]);
    cbn [load_while] in Hload.
  - rewrite Hl in Hload. cbn in Hload. injection Hload as <- <-.
    cbn. split; [reflexivity | lia].
  - destruct (Z.eqb_spec (ilen it') 0); [contradiction |].
    rewrite (int32_id (read + 1)) in Hload by lia.
    replace (int32 (read + 1 - 1)) with read in Hload
      by (rewrite int32_id by lia; lia).
    rewrite tok_at_insert in Hload.
    destruct (Z.ltb_spec max (read + 1)); [discriminate |].
    rewrite flatten_forest_cons, flatten_node.
    destruct Hnode as [(Hc & Hks & Hsub) | (Hc & Hsub & ->)];
      rewrite Hc in Hload.
    + destruct (json_load fuel m (<[read:=tok']> toks) max (read + 1)
                  (str tok') (len tok')) as [[[st toks1] read1] |] eqn:Hrec;
        [| discriminate].
      destruct st; try (injection Hload as ? ? ?; discriminate).
      destruct (load_spec m max Hmax fuel) as [IH1 _].
      edestruct IH1 as (K1 & K2 & K3 & K4);
        [exact Hks | | exact Hrec |]; [lia |].
      destruct (json_read m (Some it')) as [[it2 tok2] |] eqn:Hr2;
        [| discriminate].
      destruct (err it2 && negb (src it2 =? 0) && negb (ilen it2 =? 0));
        [discriminate |].
      edestruct IH as (H1 & H2);
        [reflexivity | | exact Hload |]; [lia |].
      change ((tok' :: flatten_forest ks) ++ flatten_forest rest)
        with (tok' :: (flatten_forest ks ++ flatten_forest rest)).
      cbn [store List.length]. rewrite store_app, length_app.
      subst toks1 read1.
      split; [assumption | lia].
    + destruct (json_read m (Some it')) as [[it2 tok2] |] eqn:Hr2;
        [| discriminate].
      destruct (err it2 && negb (src it2 =? 0) && negb (ilen it2 =? 0));
        [discriminate |].
      edestruct IH as (H1 & H2);
        [reflexivity | | exact Hload |]; [lia |].
      cbn [flatten_forest concat map List.app List.length store].
      split; [assumption | lia].
Qed.

Lemma json_load_top (m : memory) (max json length : Z) (f : list tree)
    (fuel : nat) (toks : gmap Z json_token) (read : Z) :
  max < 2 ^ 31 - 1 ->
  top_nested m (json_begin json length) f ->
  json_load fuel m ∅ max 0 json length = Some (JSON_OK, toks, read) ->
  toks = store ∅ 0 (flatten_forest f)
  /\ read = Z.of_nat (List.length (flatten_forest f)).
Proof.
  intros Hmax Hf Hload.
  destruct fuel as [| fuel]; [discriminate |].
  cbn [json_load] in Hload.
  destruct ((json =? 0) || (length =? 0) || (max =? 0)); [discriminate |].
  destruct (Z.leb_spec max 0); [discriminate |].
  destruct (json_read m (Some (json_begin json length))) as [[it tok] |] eqn:Hr;
    [| discriminate].
  destruct (err it && negb (ilen it =? 0)); [discriminate |].
  destruct (load_top_spec m max Hmax _ f Hf fuel ∅ 0 it tok toks read Hr
              ltac:(lia) Hload) as [H1 H2].
  split; [exact H1 | lia].
Qed.

(** In the forest of the top level the [sub] of every node is the
    number of tokens nested in it. *)
Lemma layout_top_sub (m : memory) (it : json_iter) (f : list tree) :
  top_nested m it f ->
  forall j0 i t sib,
    In (i, t, sib) (layout_forest f j0) ->
    sub (root t) = Z.of_nat (List.length (flatten_forest (kids t))).
Proof.
  induction 1 as [it0 it' tok' Hr Hl
                 | it0 it' tok' ks rest Hr Hl Hs He Hstr Hnode Hrest IH];
    intros j0 i t sib Hin.
  - destruct Hin.
  - rewrite layout_forest_cons in Hin.
    destruct Hin as [Heq | Hin]; [| apply in_app_or in Hin as [Hin | Hin]].
    + injection Heq as <- <- <-. cbn [root kids].
      destruct Hnode as [(Hc & Hks & Hsub) | (Hc & Hsub & ->)].
      * rewrite Hsub. eapply total_length; eauto.
      * exact Hsub.
    + destruct Hnode as [(Hc & Hks & Hsub) | (Hc & Hsub & ->)].
      * eapply layout_sub; eauto.
      * destruct Hin.
    + eapply IH; eauto.
Qed.

(** The second invariant read literally also fails on buffers that
    the tokenizer does not split into finished tokens.  A closing
    bracket outside of any container makes the depth wrap around, and
    the tokens that follow are counted into the [sub] of the next
    container: the buffer [doc_unbalanced] loads as one empty array
    and [json_num] is 3. *)
Lemma json_num_counts_unbalanced :
  json_load 9 (doc doc_unbalanced) ∅ 9 0 1000 8
  = Some (JSON_OK, tok_array [Token JSON_ARRAY 1005 2 0 2], 1)
  /\ json_num 9 (doc doc_unbalanced) 1000 8 = Some 3.
Proof. split; vm_compute; reflexivity. Qed.

(** A buffer that ends inside a string is read a second time from its
    start: [doc_unfinished] loads as one unfinished token and
    [json_num] is 2. *)
Lemma json_num_counts_unfinished :
  json_load 9 (doc doc_unfinished) ∅ 9 0 1000 5
  = Some (JSON_OK, tok_array [Token JSON_NONE 1001 0 1 1], 1)
  /\ json_num 9 (doc doc_unfinished) 1000 5 = Some 2.
Proof. split; vm_compute; reflexivity. Qed.

Ltac tk_side := first [reflexivity | discriminate | cbn; lia].

(** No closing bracket at depth 0 among the first bytes of a concrete
    buffer: the gaps of up to [n] bytes are checked one by one, a
    longer run of bytes is not a gap. *)
Tactic Notation "no_stray" integer(n) :=
  let g := fresh "g" in
  let Hg := fresh "Hg" in
  let Hgap := fresh "Hgap" in
  intros g Hg Hgap;
  do n (destruct g as [| g];
        [first [ vm_compute in Hgap; discriminate Hgap
               | vm_compute; discriminate ] |]);
  vm_compute in Hgap; discriminate Hgap.

(** The reads of [doc_padded]: the name [a] after the blank and the
    opening bracket, the array after the colon, and the end of the
    input at the closing bracket and the line feed. *)
Ltac padded_tokenized :=
  eapply tk_token;
    [vm_compute; reflexivity | tk_side | tk_side | no_stray 3 |];
  eapply tk_token;
    [vm_compute; reflexivity | tk_side | tk_side | no_stray 2 |];
  eapply tk_last; [vm_compute; reflexivity | reflexivity].



(** The first invariant read literally also fails on buffers that the
    tokenizer does not split into finished tokens: [doc_unbalanced]
    loads as one array token with [sub = 2] in an array of one token,
    and [doc_unfinished_array], which ends inside a string and is read
    a second time from its start, as an unfinished token followed by
    an empty array with [sub = 1]. *)
Lemma unbalanced_container_sub :
  json_load 9 (doc doc_unbalanced) ∅ 9 0 1000 8
  = Some (JSON_OK, tok_array [Token JSON_ARRAY 1005 2 0 2], 1)
  /\ ~ (0 + sub (Token JSON_ARRAY 1005 2 0 2) < 1)
  /\ json_load 9 (doc doc_unfinished_array) ∅ 9 0 1000 8
     = Some (JSON_OK,
             tok_array [Token JSON_NONE 1001 0 1 1;
                        Token JSON_ARRAY 1005 2 1 1], 2)
  /\ ~ (1 + sub (Token JSON_ARRAY 1005 2 1 1) < 2).
Proof.
  split; [vm_compute; reflexivity |]. split; [cbn; lia |].
  split; [vm_compute; reflexivity | cbn; lia].
Qed.

(** C3 (amended): in the token array of [count] tokens that a
    successful [json_load] produces from a buffer that the tokenizer
    splits into finished tokens, the tokens are the pre-order of the
    nesting forest [f] of the document.  Every token at index [i] (in
    particular every container) satisfies [i + sub < count]; the tokens
    at [i+1 .. i+sub] are exactly the tokens nested in it, in
    pre-order; and if the token has a next sibling, that sibling is at
    index [i + sub + 1]. *)
Theorem loaded_subtrees (m : memory) (json length max : Z) (fuel : nat)
    (toks : gmap Z json_token) (count : Z) (last : json_iter) :
  0 < json -> 0 < length < 2 ^ 31 - 1 -> max < 2 ^ 31 - 1 ->
  tokenized m (json_begin json length) last ->
  json_load fuel m ∅ max 0 json length = Some (JSON_OK, toks, count) ->
  subtrees_laid_out m json length toks count.
Proof.
  intros Hj Hl Hmax Htok Hload.
  destruct (tokenized_nested m _ last Htok (idle_begin json length Hj Hl))
    as (f & Hf & _).
  destruct (json_load_top m max json length f fuel toks count Hmax Hf Hload)
    as (Htoks & Hcount).
  exists f. split; [exact Hf |]. split; [exact Htoks |].
  split; [lia |]. split.
  { rewrite (layout_indices _ f 0 (Nat.le_refl _)). f_equal. lia. }
  intros i t sib Hin.
  destruct (layout_position _ f 0 i t sib (Nat.le_refl _) Hin)
    as (pre & post & Hfl & Hi & Hsib).
  pose proof (layout_top_sub m _ f Hf 0 i t sib Hin) as Hsub.
  destruct t as [tok ks]. cbn [root kids] in *. rewrite flatten_node in *.
  cbn [Nat.add] in Hi. subst i.
  assert (Hlen : List.length (flatten_forest f)
                 = (List.length pre + S (List.length (flatten_forest ks))
                    + List.length post)%nat).
  { rewrite Hfl, !length_app. cbn [List.length]. lia. }
  split; [| split; [exact Hsub | split; [lia | split]]].
  - rewrite Htoks, store_lookup. destruct (decide _); [| lia].
    replace (Z.to_nat (Z.of_nat (List.length pre) - 0)) with (List.length pre)
      by lia.
    rewrite Hfl. rewrite lookup_app_r by lia.
    replace (List.length pre - List.length pre)%nat with O by lia. reflexivity.
  - intros k Hk. rewrite Htoks, store_lookup. destruct (decide _); [| lia].
    replace (Z.to_nat (Z.of_nat (List.length pre) + 1 + Z.of_nat k - 0))
      with (List.length pre + S k)%nat by lia.
    rewrite Hfl. rewrite lookup_app_r by lia.
    replace (List.length pre + S k - List.length pre)%nat with (S k) by lia.
    cbn [List.app]. rewrite lookup_cons.
    rewrite lookup_app_l by lia. reflexivity.
  - intros j Hjs. destruct (Hsib j Hjs) as [-> Hpost].
    cbn [List.length]. split; [lia |].
    destruct post; [contradiction |]. cbn [List.length] in Hlen. lia.
Qed.

Lemma loaded_subtrees_witness :
  subtrees_laid_out doc_padded 1000 19
    (tok_array [Token JSON_STRING 1003 1 0 0;
                Token JSON_ARRAY 1006 11 2 4;
                Token JSON_NUMBER 1007 1 0 0;
                Token JSON_OBJECT 1009 7 1 2;
                Token JSON_STRING 1011 1 0 0;
                Token JSON_NUMBER 1014 1 0 0]) 6.
Proof.
  apply (loaded_subtrees doc_padded 1000 19 7 12 _ 6
           (Iter 0 false 0 GO_STRUCT 0));
    [lia | lia | lia | | vm_compute; reflexivity].
  padded_tokenized.
Defined.

(** ** Scanning for a byte *)

Lemma nul_within (m : memory) (s : Z) :
  exists k : nat, (k < scan_fuel m)%nat /\ peek m (s + Z.of_nat k) = 0.
Proof.
  unfold scan_fuel.
  destruct (Z_lt_le_dec s (Z.pos (base m))) as [Hlt | Hge].
  - exists O. split; [lia |]. unfold peek.
    destruct (Z.ltb_spec (s + Z.of_nat 0) (Z.pos (base m))); [reflexivity | lia].
  - destruct (Z_lt_le_dec (s - Z.pos (base m)) (Z.of_nat (List.length (bytes m))))
      as [Hin | Hout].
    + exists (List.length (bytes m) - Z.to_nat (s - Z.pos (base m)))%nat.
      split; [lia |]. unfold peek.
      destruct (Z.ltb_spec (s + Z.of_nat (List.length (bytes m)
                                          - Z.to_nat (s - Z.pos (base m))))
                  (Z.pos (base m))); [reflexivity |].
      apply nth_overflow. lia.
    + exists O. split; [lia |]. unfold peek.
      destruct (Z.ltb_spec (s + Z.of_nat 0) (Z.pos (base m))); [reflexivity |].
      apply nth_overflow. lia.
Qed.

(** The loop of [json_strchr]: it stops at the first byte that is [c]
    or the terminator, or, when it counts ([dec = 1]), after [l + 1]
    bytes. *)
Lemma strchr_loop_spec (m : memory) (c dec : Z) (n : nat) :
  forall (s l : Z),
    (exists k : nat, (k < n)%nat /\ peek m (s + Z.of_nat k) = 0) ->
    (dec = 0 /\ l = 0) \/ (dec = 1 /\ -1 <= l < 2 ^ 31) ->
    exists k : nat,
      (forall i : nat, (i < k)%nat ->
                       peek m (s + Z.of_nat i) <> 0
                       /\ peek m (s + Z.of_nat i) <> c)
      /\ (dec = 1 -> Z.of_nat k <= l + 1)
      /\ match strchr_loop n m s c l dec with
         | inl p => p = s + Z.of_nat k /\ peek m p = c /\ peek m p <> 0
                    /\ (dec = 1 -> Z.of_nat k <= l)
         | inr p => p = s + Z.of_nat k
                    /\ (peek m p = 0 \/ (dec = 1 /\ Z.of_nat k = l + 1))
         end.
Proof.
  induction n as [| n IH]; intros s l (k0 & Hk0 & Hnul) Hl.
  - lia.
  - cbn [strchr_loop].
    destruct (Z.eqb_spec (peek m s) 0) as [H0 | H0]; cbn [negb andb].
    { exists O. split; [intros i Hi; lia |]. cbn [Z.of_nat].
      rewrite Z.add_0_r. split; [destruct Hl as [[? ?] | [? ?]]; lia |].
      split; [reflexivity | left; exact H0]. }
    destruct (Z.leb_spec 0 l) as [Hl0 | Hl0].
    2:{ exists O. split; [intros i Hi; lia |]. cbn [Z.of_nat].
        rewrite Z.add_0_r. split; [destruct Hl as [[? ?] | [? ?]]; lia |].
        split; [reflexivity |]. right.
        destruct Hl as [[_ ->] | [-> Hl]]; [lia | split; [reflexivity | lia]]. }
    destruct (Z.eqb_spec (peek m s) c) as [Hc | Hc].
    { exists O. split; [intros i Hi; lia |]. cbn [Z.of_nat].
      rewrite Z.add_0_r. repeat split; auto; lia. }
    destruct k0 as [| k0]; [cbn [Z.of_nat] in Hnul; rewrite Z.add_0_r in Hnul; contradiction |].
    assert (Hid : int32 (l - dec) = l - dec).
    { apply int32_id. destruct Hl as [[-> ->] | [-> Hl]]; lia. }
    rewrite Hid.
    destruct (IH (s + 1) (l - dec)) as (k & Hbefore & Hcount & Hres).
    { exists k0. split; [lia |]. rewrite <- Hnul. f_equal. lia. }
    { destruct Hl as [[-> ->] | [-> Hl]]; [left; split; lia | right; split; lia]. }
    exists (S k). split; [| split].
    + intros i Hi. destruct i as [| i].
      * cbn [Z.of_nat]. rewrite Z.add_0_r. auto.
      * replace (s + Z.of_nat (S i)) with (s + 1 + Z.of_nat i) by lia.
        apply Hbefore. lia.
    + intros Hd. specialize (Hcount Hd). lia.
    + destruct (strchr_loop n m (s + 1) c (l - dec) dec) as [p | p].
      * destruct Hres as (-> & H1 & H2 & H3).
        split; [lia |]. split; [exact H1 |]. split; [exact H2 |].
        intros Hd. specialize (H3 Hd). lia.
      * destruct Hres as (-> & H1). split; [lia |].
        destruct H1 as [H1 | [Hd H1]]; [left; exact H1 | right; split; [exact Hd | lia]].
Qed.

Lemma strchr_first_stop (m : memory) (s c l : Z) :
  s <> 0 -> l < 0 ->
  exists k : nat,
    json_strchr m s c l = s + Z.of_nat k /\ first_stop m s c k.
Proof.
  intros Hs Hl. unfold json_strchr.
  destruct (Z.ltb_spec l 0) as [_ | ?]; [| lia].
  destruct (Z.eqb_spec s 0) as [? | _]; [contradiction |].
  destruct (strchr_loop_spec m c 0 (scan_fuel m) s 0 (nul_within m s))
    as (k & Hbefore & _ & Hres); [left; split; reflexivity |].
  exists k. unfold first_stop.
  destruct (strchr_loop (scan_fuel m) m s c 0 0) as [p | p].
  - destruct Hres as (-> & H1 & _). split; [reflexivity |].
    split; [exact Hbefore | left; exact H1].
  - destruct Hres as (-> & [H1 | [H1 _]]); [| discriminate].
    split; [reflexivity |]. split; [exact Hbefore | right; exact H1].
Qed.

(** X1: json_strchr with a negative length scans a terminated string: it
    returns the address of the first occurrence of [c], or of the
    terminator when [c] does not occur; it never returns null for a
    non-null string. *)
Theorem json_strchr_unbounded (m : memory) (s c l : Z) :
  s <> 0 -> l < 0 ->
  exists k : nat,
    json_strchr m s c l = s + Z.of_nat k /\ first_stop m s c k.
Proof. intros. eapply strchr_first_stop; eassumption. Qed.

Lemma json_strchr_unbounded_witness :
  exists k : nat,
    json_strchr (doc "ab.c") 1000 (ch ".") (-1) = 1000 + Z.of_nat k
    /\ first_stop (doc "ab.c") 1000 (ch ".") k.
Proof. apply (json_strchr_unbounded (doc "ab.c") 1000 (ch ".") (-1)); lia. Defined.

Lemma strchr_counted (m : memory) (s c l : Z) :
  0 < s -> 0 <= l < 2 ^ 31 ->
  exists k : nat,
    (forall i : nat, (i < k)%nat ->
                     peek m (s + Z.of_nat i) <> 0
                     /\ peek m (s + Z.of_nat i) <> c)
    /\ Z.of_nat k <= l + 1
    /\ ((json_strchr m s c l = s + Z.of_nat k /\ Z.of_nat k <= l
         /\ peek m (s + Z.of_nat k) = c /\ c <> 0)
        \/ (json_strchr m s c l = 0
            /\ (peek m (s + Z.of_nat k) = 0 \/ Z.of_nat k = l + 1))).
Proof.
  intros Hs Hl. unfold json_strchr.
  destruct (Z.ltb_spec l 0) as [? | _]; [lia |].
  destruct (Z.eqb_spec s 0) as [? | _]; [lia |].
  destruct (strchr_loop_spec m c 1 (scan_fuel m) s l (nul_within m s))
    as (k & Hbefore & Hcount & Hres); [right; split; [reflexivity | lia] |].
  specialize (Hcount eq_refl).
  exists k. split; [exact Hbefore |]. split; [exact Hcount |].
  destruct (strchr_loop (scan_fuel m) m s c l 1) as [p | p].
  - destruct Hres as (-> & H1 & H2 & H3). specialize (H3 eq_refl).
    left. repeat split; try assumption. congruence.
  - destruct Hres as (-> & H1). right. split; [reflexivity |].
    destruct H1 as [H1 | [_ H1]]; [left | right]; assumption.
Qed.

(** X2: json_strchr with a length [l >= 0] looks at no more than [l + 1]
    bytes and never past a terminator: a non-null result is the first
    occurrence of [c], at an offset of at most [l]; a null result means
    that [c] occurs neither before the first terminator nor among the
    first [l + 1] bytes. *)
Theorem json_strchr_bounded (m : memory) (s c l : Z) :
  0 < s -> 0 <= l < 2 ^ 31 ->
  exists k : nat,
    (forall i : nat, (i < k)%nat ->
                     peek m (s + Z.of_nat i) <> 0
                     /\ peek m (s + Z.of_nat i) <> c)
    /\ Z.of_nat k <= l + 1
    /\ ((json_strchr m s c l = s + Z.of_nat k /\ Z.of_nat k <= l
         /\ peek m (s + Z.of_nat k) = c /\ c <> 0)
        \/ (json_strchr m s c l = 0
            /\ (peek m (s + Z.of_nat k) = 0 \/ Z.of_nat k = l + 1))).
Proof. intros. eapply strchr_counted; eassumption. Qed.

Lemma json_strchr_bounded_witness :
  exists k : nat,
    (forall i : nat, (i < k)%nat ->
                     peek (doc "ab[1]") (1000 + Z.of_nat i) <> 0
                     /\ peek (doc "ab[1]") (1000 + Z.of_nat i) <> ch "[")
    /\ Z.of_nat k <= 5 + 1
    /\ ((json_strchr (doc "ab[1]") 1000 (ch "[") 5 = 1000 + Z.of_nat k
         /\ Z.of_nat k <= 5
         /\ peek (doc "ab[1]") (1000 + Z.of_nat k) = ch "[" /\ ch "[" <> 0)
        \/ (json_strchr (doc "ab[1]") 1000 (ch "[") 5 = 0
            /\ (peek (doc "ab[1]") (1000 + Z.of_nat k) = 0
                \/ Z.of_nat k = 5 + 1))).
Proof. apply (json_strchr_bounded (doc "ab[1]") 1000 (ch "[") 5); lia. Defined.

(** Two scans from the same address: the one whose stop byte comes
    first is no longer than the other. *)
Lemma first_stop_le (m : memory) (s c : Z) (k j : nat) :
  first_stop m s c k ->
  (peek m (s + Z.of_nat j) = c \/ peek m (s + Z.of_nat j) = 0) ->
  (k <= j)%nat.
Proof.
  intros [Hbefore _] Hj.
  destruct (le_lt_dec k j) as [? | Hlt]; [assumption |].
  destruct (Hbefore j Hlt) as [H0 Hc]. destruct Hj; contradiction.
Qed.

Lemma parse_name_segment (m : memory) (tok : json_token)
    (path delimiter : Z) (k : nat) :
  0 < path -> peek m path <> 0 -> peek m path <> ch "[" ->
  delimiter <> ch "[" -> Z.of_nat k < 2 ^ 31 ->
  segment_end m path delimiter k ->
  json_path_parse_name m tok path delimiter
  = (set_len (Z.of_nat k) (set_str path tok),
     if peek m (path + Z.of_nat k) =? 0 then 0
     else if peek m (path + Z.of_nat k) =? ch "[" then path + Z.of_nat k
          else path + Z.of_nat k + 1).
Proof.
  intros Hp Hnz Hnb Hdel Hk [Hbefore Hat].
  unfold json_path_parse_name.
  assert (Hp' : path <> 0) by lia.
  destruct (Z.eqb_spec path 0) as [? | _]; [contradiction |].
  destruct (Z.eqb_spec (peek m path) 0) as [? | _]; [contradiction |].
  cbn [orb]. cbn [str set_str].
  destruct (strchr_first_stop m path delimiter (-1) Hp' ltac:(lia))
    as (kd & -> & Hd).
  destruct (strchr_first_stop m path (ch "[") (-1) Hp' ltac:(lia))
    as (kb & -> & Hb).
  destruct (strchr_first_stop m path (ch "]") (-1) Hp' ltac:(lia))
    as (ke & -> & He).
  assert (Hkb0 : kb <> O).
  { intros ->. destruct Hb as [_ Hb]. cbn [Z.of_nat] in Hb.
    rewrite Z.add_0_r in Hb. destruct Hb; contradiction. }
  destruct (Z.eqb_spec (path + Z.of_nat kb) path) as [? | _]; [lia |].
  rewrite !andb_false_r.
  (* k is the smaller of the two scans *)
  assert (Hkd : (k <= kd)%nat).
  { destruct (le_lt_dec k kd) as [? | Hlt]; [assumption |].
    destruct (Hbefore kd Hlt) as (H0 & H1 & _).
    destruct Hd as [_ [Hd | Hd]]; contradiction. }
  assert (Hkb : (k <= kb)%nat).
  { destruct (le_lt_dec k kb) as [? | Hlt]; [assumption |].
    destruct (Hbefore kb Hlt) as (H0 & _ & H1).
    destruct Hb as [_ [Hb | Hb]]; contradiction. }
  destruct Hat as [Hat | [Hat | Hat]].
  - (* terminator *)
    assert (kd = k) by (apply Nat.le_antisymm;
                        [apply (first_stop_le m path delimiter); auto | auto]).
    assert (kb = k) by (apply Nat.le_antisymm;
                        [apply (first_stop_le m path (ch "[")); auto | auto]).
    subst kd kb. rewrite Z.ltb_irrefl.
    destruct (Z.eqb_spec (path + Z.of_nat k) 0) as [? | _]; [lia |].
    rewrite Hat. cbn [Z.eqb].
    replace (path + Z.of_nat k - path) with (Z.of_nat k) by lia.
    rewrite int32_id by lia. reflexivity.
  - (* delimiter *)
    assert (kd = k) by (apply Nat.le_antisymm;
                        [apply (first_stop_le m path delimiter); auto | auto]).
    subst kd.
    destruct (Z.ltb_spec (path + Z.of_nat kb) (path + Z.of_nat k)) as [? | _];
      [lia |].
    destruct (Z.eqb_spec (path + Z.of_nat k) 0) as [? | _]; [lia |].
    replace (path + Z.of_nat k - path) with (Z.of_nat k) by lia.
    rewrite int32_id by lia.
    destruct (Z.eqb_spec (peek m (path + Z.of_nat k)) 0) as [H0 | H0];
      [reflexivity |].
    destruct (Z.eqb_spec (peek m (path + Z.of_nat k)) (ch "[")) as [H1 | H1];
      [congruence | reflexivity].
  - (* opening bracket *)
    assert (kb = k) by (apply Nat.le_antisymm;
                        [apply (first_stop_le m path (ch "[")); auto | auto]).
    subst kb.
    assert (Hlt : (k < kd)%nat).
    { destruct (Nat.eq_dec k kd) as [-> | ?]; [| lia].
      destruct Hd as [_ [Hd | Hd]]; [congruence |].
      rewrite Hd in Hat. revert Hat. vm_compute. discriminate. }
    destruct (Z.ltb_spec (path + Z.of_nat k) (path + Z.of_nat kd)) as [_ | ?];
      [| lia].
    replace (path + Z.of_nat k - path) with (Z.of_nat k) by lia.
    rewrite int32_id by lia. rewrite Hat.
    replace (ch "[" =? 0) with false by (vm_compute; reflexivity).
    rewrite Z.eqb_refl. reflexivity.
Qed.

(** X3: json_path_parse_name on a path that starts with a name: the token
    is the name, up to the first delimiter, opening bracket or
    terminator; the returned rest of the path is null at the
    terminator, starts at the bracket, or starts after the delimiter. *)
Theorem json_path_parse_name_segment (m : memory) (tok : json_token)
    (path delimiter : Z) (k : nat) :
  0 < path -> peek m path <> 0 -> peek m path <> ch "[" ->
  delimiter <> ch "[" -> Z.of_nat k < 2 ^ 31 ->
  segment_end m path delimiter k ->
  json_path_parse_name m tok path delimiter
  = (set_len (Z.of_nat k) (set_str path tok),
     if peek m (path + Z.of_nat k) =? 0 then 0
     else if peek m (path + Z.of_nat k) =? ch "[" then path + Z.of_nat k
          else path + Z.of_nat k + 1).
Proof. intros. eapply parse_name_segment; eassumption. Qed.

Lemma json_path_parse_name_segment_witness :
  json_path_parse_name (doc "ab.c") JSON_TOKEN_NULL 1000 JSON_DELIMITER
  = (set_len (Z.of_nat 2) (set_str 1000 JSON_TOKEN_NULL),
     if peek (doc "ab.c") (1000 + Z.of_nat 2) =? 0 then 0
     else if peek (doc "ab.c") (1000 + Z.of_nat 2) =? ch "["
          then 1000 + Z.of_nat 2
          else 1000 + Z.of_nat 2 + 1).
Proof.
  apply (json_path_parse_name_segment (doc "ab.c") JSON_TOKEN_NULL 1000
           JSON_DELIMITER 2);
    [lia | vm_compute; discriminate | vm_compute; discriminate
    | vm_compute; discriminate | cbn; lia |].
  split.
  - intros i Hi.
    destruct i as [| [| i]]; [| | lia];
      (split; [vm_compute; discriminate
              | split; vm_compute; discriminate]).
  - right. left. vm_compute. reflexivity.
Defined.

(** X4: json_path_parse_array succeeds only on a segment that holds a
    bracket pair before its end, and then the array token is exactly
    the text between the brackets: it lies inside the segment. *)
Theorem json_path_parse_array_sound (m : memory) (array token a : json_token) :
  0 < str token -> 0 <= len token < 2 ^ 31 ->
  json_path_parse_array m array token = (true, a) ->
  exists b e : nat,
    bracket_pair m (str token) b e
    /\ Z.of_nat e < len token
    /\ a = Token (type array) (str token + Z.of_nat b + 1)
             (Z.of_nat e - Z.of_nat b - 1) (children array) (sub array).
Proof.
  intros Hs Hl. unfold json_path_parse_array. cbn [str set_str].
  destruct (strchr_counted m (str token) (ch "[") (len token) Hs Hl)
    as (b & Hb1 & Hb2 & [(Hb3 & Hb4 & Hb5 & _) | (Hb3 & _)]);
    rewrite Hb3; [| cbn [Z.eqb orb]; discriminate].
  destruct (Z.eqb_spec (str token + Z.of_nat b) 0) as [? | _]; [lia |].
  replace (str token + Z.of_nat b - str token) with (Z.of_nat b) by lia.
  rewrite (int32_id (Z.of_nat b)) by lia. cbn [orb].
  destruct (Z.leb_spec (len token) (Z.of_nat b)) as [? | Hbl]; [discriminate |].
  rewrite (int32_id (len token - Z.of_nat b)) by lia.
  destruct (strchr_counted m (str token + Z.of_nat b) (ch "]")
              (len token - Z.of_nat b) ltac:(lia) ltac:(lia))
    as (k & Hk1 & Hk2 & [(Hk3 & Hk4 & Hk5 & _) | (Hk3 & _)]);
    rewrite Hk3; [| cbn [Z.eqb orb]; discriminate].
  destruct (Z.eqb_spec (str token + Z.of_nat b + Z.of_nat k) 0) as [? | _];
    [lia |].
  replace (str token + Z.of_nat b + Z.of_nat k - str token)
    with (Z.of_nat b + Z.of_nat k) by lia.
  rewrite (int32_id (Z.of_nat b + Z.of_nat k)) by lia. cbn [orb].
  destruct (Z.leb_spec (len token) (Z.of_nat b + Z.of_nat k)) as [? | Hel];
    [discriminate |].
  assert (Hk0 : k <> O).
  { intros ->. cbn [Z.of_nat] in Hk5. rewrite Z.add_0_r in Hk5.
    rewrite Hb5 in Hk5. revert Hk5. vm_compute. discriminate. }
  intros Heq. injection Heq as <-.
  exists b, (b + k)%nat. split; [| split].
  - unfold bracket_pair. split; [lia |]. split; [exact Hb5 |].
    split; [rewrite Nat2Z.inj_add, Z.add_assoc; exact Hk5 |].
    split; [| split].
    + intros i Hi. destruct (le_lt_dec b i) as [Hge | Hlt].
      * replace (str token + Z.of_nat i)
          with (str token + Z.of_nat b + Z.of_nat (i - b)) by lia.
        apply Hk1. lia.
      * apply Hb1. exact Hlt.
    + intros i Hi. apply Hb1. exact Hi.
    + intros i Hi.
      replace (str token + Z.of_nat i)
        with (str token + Z.of_nat b + Z.of_nat (i - b)) by lia.
      apply Hk1. lia.
  - lia.
  - unfold set_len, set_str. cbn [type str len children sub].
    rewrite int32_id by lia. f_equal; lia.
Qed.

Lemma json_path_parse_array_sound_witness :
  exists b e : nat,
    bracket_pair (doc "ab[12]") 1000 b e
    /\ Z.of_nat e < 6
    /\ Token JSON_NONE 1003 2 0 0
       = Token JSON_NONE (1000 + Z.of_nat b + 1)
           (Z.of_nat e - Z.of_nat b - 1) 0 0.
Proof.
  apply (json_path_parse_array_sound (doc "ab[12]") JSON_TOKEN_NULL
           (Token JSON_NONE 1000 6 0 0) (Token JSON_NONE 1003 2 0 0));
    [cbn; lia | cbn; lia | vm_compute; reflexivity].
Defined.

Lemma parse_array_accepts (m : memory) (array token : json_token)
    (b e : nat) :
  0 < str token -> 0 <= len token < 2 ^ 31 ->
  bracket_pair m (str token) b e -> Z.of_nat e < len token ->
  json_path_parse_array m array token
  = (true, Token (type array) (str token + Z.of_nat b + 1)
             (Z.of_nat e - Z.of_nat b - 1) (children array) (sub array)).
Proof.
  intros Hs Hl (Hbe & Hb & He & Hnul & Hfirst & Hclose) Hel.
  unfold json_path_parse_array. cbn [str set_str].
  assert (Hbr : ch "[" <> ch "]") by (vm_compute; discriminate).
  destruct (strchr_counted m (str token) (ch "[") (len token) Hs Hl)
    as (b' & Hb1 & Hb2 & Hcase).
  assert (Hb' : b' = b).
  { destruct (lt_eq_lt_dec b' b) as [[Hlt | Heq] | Hgt]; [| exact Heq |].
    - exfalso. destruct Hcase as [(_ & _ & Hc & _) | (_ & [Hc | Hc])].
      + exact (Hfirst b' Hlt Hc).
      + apply (Hnul b'); [lia | exact Hc].
      + lia.
    - exfalso. destruct (Hb1 b Hgt) as [_ Hc]. contradiction. }
  subst b'.
  destruct Hcase as [(Hb3 & _) | (_ & [Hc | Hc])];
    [| exfalso; apply (Hnul b); [lia | exact Hc] | lia].
  rewrite Hb3.
  destruct (Z.eqb_spec (str token + Z.of_nat b) 0) as [? | _]; [lia |].
  replace (str token + Z.of_nat b - str token) with (Z.of_nat b) by lia.
  rewrite (int32_id (Z.of_nat b)) by lia. cbn [orb].
  destruct (Z.leb_spec (len token) (Z.of_nat b)) as [? | _]; [lia |].
  rewrite (int32_id (len token - Z.of_nat b)) by lia.
  destruct (strchr_counted m (str token + Z.of_nat b) (ch "]")
              (len token - Z.of_nat b) ltac:(lia) ltac:(lia))
    as (k & Hk1 & Hk2 & Hcase).
  assert (Hk : k = (e - b)%nat).
  { destruct (lt_eq_lt_dec k (e - b)) as [[Hlt | Heq] | Hgt]; [| exact Heq |].
    - exfalso. destruct Hcase as [(_ & _ & Hc & _) | (_ & [Hc | Hc])].
      + apply (Hclose (b + k)%nat); [lia |].
        rewrite Nat2Z.inj_add, Z.add_assoc. exact Hc.
      + apply (Hnul (b + k)%nat); [lia |].
        rewrite Nat2Z.inj_add, Z.add_assoc. exact Hc.
      + lia.
    - exfalso. destruct (Hk1 (e - b)%nat Hgt) as [_ Hc]. apply Hc.
      rewrite <- He. f_equal. lia. }
  subst k.
  destruct Hcase as [(Hk3 & _) | (_ & [Hc | Hc])].
  - rewrite Hk3.
    destruct (Z.eqb_spec (str token + Z.of_nat b + Z.of_nat (e - b)) 0)
      as [? | _]; [lia |].
    replace (str token + Z.of_nat b + Z.of_nat (e - b) - str token)
      with (Z.of_nat e) by lia.
    rewrite (int32_id (Z.of_nat e)) by lia. cbn [orb].
    destruct (Z.leb_spec (len token) (Z.of_nat e)) as [? | _]; [lia |].
    unfold set_len, set_str. cbn [type str len children sub].
    rewrite int32_id by lia. do 2 f_equal. lia.
  - exfalso. revert Hc.
    replace (str token + Z.of_nat b + Z.of_nat (e - b))
      with (str token + Z.of_nat e) by lia.
    rewrite He. vm_compute. discriminate.
  - lia.
Qed.

(** X5: json_path_parse_array accepts every segment that holds a bracket
    pair before its end, with the text between the brackets as the
    array token. *)
Theorem json_path_parse_array_complete (m : memory) (array token : json_token)
    (b e : nat) :
  0 < str token -> 0 <= len token < 2 ^ 31 ->
  bracket_pair m (str token) b e -> Z.of_nat e < len token ->
  json_path_parse_array m array token
  = (true, Token (type array) (str token + Z.of_nat b + 1)
             (Z.of_nat e - Z.of_nat b - 1) (children array) (sub array)).
Proof. intros. eapply parse_array_accepts; eassumption. Qed.

Lemma json_path_parse_array_complete_witness :
  json_path_parse_array (doc "ab[12]") JSON_TOKEN_NULL
    (Token JSON_NONE 1000 6 0 0)
  = (true, Token JSON_NONE (1000 + Z.of_nat 2 + 1)
             (Z.of_nat 5 - Z.of_nat 2 - 1) 0 0).
Proof.
  apply (json_path_parse_array_complete (doc "ab[12]") JSON_TOKEN_NULL
           (Token JSON_NONE 1000 6 0 0) 2 5);
    [cbn; lia | cbn; lia | | cbn; lia].
  unfold bracket_pair. cbn [str].
  split; [lia |]. split; [vm_compute; reflexivity |].
  split; [vm_compute; reflexivity |]. split; [| split].
  - intros i Hi.
    destruct i as [| [| [| [| [| i]]]]]; [| | | | | lia];
      vm_compute; discriminate.
  - intros i Hi. destruct i as [| [| i]]; [| | lia]; vm_compute; discriminate.
  - intros i Hi.
    destruct i as [| [| [| [| [| i]]]]]; try lia; vm_compute; discriminate.
Defined.

Lemma parse_index (m : memory) (tok array : json_token)
    (path delimiter : Z) (e : nat) :
  0 < path -> peek m path = ch "[" -> Z.of_nat e + 1 < 2 ^ 31 ->
  first_stop m path (ch "]") e ->
  json_path_parse_name m tok path delimiter
  = (set_len (Z.of_nat e + 1) (set_str path tok),
     if peek m (path + Z.of_nat e + 1) =? 0 then 0
     else if peek m (path + Z.of_nat e + 1) =? ch "."
          then path + Z.of_nat e + 2
          else path + Z.of_nat e + 1)
  /\ (peek m (path + Z.of_nat e) = ch "]" ->
      json_path_parse_array m array
        (set_len (Z.of_nat e + 1) (set_str path tok))
      = (true, Token (type array) (path + 1) (Z.of_nat e - 1)
                 (children array) (sub array))).
Proof.
  intros Hp Hopen He Hstop.
  assert (Hp' : path <> 0) by lia.
  assert (Hnz : ch "[" <> 0) by (vm_compute; discriminate).
  assert (Hbr : ch "[" <> ch "]") by (vm_compute; discriminate).
  split.
  - unfold json_path_parse_name.
    destruct (Z.eqb_spec path 0) as [? | _]; [contradiction |].
    destruct (Z.eqb_spec (peek m path) 0) as [? | _]; [congruence |].
    cbn [orb str set_str].
    destruct (strchr_first_stop m path (ch "[") (-1) Hp' ltac:(lia))
      as (kb & Hkb & Hb).
    assert (kb = O).
    { apply Nat.le_0_r. apply (first_stop_le m path (ch "[")); [exact Hb |].
      left. cbn [Z.of_nat]. rewrite Z.add_0_r. exact Hopen. }
    subst kb. cbn [Z.of_nat] in Hkb. rewrite Z.add_0_r in Hkb. rewrite Hkb.
    destruct (strchr_first_stop m path (ch "]") (-1) Hp' ltac:(lia))
      as (ke & Hke & Hee).
    assert (ke = e).
    { apply Nat.le_antisymm.
      - apply (first_stop_le m path (ch "]")); [exact Hee | apply Hstop].
      - apply (first_stop_le m path (ch "]")); [exact Hstop | apply Hee]. }
    subst ke. rewrite Hke.
    destruct (Z.eqb_spec path 0) as [? | _]; [contradiction |].
    destruct (Z.eqb_spec (path + Z.of_nat e) 0) as [? | _]; [lia |].
    rewrite Z.eqb_refl. cbn [negb andb].
    replace (path + Z.of_nat e - path) with (Z.of_nat e) by lia.
    rewrite (int32_id (Z.of_nat e)) by lia. rewrite int32_id by lia.
    replace (path + Z.of_nat e + 2) with (path + Z.of_nat e + 1 + 1) by lia.
    destruct (peek m (path + Z.of_nat e + 1) =? 0); [reflexivity |].
    destruct (peek m (path + Z.of_nat e + 1) =? ch "."); reflexivity.
  - intros Hclose.
    assert (He0 : e <> O).
    { intros ->. cbn [Z.of_nat] in Hclose. rewrite Z.add_0_r in Hclose.
      congruence. }
    rewrite (parse_array_accepts m array
               (set_len (Z.of_nat e + 1) (set_str path tok)) 0 e).
    + cbn [str len type children sub set_len set_str Z.of_nat].
      do 2 f_equal; lia.
    + cbn [str set_len set_str]. exact Hp.
    + cbn [len set_len set_str]. lia.
    + cbn [str set_len set_str]. destruct Hstop as [Hbefore _].
      unfold bracket_pair. split; [lia |].
      split; [cbn [Z.of_nat]; rewrite Z.add_0_r; exact Hopen |].
      split; [exact Hclose |]. split; [| split].
      * intros i Hi. apply Hbefore. exact Hi.
      * intros i Hi. lia.
      * intros i Hi. apply Hbefore. lia.
    + cbn [len set_len set_str]. lia.
Qed.

(** X6: json_path_parse_name on a path that starts with an index: the token
    runs from the opening bracket to the first closing bracket (or
    terminator), both included, and when the bracket is closed
    json_path_parse_array extracts from it the text between the
    brackets. *)
Theorem json_path_parse_index (m : memory) (tok array : json_token)
    (path delimiter : Z) (e : nat) :
  0 < path -> peek m path = ch "[" -> Z.of_nat e + 1 < 2 ^ 31 ->
  first_stop m path (ch "]") e ->
  json_path_parse_name m tok path delimiter
  = (set_len (Z.of_nat e + 1) (set_str path tok),
     if peek m (path + Z.of_nat e + 1) =? 0 then 0
     else if peek m (path + Z.of_nat e + 1) =? ch "."
          then path + Z.of_nat e + 2
          else path + Z.of_nat e + 1)
  /\ (peek m (path + Z.of_nat e) = ch "]" ->
      json_path_parse_array m array
        (set_len (Z.of_nat e + 1) (set_str path tok))
      = (true, Token (type array) (path + 1) (Z.of_nat e - 1)
                 (children array) (sub array))).
Proof. intros. eapply parse_index; eassumption. Qed.

Lemma json_path_parse_index_witness :
  json_path_parse_name (doc "[12].a") JSON_TOKEN_NULL 1000 JSON_DELIMITER
  = (set_len (Z.of_nat 3 + 1) (set_str 1000 JSON_TOKEN_NULL),
     if peek (doc "[12].a") (1000 + Z.of_nat 3 + 1) =? 0 then 0
     else if peek (doc "[12].a") (1000 + Z.of_nat 3 + 1) =? ch "."
          then 1000 + Z.of_nat 3 + 2
          else 1000 + Z.of_nat 3 + 1)
  /\ (peek (doc "[12].a") (1000 + Z.of_nat 3) = ch "]" ->
      json_path_parse_array (doc "[12].a") JSON_TOKEN_NULL
        (set_len (Z.of_nat 3 + 1) (set_str 1000 JSON_TOKEN_NULL))
      = (true, Token (type JSON_TOKEN_NULL) (1000 + 1) (Z.of_nat 3 - 1)
                 (children JSON_TOKEN_NULL) (sub JSON_TOKEN_NULL))).
Proof.
  apply (json_path_parse_index (doc "[12].a") JSON_TOKEN_NULL JSON_TOKEN_NULL
           1000 JSON_DELIMITER 3);
    [lia | vm_compute; reflexivity | cbn; lia |].
  split.
  - intros i Hi.
    destruct i as [| [| [| i]]]; [| | | lia];
      (split; vm_compute; discriminate).
  - left. vm_compute. reflexivity.
Defined.

Lemma cmp_loop_spec (m : memory) (tok : json_token) :
  len tok < 2 ^ 31 ->
  forall (n i : nat) (s : Z) (l : nat),
    (Z.to_nat (len tok) - i < n)%nat ->
    strlen m s l ->
    (cmp_loop n m tok (Z.of_nat i) s = 0
     /\ (forall k : nat, Z.of_nat (i + k) < len tok -> (k < l)%nat ->
                         peek m (str tok + Z.of_nat (i + k))
                         = peek m (s + Z.of_nat k)))
    \/ (cmp_loop n m tok (Z.of_nat i) s = 1
        /\ exists k : nat, Z.of_nat (i + k) < len tok /\ (k < l)%nat
                           /\ peek m (str tok + Z.of_nat (i + k))
                              <> peek m (s + Z.of_nat k)).
Proof.
  intros Hlen. induction n as [| n IH]; intros i s l Hn [Hnz Hend]; [lia |].
  cbn [cmp_loop].
  destruct (Z.ltb_spec (Z.of_nat i) (len tok)) as [Hi | Hi]; cbn [andb].
  2:{ left. split; [reflexivity |]. intros k Hk. lia. }
  destruct (Z.eqb_spec (peek m s) 0) as [H0 | H0]; cbn [negb].
  { left. split; [reflexivity |]. intros k Hk Hkl.
    destruct l as [| l]; [lia |].
    exfalso. apply (Hnz O); [lia |]. cbn [Z.of_nat]. rewrite Z.add_0_r.
    exact H0. }
  destruct l as [| l].
  { exfalso. cbn [Z.of_nat] in Hend. rewrite Z.add_0_r in Hend. contradiction. }
  destruct (Z.eqb_spec (peek m (str tok + Z.of_nat i)) (peek m s)) as [He | He];
    cbn [negb].
  2:{ right. split; [reflexivity |]. exists O. rewrite Nat.add_0_r.
      cbn [Z.of_nat]. rewrite Z.add_0_r. repeat split; [lia | lia | exact He]. }
  rewrite int32_id by lia.
  replace (Z.of_nat i + 1) with (Z.of_nat (S i)) by lia.
  destruct (IH (S i) (s + 1) l) as [[Hr Hall] | [Hr (k & Hk1 & Hk2 & Hk3)]].
  - lia.
  - split.
    + intros j Hj. replace (s + 1 + Z.of_nat j) with (s + Z.of_nat (S j)) by lia.
      apply Hnz. lia.
    + rewrite <- Hend. f_equal. lia.
  - left. split; [exact Hr |]. intros k Hk Hkl. destruct k as [| k].
    + rewrite Nat.add_0_r. cbn [Z.of_nat]. rewrite Z.add_0_r. exact He.
    + replace (i + S k)%nat with (S i + k)%nat by lia.
      replace (s + Z.of_nat (S k)) with (s + 1 + Z.of_nat k) by lia.
      apply Hall; lia.
  - right. split; [exact Hr |]. exists (S k).
    replace (i + S k)%nat with (S i + k)%nat by lia.
    replace (s + Z.of_nat (S k)) with (s + 1 + Z.of_nat k) by lia.
    repeat split; [lia | lia | exact Hk3].
Qed.

Lemma cmp_prefix (m : memory) (tok : json_token) (s : Z) (l : nat) :
  s <> 0 -> len tok < 2 ^ 31 -> strlen m s l ->
  (json_cmp m tok s = 0 \/ json_cmp m tok s = 1)
  /\ (json_cmp m tok s = 0
      <-> agree m tok s (Z.min (len tok) (Z.of_nat l))).
Proof.
  intros Hs Hlen Hl. unfold json_cmp.
  destruct (Z.eqb_spec s 0) as [? | _]; [contradiction |].
  destruct (cmp_loop_spec m tok Hlen (S (Z.to_nat (len tok))) 0 s l
              ltac:(lia) Hl) as [[Hr Hall] | [Hr (k & Hk1 & Hk2 & Hk3)]];
    change (Z.of_nat 0) with 0 in Hr; rewrite Hr.
  - split; [left; reflexivity |]. split; [| reflexivity].
    intros _ i Hi. apply (Hall i); lia.
  - split; [right; reflexivity |]. split; [discriminate |].
    intros Hag. exfalso. apply Hk3. apply (Hag k). cbn [Nat.add] in Hk1. lia.
Qed.

(** X7: json_cmp compares only up to the shorter of the token and the
    string: it returns 0 exactly when the two agree on their first
    [min (tok->len, strlen (str))] bytes, and 1 otherwise.  A token
    thus compares equal to every prefix of its text and to every
    string that it is a prefix of. *)
Theorem json_cmp_prefix (m : memory) (tok : json_token) (s : Z) (l : nat) :
  s <> 0 -> len tok < 2 ^ 31 -> strlen m s l ->
  (json_cmp m tok s = 0 \/ json_cmp m tok s = 1)
  /\ (json_cmp m tok s = 0
      <-> agree m tok s (Z.min (len tok) (Z.of_nat l))).
Proof. intros. eapply cmp_prefix; eassumption. Qed.

Lemma json_cmp_prefix_witness :
  (json_cmp (doc_path "abc" "ab") (Token JSON_STRING 1000 3 0 0) 1004 = 0
   \/ json_cmp (doc_path "abc" "ab") (Token JSON_STRING 1000 3 0 0) 1004 = 1)
  /\ (json_cmp (doc_path "abc" "ab") (Token JSON_STRING 1000 3 0 0) 1004 = 0
      <-> agree (doc_path "abc" "ab") (Token JSON_STRING 1000 3 0 0) 1004
            (Z.min (len (Token JSON_STRING 1000 3 0 0)) (Z.of_nat 2))).
Proof.
  apply (json_cmp_prefix (doc_path "abc" "ab") (Token JSON_STRING 1000 3 0 0)
           1004 2); [lia | cbn; lia |].
  split.
  - intros i Hi. destruct i as [| [| i]]; [| | lia]; vm_compute; discriminate.
  - vm_compute. reflexivity.
Defined.

(** json_lcmp returns 0 exactly when the string and its length are not
    null and the token agrees with the string on the first
    [min (tok->len, len)] bytes. *)
Lemma json_lcmp_spec (m : memory) (tok : json_token) (s l : Z) :
  (json_lcmp m tok s l = 0 \/ json_lcmp m tok s l = 1)
  /\ (json_lcmp m tok s l = 0
      <-> s <> 0 /\ l <> 0 /\ agree m tok s (Z.min (len tok) l)).
Proof.
  unfold json_lcmp.
  destruct (Z.eqb_spec s 0) as [Hs | Hs]; cbn [orb].
  { split; [right; reflexivity |]. split; [discriminate | tauto]. }
  destruct (Z.eqb_spec l 0) as [Hl | Hl].
  { split; [right; reflexivity |]. split; [discriminate | tauto]. }
  destruct (forallb _ _) eqn:Hall.
  - split; [left; reflexivity |]. split; [| reflexivity]. intros _.
    split; [exact Hs |]. split; [exact Hl |]. intros i Hi.
    rewrite forallb_forall in Hall. apply Z.eqb_eq. apply Hall.
    apply in_seq. lia.
  - split; [right; reflexivity |]. split; [discriminate |].
    intros (_ & _ & Hag). exfalso.
    assert (Ht : forallb
                   (fun i => peek m (str tok + Z.of_nat i)
                             =? peek m (s + Z.of_nat i))
                   (seq 0 (Z.to_nat (Z.min (len tok) l))) = true).
    { apply forallb_forall. intros i Hi. apply in_seq in Hi.
      apply Z.eqb_eq. apply Hag. lia. }
    congruence.
Qed.

(** X8: The comparison that json_query uses, json_lcmp with the length of
    the name, gives the result of json_cmp on the terminated name,
    except for the empty name, which json_lcmp rejects and json_cmp
    accepts. *)
Theorem json_lcmp_is_json_cmp (m : memory) (tok : json_token) (s : Z)
    (l : nat) :
  s <> 0 -> len tok < 2 ^ 31 -> strlen m s l ->
  json_lcmp m tok s (Z.of_nat l)
  = if (l =? 0)%nat then 1 else json_cmp m tok s.
Proof.
  intros Hs Hlen Hl.
  destruct (cmp_prefix m tok s l Hs Hlen Hl) as [Hc01 Hc].
  destruct (json_lcmp_spec m tok s (Z.of_nat l)) as [Hl01 Hlc].
  destruct (Nat.eqb_spec l 0) as [-> | Hl0].
  - destruct Hl01 as [H0 | H1]; [| exact H1].
    apply Hlc in H0. cbn in H0. tauto.
  - destruct Hc01 as [H0 | H1].
    + rewrite H0. apply Hlc. split; [exact Hs |]. split; [lia |].
      apply Hc. exact H0.
    + rewrite H1. destruct Hl01 as [H0 | H1']; [| exact H1'].
      exfalso. apply Hlc in H0. destruct H0 as (_ & _ & Hag).
      apply Hc in Hag. congruence.
Qed.

Lemma json_lcmp_is_json_cmp_witness :
  json_lcmp (doc_path "abc" "ab") (Token JSON_STRING 1000 3 0 0) 1004
    (Z.of_nat 2)
  = if (2 =? 0)%nat then 1
    else json_cmp (doc_path "abc" "ab") (Token JSON_STRING 1000 3 0 0) 1004.
Proof.
  apply (json_lcmp_is_json_cmp (doc_path "abc" "ab")
           (Token JSON_STRING 1000 3 0 0) 1004 2); [lia | cbn; lia |].
  split.
  - intros i Hi. destruct i as [| [| i]]; [| | lia]; vm_compute; discriminate.
  - vm_compute. reflexivity.
Defined.

Lemma finish_token_span (m : memory) (obj : json_token) (lo hi : Z) :
  lo <= str obj -> 0 <= len obj < 2 ^ 31 -> str obj + len obj <= hi ->
  type (finish_token m obj) <> JSON_NONE ->
  lo <= str (finish_token m obj) /\ 0 <= len (finish_token m obj)
  /\ str (finish_token m obj) + len (finish_token m obj) <= hi
  /\ lo < str (finish_token m obj) + len (finish_token m obj).
Proof.
  intros Hs Hl Hb. unfold finish_token.
  assert (Hlen : json_type m obj <> JSON_NONE -> len obj <> 0).
  { unfold json_type. destruct (str obj =? 0); cbn [orb]; [congruence |].
    destruct (Z.eqb_spec (len obj) 0); [congruence | auto]. }
  destruct (type_eqb (json_type m obj) JSON_STRING) eqn:Hty;
    cbn [type str len].
  2:{ intros Hne. specialize (Hlen Hne). lia. }
  assert (Hne : json_type m obj <> JSON_NONE).
  { destruct (json_type m obj); try discriminate. }
  specialize (Hlen Hne).
  unfold json_deq. cbn [type str len children sub].
  destruct (Z.leb_spec 2 (len obj)) as [H2 | H2];
    destruct (peek m (str obj) =? DQUOTE); cbn [andb type str len];
    intros _; try lia.
  rewrite int32_id by lia. lia.
Qed.

Lemma read_end_within (m : memory) (src0 len0 : Z) (s : read_state) :
  len0 < 2 ^ 31 -> read_inv src0 len0 s ->
  exists it tok, read_end m s = Return it tok /\ read_ok src0 len0 it tok.
Proof.
  destruct s as [[il er d g sr] [ty st ln chn su] cur rl ut c].
  intros Hlen (Hsrc & Hil & Hcur & Hl & Hsum & Hstr & Hty).
  cbn in Hsrc, Hil, Hcur, Hl, Hsum, Hstr, Hty. subst sr il ty.
  unfold read_end. cbn [r_iter r_obj r_cur r_c depth str].
  destruct (d =? 0).
  - destruct (Z.eqb_spec st 0) as [-> | Hst]; cbn [negb].
    + eexists _, _. split; [reflexivity |].
      split; [left; split; reflexivity |]. cbn. congruence.
    + eexists _, _. split; [reflexivity |].
      split; [left; split; reflexivity |].
      destruct Hstr as [? | Hstr]; [contradiction |].
      intros Hne. split; [| left; reflexivity].
      match type of Hne with
      | type (finish_token m ?o) <> _ =>
          destruct (finish_token_span m o src0 (src0 + len0))
            as (H1 & H2 & H3 & _);
          [ cbn [type str len children sub set_len]; lia
          | cbn [type str len children sub set_len]; destruct (c =? ch "}");
            rewrite int32_id by lia; lia
          | cbn [type str len children sub set_len]; destruct (c =? ch "}");
            rewrite int32_id by lia; lia
          | exact Hne |]
      end.
      unfold token_within. lia.
  - eexists _, _. split; [reflexivity |].
    split; [right; cbn; lia |]. cbn. congruence.
Qed.

Ltac inv_fields :=
  try unfold count_nested;
  cbn [r_iter r_obj r_cur r_len r_utf8 r_c src ilen err depth go
       type str len children sub
       set_go set_depth set_err set_src set_str set_len set_children set_sub
       count_nested].

Lemma finish_token_null (m : memory) (obj : json_token) :
  str obj = 0 -> type (finish_token m obj) = JSON_NONE.
Proof.
  intros H. unfold finish_token, json_type. rewrite H. reflexivity.
Qed.

Lemma read_inv_next (src0 len0 : Z) (it : json_iter) (obj : json_token)
    (cur rl ut c : Z) :
  src it = src0 -> ilen it = len0 -> src0 <= cur -> 0 < rl ->
  cur + rl = src0 + len0 ->
  (str obj = 0 \/ src0 <= str obj <= cur) -> type obj = JSON_NONE ->
  read_inv src0 len0 (ReadState it obj (cur + 1) (rl - 1) ut c).
Proof. intros. unfold read_inv. inv_fields. repeat split; try lia; auto. Qed.

Lemma read_yield_within (m : memory) (src0 len0 : Z) (it : json_iter)
    (obj : json_token) (cur rl l : Z) :
  len0 < 2 ^ 31 -> src0 <= cur -> 0 < rl -> cur + rl = src0 + len0 ->
  src0 <= str obj < cur -> l = int32 (int32 (cur - str obj) + 1) ->
  exists it' tok,
    read_yield m it (set_len l obj) cur rl = Return it' tok
    /\ read_ok src0 len0 it' tok.
Proof.
  intros Hlen Hcur Hrl Hsum Hstr ->. unfold read_yield, read_ok.
  eexists _, _. split; [reflexivity |]. split.
  - right. inv_fields. lia.
  - rewrite !int32_id by (try rewrite int32_id; lia).
    intros Hne.
    match type of Hne with
    | type (finish_token m ?o) <> _ =>
        destruct (finish_token_span m o src0 (cur + 1))
          as (H1 & H2 & H3 & H4);
        [inv_fields; lia | inv_fields; lia | inv_fields; lia | exact Hne |]
    end.
    unfold token_within, token_before. inv_fields.
    split; [lia | right; lia].
Qed.

Lemma read_body_within (m : memory) (src0 len0 : Z) (s : read_state) :
  len0 < 2 ^ 31 -> read_inv src0 len0 s -> r_len s <> 0 ->
  match read_body m s with
  | Continue s' => read_inv src0 len0 s'
  | Return it tok => read_ok src0 len0 it tok
  end.
Proof.
  destruct s as [[il er d g sr] [ty st ln chn su] cur rl ut c].
  intros Hlen Hinv Hrl.
  pose proof Hinv as (Hsrc & Hil & Hcur & Hl & Hsum & Hstr & Hty).
  cbn in Hsrc, Hil, Hcur, Hl, Hsum, Hstr, Hty, Hrl. subst sr il ty.
  unfold read_body. inv_fields.
  destruct (peek m cur =? 0).
  { edestruct (read_end_within m src0 len0) as (it & tok & -> & Hok);
      [exact Hlen | | exact Hok].
    unfold read_inv. inv_fields. repeat split; auto. }
  destruct ((d =? 1) && ((peek m cur =? ch "}") || (peek m cur =? ch "]"))
            && (rl =? 1) && (st =? 0)).
  { split; [left; split; reflexivity |]. inv_fields. congruence. }
  assert (Hstr' : st = 0 \/ src0 <= st <= cur) by lia.
  assert (Hcc : 0 = 0 \/ src0 <= cur <= cur) by lia.
  destruct (lookup_table g (peek m cur)); inv_fields;
    repeat (zcase; inv_fields);
    try (apply read_inv_next; inv_fields; auto; lia);
    try (edestruct (read_yield_within m src0 len0) as (it & tok & -> & Hok);
         [exact Hlen | exact Hcur | | exact Hsum | | reflexivity | exact Hok];
         inv_fields; lia).
  - (* FAILED *)
    split; [right; inv_fields; lia |]. inv_fields. congruence.
  - (* UNBARE that ends a token *)
    split; [right; inv_fields; lia |].
    destruct Hstr as [-> | Hstr].
    + intros Hne. exfalso. apply Hne. apply finish_token_null. reflexivity.
    + intros Hne.
      match type of Hne with
      | type (finish_token m ?o) <> _ =>
          destruct (finish_token_span m o src0 cur) as (H1 & H2 & H3 & H4);
          [ inv_fields; lia
          | inv_fields; rewrite int32_id by lia; lia
          | inv_fields; rewrite int32_id by lia; lia
          | exact Hne |]
      end.
      unfold token_within, token_before. inv_fields.
      split; [lia | right; lia].
  - (* UNBARE inside a container: the byte is dispatched again *)
    unfold read_inv. inv_fields. repeat split; try lia; auto.
Qed.

Lemma read_loop_within (m : memory) (src0 len0 : Z) :
  len0 < 2 ^ 31 ->
  forall (fuel : nat) (s : read_state) (it : json_iter) (tok : json_token),
    read_inv src0 len0 s ->
    read_loop fuel m s = Some (it, tok) ->
    read_ok src0 len0 it tok.
Proof.
  intros Hlen. induction fuel as [| fuel IH]; intros s it tok Hinv Hrun;
    [discriminate |].
  cbn [read_loop] in Hrun.
  destruct (Z.eqb_spec (r_len s) 0) as [H0 | H0].
  - destruct (read_end_within m src0 len0 s Hlen Hinv) as (it' & tok' & He & Hok).
    rewrite He in Hrun. injection Hrun as <- <-. exact Hok.
  - pose proof (read_body_within m src0 len0 s Hlen Hinv H0) as Hb.
    destruct (read_body m s) as [s' | it' tok'].
    + apply (IH s'); assumption.
    + injection Hrun as <- <-. exact Hb.
Qed.

Lemma read_within (m : memory) (it : json_iter) :
  0 <= ilen it < 2 ^ 31 ->
  exists (it' : json_iter) (tok : json_token),
    json_read m (Some it) = Some (it', tok)
    /\ iter_within (src it) (ilen it) it'
    /\ (type tok <> JSON_NONE ->
        token_within (src it) (ilen it) tok
        /\ token_before (src it) it' tok).
Proof.
  intros Hlen.
  destruct (json_read_total m (Some it)) as ([it' tok] & Hread).
  { intros p Hp. injection Hp as <-. lia. }
  exists it', tok. split; [exact Hread |].
  unfold json_read in Hread.
  destruct ((src it =? 0) || (ilen it =? 0) || err it).
  - injection Hread as <- <-. split.
    + left. split; reflexivity.
    + cbn. congruence.
  - apply (read_loop_within m (src it) (ilen it)) in Hread; [exact Hread | lia |].
    unfold read_inv, read_init, read_start.
    destruct it as [il er d g sr]. cbn in Hlen.
    destruct g; cbn; repeat split; try lia; auto.
Qed.

(** X9: json_read stays inside the buffer of its iterator: the iterator it
    returns is exhausted or describes a tail of that buffer; a finished
    token (one whose type is set) lies inside the buffer, and it ends at
    or before the position of the returned iterator, which has then
    moved forward. *)
Theorem json_read_within (m : memory) (it : json_iter) :
  0 <= ilen it < 2 ^ 31 ->
  exists (it' : json_iter) (tok : json_token),
    json_read m (Some it) = Some (it', tok)
    /\ iter_within (src it) (ilen it) it'
    /\ (type tok <> JSON_NONE ->
        token_within (src it) (ilen it) tok
        /\ token_before (src it) it' tok).
Proof. intros. eapply read_within; eassumption. Qed.

Lemma json_read_within_witness :
  exists (it' : json_iter) (tok : json_token),
    json_read (doc doc_ab) (Some (json_begin 1000 16)) = Some (it', tok)
    /\ iter_within (src (json_begin 1000 16)) (ilen (json_begin 1000 16)) it'
    /\ (type tok <> JSON_NONE ->
        token_within (src (json_begin 1000 16)) (ilen (json_begin 1000 16))
          tok
        /\ token_before (src (json_begin 1000 16)) it' tok).
Proof. apply (json_read_within (doc doc_ab) (json_begin 1000 16)). cbn. lia. Defined.

Lemma token_between_sub (lo hi lo' hi' : Z) (tok : json_token) :
  lo <= lo' -> hi' <= hi -> token_between lo' hi' tok -> token_between lo hi tok.
Proof. intros ? ? H Hty. specialize (H Hty). lia. Qed.

Lemma read_between (m : memory) (lo hi : Z) (it : json_iter) :
  hi - lo < 2 ^ 31 ->
  iter_between lo hi it ->
  exists it' tok,
    json_read m (Some it) = Some (it', tok)
    /\ iter_between lo hi it' /\ token_between lo hi tok.
Proof.
  intros Hsize Hit.
  assert (Hlen : 0 <= ilen it < 2 ^ 31) by (destruct Hit as [-> | ?]; lia).
  destruct (read_within m it Hlen) as (it' & tok & Hr & Hiw & Htw).
  exists it', tok. split; [exact Hr |].
  destruct Hit as [H0 | (H1 & H2 & H3)].
  - unfold json_read in Hr. rewrite H0 in Hr. cbn [Z.eqb] in Hr.
    rewrite orb_true_r in Hr. cbn [orb] in Hr. injection Hr as <- <-.
    split; [left; reflexivity |]. intros Hty. cbn in Hty. congruence.
  - split.
    + destruct Hiw as [[_ H0] | (? & ? & ?)]; [left; exact H0 |].
      destruct (Z.eq_dec (ilen it') 0); [left; assumption | right; lia].
    + intros Hty. destruct (Htw Hty) as ((? & ? & ?) & _). lia.
Qed.

Lemma load_ok_return (lo hi : Z) (toks toks1 : gmap Z json_token)
    (max read read1 : Z) (st : json_status) :
  read <= read1 <= max + 1 ->
  (st <> JSON_OUT_OF_TOKEN -> read1 <= max) ->
  (forall k : Z, k < read \/ read1 <= k -> toks1 !! k = toks !! k) ->
  (forall k : Z, read <= k < read1 -> token_between lo hi (tok_at toks1 k)) ->
  load_ok lo hi toks max read (st, toks1, read1).
Proof.
  intros Hr Hst Hfr Hsto. split; [| exact Hsto].
  cbn. split; [lia |]. split; [lia |]. split; assumption.
Qed.

Lemma load_ok_trans (lo hi : Z) (toks toks1 : gmap Z json_token)
    (max read read1 : Z) (r : load_result) :
  read <= read1 ->
  (forall k : Z, k < read \/ read1 <= k -> toks1 !! k = toks !! k) ->
  (forall k : Z, read <= k < read1 -> token_between lo hi (tok_at toks1 k)) ->
  load_ok lo hi toks1 max read1 r -> load_ok lo hi toks max read r.
Proof.
  destruct r as [[st toks'] read']. unfold load_ok, load_frame, stored_between.
  intros Hle Hfr Hsto [(H1 & H2 & H3 & H4) H5].
  split.
  - split; [lia |]. split; [exact H2 |]. split; [exact H3 |].
    intros k Hk. rewrite H4 by lia. apply Hfr. lia.
  - intros k Hk. destruct (Z_lt_le_dec k read1) as [Hlt | Hge].
    + unfold tok_at. rewrite H4 by lia. apply Hsto. lia.
    + apply H5. lia.
Qed.

Lemma json_load_total (m : memory) (max : Z) :
  max < 2 ^ 31 - 1 ->
  forall fuel : nat,
    (forall toks read json length,
        0 <= read <= max -> 0 <= length < 2 ^ 31 ->
        (2 * Z.to_nat (max - read) + 2 <= fuel)%nat ->
        exists r, json_load fuel m toks max read json length = Some r
                  /\ load_ok json (json + length) toks max read r)
    /\ (forall toks read iter tok status lo hi,
           0 <= read <= max -> status <> JSON_OUT_OF_TOKEN ->
           hi - lo < 2 ^ 31 ->
           iter_between lo hi iter -> token_between lo hi tok ->
           (2 * Z.to_nat (max - read) + 1 <= fuel)%nat ->
           exists r, load_while fuel m toks max read iter tok status = Some r
                     /\ load_ok lo hi toks max read r).
Proof.
  intros Hmax. induction fuel as [| fuel [IHl IHw]].
  { split; intros; lia. }
  assert (Hhere : forall lo hi toks read st,
             0 <= read <= max ->
             load_ok lo hi toks max read (st, toks, read)).
  { intros lo hi toks read st Hr. apply load_ok_return; auto; lia. }
  split.
  - intros toks read json length Hr Hlen Hfuel. cbn [json_load].
    destruct ((json =? 0) || (length =? 0) || (max =? 0)).
    { eexists. split; [reflexivity | apply Hhere; exact Hr]. }
    destruct (Z.leb_spec max read) as [Hfull | Hroom].
    { eexists. split; [reflexivity | apply Hhere; exact Hr]. }
    destruct (read_between m json (json + length) (json_begin json length))
      as (it & tok & -> & Hit & Htok); [lia | unfold iter_between; cbn; lia |].
    destruct (err it && negb (ilen it =? 0)).
    { eexists. split; [reflexivity | apply Hhere; exact Hr]. }
    apply IHw; auto; try lia; try discriminate.
  - intros toks read iter tok status lo hi Hr Hst Hsize Hit Htok Hfuel.
    cbn [load_while].
    destruct (Z.eqb_spec (ilen iter) 0) as [H0 | H0].
    { eexists. split; [reflexivity | apply Hhere; exact Hr]. }
    rewrite (int32_id (read + 1)) by lia.
    assert (Hfr1 : forall k : Z, k < read \/ read + 1 <= k ->
                                 <[read := tok]> toks !! k = toks !! k).
    { intros k Hk. apply lookup_insert_ne. lia. }
    assert (Hlast : tok_at (<[read := tok]> toks) read = tok).
    { unfold tok_at. rewrite lookup_insert_eq. reflexivity. }
    assert (Hsto1 : forall k : Z,
               read <= k < read + 1 ->
               token_between lo hi (tok_at (<[read := tok]> toks) k)).
    { intros k Hk. replace k with read by lia. rewrite Hlast. exact Htok. }
    destruct (Z.ltb_spec max (read + 1)) as [Hfull | Hroom].
    { eexists. split; [reflexivity |].
      apply load_ok_return; auto; try lia; congruence. }
    replace (read + 1 - 1) with read by lia. rewrite (int32_id read) by lia.
    rewrite !Hlast.
    (* the tail of the loop body *)
    assert (Hcont : forall toks1 read1 status1,
               read + 1 <= read1 <= max -> status1 <> JSON_OUT_OF_TOKEN ->
               (forall k : Z, k < read \/ read1 <= k ->
                              toks1 !! k = toks !! k) ->
               (forall k : Z, read <= k < read1 ->
                              token_between lo hi (tok_at toks1 k)) ->
               exists r,
                 match json_read m (Some iter) with
                 | None => None
                 | Some (iter', tok') =>
                     if err iter' && negb (src iter' =? 0)
                        && negb (ilen iter' =? 0)
                     then Some (JSON_PARSING_ERROR, toks1, read1)
                     else load_while fuel m toks1 max read1 iter' tok' status1
                 end = Some r
                 /\ load_ok lo hi toks max read r).
    { intros toks1 read1 status1 Hr1 Hst1 Hfr Hsto.
      destruct (read_between m lo hi iter Hsize Hit)
        as (it' & tok' & -> & Hit' & Htok').
      destruct (err it' && negb (src it' =? 0) && negb (ilen it' =? 0)).
      { eexists. split; [reflexivity |].
        apply load_ok_return; auto; try lia. }
      destruct (IHw toks1 read1 it' tok' status1 lo hi) as (r & Hrun & Hok);
        auto; try lia.
      exists r. split; [exact Hrun |].
      apply (load_ok_trans lo hi toks toks1 max read read1); auto; lia. }
    destruct (is_container (type tok)) eqn:Hcont_ty.
    + assert (Hty : type tok <> JSON_NONE)
        by (intros Hn; rewrite Hn in Hcont_ty; discriminate).
      destruct (Htok Hty) as (Ht1 & Ht2 & Ht3).
      destruct (IHl (<[read := tok]> toks) (read + 1) (str tok) (len tok))
        as ([[st1 toks1] read1] & -> & [Hframe Hsto]); [lia | lia | lia |].
      destruct Hframe as (H1 & H2 & H3 & H4).
      assert (Hfr2 : forall k : Z, k < read \/ read1 <= k ->
                                   toks1 !! k = toks !! k).
      { intros k Hk. rewrite H4 by lia. apply Hfr1. lia. }
      assert (Hsto2 : forall k : Z, read <= k < read1 ->
                                    token_between lo hi (tok_at toks1 k)).
      { intros k Hk. destruct (Z.eq_dec k read) as [-> | Hne].
        - unfold tok_at. rewrite H4 by lia. apply (Hsto1 read). lia.
        - apply (token_between_sub lo hi (str tok) (str tok + len tok));
            [lia | lia |]. apply Hsto. lia. }
      destruct st1.
      * apply Hcont; [| discriminate | exact Hfr2 | exact Hsto2].
        split; [lia |]. apply H3. discriminate.
      * eexists. split; [reflexivity |].
        apply load_ok_return; auto; try lia; intros _; apply H3; discriminate.
      * eexists. split; [reflexivity |].
        apply load_ok_return; auto; try lia; congruence.
      * eexists. split; [reflexivity |].
        apply load_ok_return; auto; try lia; intros _; apply H3; discriminate.
    + apply Hcont; auto. lia.
Qed.

(** X10: json_load terminates on every buffer, well formed or not: started
    with [read <= max] it returns within [2 * (max - read) + 2] nested
    calls and loop rounds, the counter never goes back and ends at most
    at [max + 1] (at most at [max] unless the status is
    JSON_OUT_OF_TOKEN), and no slot outside [read .. read' - 1] of the
    token array is written. *)
Theorem json_load_terminates (m : memory) (toks : gmap Z json_token)
    (max read json length : Z) (fuel : nat) :
  0 <= read <= max -> max < 2 ^ 31 - 1 -> 0 <= length < 2 ^ 31 ->
  (2 * Z.to_nat (max - read) + 2 <= fuel)%nat ->
  exists r : load_result,
    json_load fuel m toks max read json length = Some r
    /\ load_frame toks max read r.
Proof.
  intros Hread Hmax Hlen Hfuel.
  destruct (json_load_total m max Hmax fuel) as [Hload _].
  destruct (Hload toks read json length Hread Hlen Hfuel) as (r & Hr & Hok & _).
  exists r. split; assumption.
Qed.

Lemma json_load_terminates_witness :
  exists r : load_result,
    json_load 18 (doc doc_ab) ∅ 8 0 1000 16 = Some r
    /\ load_frame ∅ 8 0 r.
Proof.
  apply (json_load_terminates (doc doc_ab) ∅ 8 0 1000 16 18); cbn; lia.
Defined.

(** X11: Every finished token (one whose type is set) that json_load stores
    lies inside the buffer [json .. json + length - 1]. *)
Theorem json_load_tokens_within (m : memory) (toks : gmap Z json_token)
    (max read json length : Z) (fuel : nat) :
  0 <= read <= max -> max < 2 ^ 31 - 1 -> 0 <= length < 2 ^ 31 ->
  (2 * Z.to_nat (max - read) + 2 <= fuel)%nat ->
  exists r : load_result,
    json_load fuel m toks max read json length = Some r
    /\ stored_between json (json + length) read r.
Proof.
  intros Hread Hmax Hlen Hfuel.
  destruct (json_load_total m max Hmax fuel) as [Hload _].
  destruct (Hload toks read json length Hread Hlen Hfuel) as (r & Hr & _ & Hsto).
  exists r. split; assumption.
Qed.

Lemma json_load_tokens_within_witness :
  exists r : load_result,
    json_load 18 (doc doc_ab) ∅ 8 0 1000 16 = Some r
    /\ stored_between 1000 (1000 + 16) 0 r.
Proof.
  apply (json_load_tokens_within (doc doc_ab) ∅ 8 0 1000 16 18); cbn; lia.
Defined.


Lemma num_while_stuck (m : memory) (it : json_iter) (tok : json_token) :
  err it = false -> src it <> 0 -> str tok <> 0 ->
  json_read m (Some it) = Some (it, tok) ->
  forall (fuel : nat) (count : Z), num_while fuel m it tok count = None.
Proof.
  intros He Hs Ht Hread. induction fuel as [| fuel IH]; intros count;
    [reflexivity |].
  cbn [num_while]. rewrite He.
  destruct (Z.eqb_spec (src it) 0) as [? | _]; [contradiction |].
  destruct (Z.eqb_spec (str tok) 0) as [? | _]; [contradiction |].
  cbn [negb andb]. rewrite Hread. apply IH.
Qed.

(** X12: json_num does not terminate on every buffer: on the six bytes of
    [doc_loop] (two opening brackets, a double quote, a closing bracket,
    an opening bracket, a digit) the third and every later read returns
    the iterator it was given, still at the start of the buffer,
    together with an unfinished token, so the counting loop never ends:
    however many rounds are allowed, no result is reached. *)
Theorem json_num_diverges (fuel : nat) :
  json_num fuel (doc doc_loop) 1000 6 = None.
Proof.
  unfold json_num. cbn [Z.eqb orb].
  replace (json_read (doc doc_loop) (Some (json_begin 1000 6)))
    with (Some (Iter 6 false 2 GO_STRING 1000, Token JSON_NONE 1001 0 1 1))
    by (vm_compute; reflexivity).
  destruct fuel as [| fuel]; [reflexivity |].
  cbn [num_while err src str negb andb Z.eqb].
  replace (json_read (doc doc_loop) (Some (Iter 6 false 2 GO_STRING 1000)))
    with (Some (Iter 6 false 2 GO_BARE 1000, Token JSON_NONE 1004 1004 1 1))
    by (vm_compute; reflexivity).
  apply num_while_stuck; [reflexivity | discriminate | discriminate |].
  vm_compute. reflexivity.
Qed.

Lemma skip_elements_forward (toks : gmap Z json_token) (count : Z)
    (n : json_number) :
  count < 2 ^ 30 ->
  (forall k, 0 <= k <= count -> 0 <= sub (tok_at toks k) <= count) ->
  forall (k : nat) (j i i' : Z),
    0 <= i <= count ->
    skip_elements k toks count n j i = Some i' ->
    i <= i' <= count.
Proof.
  intros Hcount Hsub. induction k as [| k IH]; intros j i i' Hi Hskip.
  - injection Hskip as <-. lia.
  - cbn [skip_elements] in Hskip.
    destruct (Qlt_le_dec (inject_Z j) n); [| injection Hskip as <-; lia].
    pose proof (Hsub i Hi) as Hs.
    destruct (is_container (type (tok_at toks i)));
      rewrite ?int32_id in Hskip by (try rewrite int32_id; lia);
      match type of Hskip with
      | (if ?c <? ?x then _ else _) = _ =>
          destruct (Z.ltb_spec c x); [discriminate |]
      end;
      apply IH in Hskip; lia.
Qed.

Lemma query_body_step (m : memory) (toks : gmap Z json_token) (count : Z)
    (s : query_state) :
  0 < count < 2 ^ 30 ->
  (forall k, 0 <= k <= count -> 0 <= sub (tok_at toks k) <= count) ->
  query_inv count s ->
  match query_body m toks count s with
  | QReturn r => forall k, r = Some k -> 0 <= k <= count
  | QContinue s' =>
      query_inv count s' /\ (query_left count s' < query_left count s)%nat
  end.
Proof.
  intros Hcount Hsub Hinv. unfold query_inv in Hinv.
  destruct s as [i b name array index size path]. cbn [q_i] in Hinv.
  unfold query_body, query_inv, query_left.
  cbn [q_i q_begin q_name q_array q_index q_size q_path].
  assert (Hnone : forall k : Z, @None Z = Some k -> 0 <= k <= count)
    by (intros k Hk; discriminate).
  destruct (is_container (type (tok_at toks i)) || b) eqn:Hcb.
  - destruct b.
    + cbn [q_i q_begin]. split; [lia | lia].
    + destruct (type_eqb (type (tok_at toks i)) JSON_OBJECT).
      * rewrite int32_id by lia.
        destruct (Z.ltb_spec count (i + 1)); [exact Hnone |].
        cbn [q_i q_begin]. split; lia.
      * destruct (json_path_parse_array m array name) as [ok arr].
        destruct ok; cbn [negb]; [| exact Hnone].
        rewrite int32_id by lia.
        destruct (Z.leb_spec count (i + 1)); [exact Hnone |].
        destruct (len arr <? 1); [exact Hnone |].
        destruct (json_convert m arr) as [ty [n |]];
          destruct ty; try exact Hnone.
        destruct (children (tok_at toks i) <=? number_to_int n);
          [exact Hnone |].
        destruct (skip_elements _ toks count n 0 (i + 1)) as [i' |] eqn:Hskip;
          [| exact Hnone].
        apply (skip_elements_forward toks count n) in Hskip;
          [| lia | exact Hsub | lia].
        destruct (path =? 0).
        -- intros k Hk. injection Hk as <-. lia.
        -- destruct (json_path_parse_name m name path JSON_DELIMITER)
             as [name' path'].
           cbn [q_i q_begin]. split; lia.
  - apply orb_false_iff in Hcb. destruct Hcb as [_ ->].
    destruct (json_lcmp m (tok_at toks i) (str name) (len name) =? 0).
    + rewrite !int32_id by lia.
      destruct (path =? 0).
      * destruct (Z.ltb_spec count (i + 1)); [exact Hnone |].
        intros k Hk. injection Hk as <-. lia.
      * destruct (Z.ltb_spec count (i + 1)); [exact Hnone |].
        destruct (is_container (type (tok_at toks (i + 1)))); cbn [negb];
          [| exact Hnone].
        destruct (json_path_parse_name m name path JSON_DELIMITER)
          as [name' path'].
        cbn [q_i q_begin]. split; lia.
    + destruct (size <=? int32 (index + 1)); [exact Hnone |].
      rewrite (int32_id (i + 1)) by lia.
      destruct (Z.leb_spec count (i + 1)); [exact Hnone |].
      pose proof (Hsub (i + 1) ltac:(lia)) as Hs.
      destruct (is_container (type (tok_at toks (i + 1))));
        rewrite ?int32_id by (try rewrite int32_id; lia);
        match goal with
        | |- context [if ?c <=? ?x then _ else _] =>
            destruct (Z.leb_spec c x); [exact Hnone |]
        end;
        cbn [q_i q_begin]; split; lia.
Qed.

Lemma query_loop_total (m : memory) (toks : gmap Z json_token) (count : Z) :
  0 < count < 2 ^ 30 ->
  (forall k, 0 <= k <= count -> 0 <= sub (tok_at toks k) <= count) ->
  forall (fuel : nat) (s : query_state),
    query_inv count s -> (query_left count s < fuel)%nat ->
    exists r, query_loop fuel m toks count s = Some r
              /\ forall k, r = Some k -> 0 <= k <= count.
Proof.
  intros Hcount Hsub. induction fuel as [| fuel IH]; intros s Hinv Hfuel;
    [lia |].
  cbn [query_loop].
  pose proof (query_body_step m toks count s Hcount Hsub Hinv) as Hstep.
  destruct (query_body m toks count s) as [s' | r].
  - destruct Hstep as [Hinv' Hless]. apply IH; [exact Hinv' | lia].
  - exists r. split; [reflexivity | exact Hstep].
Qed.

(** X13: json_query terminates, within [count + 2] rounds of its loop, and
    returns null or a pointer to one of [toks[0] .. toks[count]], when
    the path is null or not empty (on an empty path the code compares
    the keys with a name it never wrote) and the array holds the slots
    [toks[0] .. toks[count]] (the code reads [toks[count]]), each with
    a [sub] field between 0 and [count]. *)
Theorem json_query_terminates (m : memory) (toks : gmap Z json_token)
    (count path : Z) (fuel : nat) :
  0 <= count < 2 ^ 30 ->
  path = 0 \/ peek m path <> 0 ->
  (forall k, 0 <= k <= count ->
             exists t, toks !! k = Some t /\ 0 <= sub t <= count) ->
  (Z.to_nat count + 2 <= fuel)%nat ->
  exists r, json_query fuel m toks count path = Some r
            /\ forall k, r = Some k -> 0 <= k <= count.
Proof.
  intros Hcount Hpath Hslots Hfuel. unfold json_query.
  assert (Hsub : forall k, 0 <= k <= count ->
                           0 <= sub (tok_at toks k) <= count).
  { intros k Hk. destruct (Hslots k Hk) as (t & Ht & Hs).
    unfold tok_at. rewrite Ht. exact Hs. }
  destruct (Z.eqb_spec count 0) as [H0 | H0].
  { eexists. split; [reflexivity |]. intros k Hk. discriminate. }
  destruct (path =? 0).
  { eexists. split; [reflexivity |]. intros k Hk. injection Hk as <-. lia. }
  destruct (json_path_parse_name m JSON_TOKEN_NULL path JSON_DELIMITER)
    as [name path'].
  apply query_loop_total; [lia | exact Hsub | |].
  - unfold query_inv. cbn [q_i]. lia.
  - unfold query_left. cbn [q_i q_begin]. lia.
Qed.

Lemma json_query_terminates_witness :
  exists r,
    json_query 6 (doc_path doc_ab "b")
      (store ∅ 0 [Token JSON_STRING 1002 1 0 0; Token JSON_NUMBER 1005 1 0 0;
                  Token JSON_STRING 1008 1 0 0; Token JSON_STRING 1012 2 0 0;
                  JSON_TOKEN_NULL])
      4 (path_ptr doc_ab) = Some r
    /\ forall k, r = Some k -> 0 <= k <= 4.
Proof.
  apply (json_query_terminates (doc_path doc_ab "b")
           (store ∅ 0 [Token JSON_STRING 1002 1 0 0;
                       Token JSON_NUMBER 1005 1 0 0;
                       Token JSON_STRING 1008 1 0 0;
                       Token JSON_STRING 1012 2 0 0;
                       JSON_TOKEN_NULL])
           4 (path_ptr doc_ab) 6);
    [lia | right; vm_compute; discriminate | | cbn; lia].
  intros k Hk. rewrite store_lookup.
  destruct (decide _) as [Hd | Hd]; [| cbn [List.length] in Hd; lia].
  destruct (Z.to_nat (k - 0)) as [| [| [| [| [| n]]]]] eqn:Hn;
    [| | | | | lia]; eexists; (split; [reflexivity | cbn; lia]).
Defined.

Lemma finish_token_agree (m1 m2 : memory) (obj : json_token) (lo hi : Z) :
  agree_on m1 m2 lo hi ->
  str obj = 0 \/ lo <= str obj < hi ->
  finish_token m1 obj = finish_token m2 obj.
Proof.
  intros Hag [H0 | Hin].
  - unfold finish_token, json_type. rewrite H0. reflexivity.
  - unfold finish_token, json_type, json_deq. cbn [str len type].
    rewrite (Hag (str obj) Hin). reflexivity.
Qed.

Lemma read_end_agree (m1 m2 : memory) (src0 len0 : Z) (s : read_state) :
  agree_on m1 m2 src0 (src0 + len0) ->
  read_inv src0 len0 s ->
  read_end m1 s = read_end m2 s.
Proof.
  intros Hag (Hsrc & Hil & Hcur & Hl & Hsum & Hstr & Hty).
  unfold read_end.
  destruct (depth (r_iter s) =? 0); [| reflexivity].
  destruct (str (r_obj s) =? 0); cbn [negb]; [reflexivity |].
  f_equal. apply (finish_token_agree m1 m2 _ src0 (src0 + len0) Hag).
  cbn [str set_len]. lia.
Qed.

Lemma read_body_agree (m1 m2 : memory) (src0 len0 : Z) (s : read_state) :
  agree_on m1 m2 src0 (src0 + len0) ->
  read_inv src0 len0 s -> r_len s <> 0 ->
  read_body m1 s = read_body m2 s.
Proof.
  intros Hag Hinv Hrl.
  pose proof Hinv as (Hsrc & Hil & Hcur & Hl & Hsum & Hstr & Hty).
  assert (Hpeek : peek m2 (r_cur s) = peek m1 (r_cur s))
    by (symmetry; apply Hag; lia).
  assert (Hfin : forall l,
             finish_token m1 (set_len l (r_obj s))
             = finish_token m2 (set_len l (r_obj s))).
  { intros l. apply (finish_token_agree m1 m2 _ src0 (src0 + len0) Hag).
    cbn [str set_len]. lia. }
  unfold read_body. rewrite Hpeek.
  destruct (peek m1 (r_cur s) =? 0).
  { apply (read_end_agree m1 m2 src0 len0 _ Hag).
    unfold read_inv. cbn [r_iter r_obj r_cur r_len]. repeat split; auto. }
  destruct (_ && _ && _ && _); [reflexivity |].
  destruct (lookup_table (go (r_iter s)) (peek m1 (r_cur s)));
    try reflexivity; unfold read_yield;
    repeat match goal with
           | |- context [if ?b then _ else _] => destruct b
           end;
    try reflexivity; cbn [set_go set_depth depth]; rewrite ?Hfin; reflexivity.
Qed.

Lemma read_loop_agree (m1 m2 : memory) (src0 len0 : Z) :
  len0 < 2 ^ 31 ->
  agree_on m1 m2 src0 (src0 + len0) ->
  forall (fuel : nat) (s : read_state),
    read_inv src0 len0 s ->
    read_loop fuel m1 s = read_loop fuel m2 s.
Proof.
  intros Hlen Hag. induction fuel as [| fuel IH]; intros s Hinv;
    [reflexivity |].
  cbn [read_loop].
  destruct (Z.eqb_spec (r_len s) 0) as [H0 | H0].
  - rewrite (read_end_agree m1 m2 src0 len0 s Hag Hinv). reflexivity.
  - pose proof (read_body_within m1 src0 len0 s Hlen Hinv H0) as Hb.
    rewrite <- (read_body_agree m1 m2 src0 len0 s Hag Hinv H0).
    destruct (read_body m1 s) as [s' | it tok]; [| reflexivity].
    apply IH. exact Hb.
Qed.

Lemma read_local (m1 m2 : memory) (it : json_iter) :
  0 <= ilen it < 2 ^ 31 ->
  agree_on m1 m2 (src it) (src it + ilen it) ->
  json_read m1 (Some it) = json_read m2 (Some it).
Proof.
  intros Hlen Hag. unfold json_read.
  destruct ((src it =? 0) || (ilen it =? 0) || err it); [reflexivity |].
  replace (ilen (read_start it)) with (ilen it)
    by (unfold read_start; destruct it as [il er d g sr], g; reflexivity).
  apply (read_loop_agree m1 m2 (src it) (ilen it)); [lia | exact Hag |].
  unfold read_inv, read_init, read_start.
  destruct it as [il er d g sr]. cbn in Hlen.
  destruct g; cbn; repeat split; try lia; auto.
Qed.

(** X14: json_read reads no byte outside the buffer of its iterator: two
    memories that agree on the bytes [src .. src + len - 1] give the
    same iterator and the same token. *)
Theorem json_read_local (m1 m2 : memory) (it : json_iter) :
  0 <= ilen it < 2 ^ 31 ->
  agree_on m1 m2 (src it) (src it + ilen it) ->
  json_read m1 (Some it) = json_read m2 (Some it).
Proof. intros. apply read_local; assumption. Qed.

Lemma agree_on_sub (m1 m2 : memory) (lo hi lo' hi' : Z) :
  agree_on m1 m2 lo hi -> lo <= lo' -> hi' <= hi -> agree_on m1 m2 lo' hi'.
Proof. intros H ? ? p Hp. apply H. lia. Qed.


Lemma json_load_agree (m1 m2 : memory) (max : Z) :
  max < 2 ^ 31 - 1 ->
  forall fuel : nat,
    (forall toks read json length,
        0 <= read <= max -> 0 <= length < 2 ^ 31 ->
        (2 * Z.to_nat (max - read) + 2 <= fuel)%nat ->
        agree_on m1 m2 json (json + length) ->
        json_load fuel m1 toks max read json length
        = json_load fuel m2 toks max read json length)
    /\ (forall toks read iter tok status lo hi,
           0 <= read <= max -> status <> JSON_OUT_OF_TOKEN ->
           hi - lo < 2 ^ 31 -> agree_on m1 m2 lo hi ->
           iter_between lo hi iter -> token_between lo hi tok ->
           (2 * Z.to_nat (max - read) + 1 <= fuel)%nat ->
           load_while fuel m1 toks max read iter tok status
           = load_while fuel m2 toks max read iter tok status).
Proof.
  intros Hmax. induction fuel as [| fuel [IHl IHw]].
  { split; intros; reflexivity. }
  split.
  - intros toks read json length Hr Hlen Hfuel Hag. cbn [json_load].
    destruct ((json =? 0) || (length =? 0) || (max =? 0)); [reflexivity |].
    destruct (Z.leb_spec max read) as [Hfull | Hroom]; [reflexivity |].
    assert (Hit : iter_between json (json + length) (json_begin json length)).
    { unfold iter_between. cbn. lia. }
    rewrite <- (read_local m1 m2 (json_begin json length))
      by first [cbn; lia | exact Hag].
    destruct (read_between m1 json (json + length) _ ltac:(lia) Hit)
      as (it & tok & -> & Hit' & Htok').
    destruct (err it && negb (ilen it =? 0)); [reflexivity |].
    apply (IHw _ _ _ _ _ json (json + length)); auto; try lia;
      try discriminate.
  - intros toks read iter tok status lo hi Hr Hst Hsize Hag Hit Htok Hfuel.
    cbn [load_while].
    destruct (Z.eqb_spec (ilen iter) 0) as [H0 | H0]; [reflexivity |].
    destruct Hit as [? | (Hi1 & Hi2 & Hi3)]; [contradiction |].
    rewrite (int32_id (read + 1)) by lia.
    destruct (Z.ltb_spec max (read + 1)) as [Hfull | Hroom]; [reflexivity |].
    replace (read + 1 - 1) with read by lia. rewrite (int32_id read) by lia.
    assert (Hlast : tok_at (<[read := tok]> toks) read = tok).
    { unfold tok_at. rewrite lookup_insert_eq. reflexivity. }
    rewrite !Hlast.
    rewrite <- (read_local m1 m2 iter)
      by first [lia | apply (agree_on_sub m1 m2 lo hi); [exact Hag | lia | lia]].
    destruct (read_between m1 lo hi iter Hsize)
      as (it' & tok' & Hread & Hit' & Htok');
      [right; lia |].
    rewrite Hread.
    assert (Hcont : forall toks1 read1 status1,
               read + 1 <= read1 <= max -> status1 <> JSON_OUT_OF_TOKEN ->
               (if err it' && negb (src it' =? 0) && negb (ilen it' =? 0)
                then Some (JSON_PARSING_ERROR, toks1, read1)
                else load_while fuel m1 toks1 max read1 it' tok' status1)
               = (if err it' && negb (src it' =? 0) && negb (ilen it' =? 0)
                  then Some (JSON_PARSING_ERROR, toks1, read1)
                  else load_while fuel m2 toks1 max read1 it' tok' status1)).
    { intros toks1 read1 status1 Hr1 Hst1.
      destruct (_ && _ && _); [reflexivity |].
      apply (IHw _ _ _ _ _ lo hi); auto; lia. }
    destruct (is_container (type tok)) eqn:Hc.
    + assert (Hty : type tok <> JSON_NONE)
        by (intros Hn; rewrite Hn in Hc; discriminate).
      destruct (Htok Hty) as (Ht1 & Ht2 & Ht3).
      rewrite <- (IHl (<[read := tok]> toks) (read + 1) (str tok) (len tok))
        by first [lia | apply (agree_on_sub m1 m2 lo hi); [exact Hag | lia | lia]].
      destruct (json_load_total m1 max Hmax fuel) as [Htotal _].
      destruct (Htotal (<[read := tok]> toks) (read + 1) (str tok) (len tok))
        as ([[st1 toks1] read1] & -> & [(H1 & H2 & H3 & H4) _]);
        [lia | lia | lia |].
      destruct st1; try reflexivity.
      apply Hcont; [| discriminate].
      split; [lia |]. apply H3. discriminate.
    + apply Hcont; [lia | exact Hst].
Qed.

(** X15: json_load reads no byte outside the buffer [json .. json + length - 1]:
    on two memories that agree on these bytes it returns the same
    status, the same token array and the same counter. *)
Theorem json_load_local (m1 m2 : memory) (toks : gmap Z json_token)
    (max read json length : Z) (fuel : nat) :
  0 <= read <= max -> max < 2 ^ 31 - 1 -> 0 <= length < 2 ^ 31 ->
  (2 * Z.to_nat (max - read) + 2 <= fuel)%nat ->
  agree_on m1 m2 json (json + length) ->
  json_load fuel m1 toks max read json length
  = json_load fuel m2 toks max read json length.
Proof.
  intros Hread Hmax Hlen Hfuel Hag.
  destruct (json_load_agree m1 m2 max Hmax fuel) as [Hload _].
  apply Hload; assumption.
Qed.

Lemma agree_on_prefix (b : positive) (l r1 r2 : list Z) :
  agree_on (Memory b (l ++ r1)) (Memory b (l ++ r2))
    (Z.pos b) (Z.pos b + Z.of_nat (List.length l)).
Proof.
  intros p Hp. unfold peek. cbn [base bytes].
  destruct (Z.ltb_spec p (Z.pos b)); [reflexivity |].
  rewrite !app_nth1 by lia. reflexivity.
Qed.

Lemma json_read_local_witness :
  json_read (Memory 1000 (json_text "[1]" ++ []))
    (Some (json_begin 1000 3))
  = json_read (Memory 1000 (json_text "[1]" ++ [0; ch "x"]))
      (Some (json_begin 1000 3)).
Proof.
  apply (json_read_local (Memory 1000 (json_text "[1]" ++ []))
           (Memory 1000 (json_text "[1]" ++ [0; ch "x"]))
           (json_begin 1000 3)); [cbn; lia |].
  exact (agree_on_prefix 1000 (json_text "[1]") [] [0; ch "x"]).
Defined.

Lemma json_load_local_witness :
  json_load 10 (Memory 1000 (json_text "[1]" ++ [])) ∅ 4 0 1000 3
  = json_load 10 (Memory 1000 (json_text "[1]" ++ [0; ch "x"])) ∅ 4 0 1000 3.
Proof.
  apply (json_load_local (Memory 1000 (json_text "[1]" ++ []))
           (Memory 1000 (json_text "[1]" ++ [0; ch "x"])) ∅ 4 0 1000 3 10);
    [lia | lia | lia | cbn; lia |].
  exact (agree_on_prefix 1000 (json_text "[1]") [] [0; ch "x"]).
Defined.

Lemma length_le_flatten (f : list tree) :
  (List.length f <= List.length (flatten_forest f))%nat.
Proof.
  induction f as [| [tok ks] f IH]; [cbn; lia |].
  rewrite flatten_forest_cons, flatten_node. cbn [List.length List.app].
  rewrite length_app. lia.
Qed.

Lemma well_nested_empty (m : memory) (p : Z) (f : list tree) :
  well_nested m (json_begin p 0) f -> f = [].
Proof.
  inversion 1 as [it it' tok Hr Hl Hs
                 | it it' tok rest Hr Hl
                 | it it' tok ks rest Hr Hl]; subst; [reflexivity | |];
    unfold json_read in Hr; cbn [json_begin src ilen err Z.eqb] in Hr;
    rewrite orb_true_r in Hr; cbn [orb] in Hr;
    injection Hr as <- <-; cbn in Hl; contradiction.
Qed.

(** In a well-nested forest the [sub] field of every container is what
    [json_num] counts in the bytes of that container. *)
Lemma nested_count (m : memory) (it : json_iter) (f : list tree) :
  well_nested m it f -> total f < 2 ^ 31 ->
  forall (t : json_token) (fuel : nat),
    In t (flatten_forest f) -> is_container (type t) = true ->
    (Z.to_nat (sub t) < fuel)%nat ->
    json_num fuel m (str t) (len t) = Some (sub t).
Proof.
  induction 1 as [it it' tok Hr Hl Hs
                 | it it' tok rest Hr Hl Hs He Hstr Hc Hsub Hrest IH
                 | it it' tok ks rest Hr Hl Hs He Hstr Hc Hks IHk Hsub Hrest IH];
    intros Htot t fuel Hin Hct Hfuel.
  - destruct Hin.
  - rewrite total_cons in Htot. cbn [root] in Htot.
    pose proof (total_nonneg m _ _ Hrest).
    rewrite flatten_forest_cons, flatten_node in Hin. cbn in Hin.
    destruct Hin as [<- | Hin]; [congruence |].
    apply IH; auto; lia.
  - rewrite total_cons in Htot. cbn [root] in Htot.
    pose proof (total_nonneg m _ _ Hrest).
    pose proof (total_nonneg m _ _ Hks).
    rewrite flatten_forest_cons, flatten_node in Hin.
    cbn [List.app In] in Hin. rewrite in_app_iff in Hin.
    destruct Hin as [<- | [Hin | Hin]].
    + destruct (Z.eq_dec (len tok) 0) as [Hz | Hz].
      * rewrite Hz in Hks. apply well_nested_empty in Hks. subst ks.
        rewrite Hsub. unfold json_num. rewrite Hz. cbn [Z.eqb].
        rewrite orb_true_r. reflexivity.
      * rewrite Hsub. apply json_num_spec; auto; try lia.
        pose proof (length_le_flatten ks).
        pose proof (total_length m _ _ Hks). lia.
    + apply IHk; auto; lia.
    + apply IH; auto; lia.
Qed.

(** X16: After a successful load of one complete object or array, the [sub]
    field of every container token in the array is the number json_num
    returns for the text of that container. *)
Theorem loaded_container_count (m : memory) (json length max : Z)
    (fuel fuel' : nat) (toks : gmap Z json_token) (count i : Z) :
  0 < json -> 0 < length < 2 ^ 31 - 1 -> max < 2 ^ 31 - 1 ->
  single_container m json length ->
  json_load fuel m ∅ max 0 json length = Some (JSON_OK, toks, count) ->
  0 <= i < count ->
  is_container (type (tok_at toks i)) = true ->
  (Z.to_nat (sub (tok_at toks i)) < fuel')%nat ->
  json_num fuel' m (str (tok_at toks i)) (len (tok_at toks i))
  = Some (sub (tok_at toks i)).
Proof.
  intros Hj Hl Hmax Hdoc Hload Hi Hc Hfuel.
  destruct (single_container_nested m json length Hj Hl Hdoc) as (f & Hf).
  destruct (load_spec m max Hmax fuel) as [Hspec _].
  destruct (Hspec ∅ 0 json length f toks count Hf ltac:(lia) Hload)
    as (Htoks & Hcount & Hle & _).
  pose proof (total_length m _ f Hf) as Htot.
  assert (Hin : In (tok_at toks i) (flatten_forest f)).
  { unfold tok_at. rewrite Htoks, store_lookup.
    destruct (decide _) as [_ | ?]; [| lia].
    destruct (flatten_forest f !! Z.to_nat (i - 0)) as [t |] eqn:Ht.
    - cbn [default]. apply list_elem_of_In.
      apply (list_elem_of_lookup_2 _ _ _ Ht).
    - apply lookup_ge_None in Ht. lia. }
  apply (nested_count m _ f Hf); [lia | exact Hin | exact Hc | exact Hfuel].
Qed.

Lemma loaded_container_count_witness :
  json_num 5 (doc doc_nested)
    (str (tok_at (tok_array [Token JSON_STRING 1002 1 0 0;
                             Token JSON_OBJECT 1005 16 2 4;
                             Token JSON_STRING 1007 1 0 0;
                             Token JSON_NUMBER 1010 1 0 0;
                             Token JSON_STRING 1013 1 0 0;
                             Token JSON_STRING 1017 2 0 0]) 1))
    (len (tok_at (tok_array [Token JSON_STRING 1002 1 0 0;
                             Token JSON_OBJECT 1005 16 2 4;
                             Token JSON_STRING 1007 1 0 0;
                             Token JSON_NUMBER 1010 1 0 0;
                             Token JSON_STRING 1013 1 0 0;
                             Token JSON_STRING 1017 2 0 0]) 1))
  = Some (sub (tok_at (tok_array [Token JSON_STRING 1002 1 0 0;
                                  Token JSON_OBJECT 1005 16 2 4;
                                  Token JSON_STRING 1007 1 0 0;
                                  Token JSON_NUMBER 1010 1 0 0;
                                  Token JSON_STRING 1013 1 0 0;
                                  Token JSON_STRING 1017 2 0 0]) 1)).
Proof.
  apply (loaded_container_count (doc doc_nested) 1000 22 8 12 5
           (tok_array [Token JSON_STRING 1002 1 0 0;
                       Token JSON_OBJECT 1005 16 2 4;
                       Token JSON_STRING 1007 1 0 0;
                       Token JSON_NUMBER 1010 1 0 0;
                       Token JSON_STRING 1013 1 0 0;
                       Token JSON_STRING 1017 2 0 0]) 6 1);
    [lia | lia | lia | | vm_compute; reflexivity | lia | reflexivity
    | vm_compute; lia].
  exists (Iter 0 false 1 GO_STRUCT 1022), (Token JSON_OBJECT 1000 22 1 6).
  split; [left; reflexivity |].
  split; [vm_compute; reflexivity |].
  split; [reflexivity | split; reflexivity].
Defined.

(** X17: json_ipow (10, e) is the power of ten for exponents up to 15. *)
Theorem json_ipow_exact (e : Z) :
  0 <= e < 16 -> json_ipow 10 e = inject_Z (10 ^ e).
Proof.
  intros He.
  assert (H : e = 0 \/ e = 1 \/ e = 2 \/ e = 3 \/ e = 4 \/ e = 5 \/ e = 6
              \/ e = 7 \/ e = 8 \/ e = 9 \/ e = 10 \/ e = 11 \/ e = 12
              \/ e = 13 \/ e = 14 \/ e = 15) by lia.
  repeat destruct H as [-> | H]; try subst e; vm_compute; reflexivity.
Qed.

Lemma json_ipow_exact_witness : json_ipow 10 3 = inject_Z (10 ^ 3).
Proof. apply (json_ipow_exact 3). lia. Defined.

(** X18: From exponent 16 on the squared base, an [int], has wrapped around:
    for the exponents 16 to 31 json_ipow (10, e) is not the power of
    ten. *)
Theorem json_ipow_overflow (e : Z) :
  16 <= e < 32 -> json_ipow 10 e <> inject_Z (10 ^ e).
Proof.
  intros He.
  assert (H : e = 16 \/ e = 17 \/ e = 18 \/ e = 19 \/ e = 20 \/ e = 21
              \/ e = 22 \/ e = 23 \/ e = 24 \/ e = 25 \/ e = 26 \/ e = 27
              \/ e = 28 \/ e = 29 \/ e = 30 \/ e = 31) by lia.
  repeat destruct H as [-> | H]; try subst e; vm_compute; discriminate.
Qed.

Lemma json_ipow_overflow_witness : json_ipow 10 16 <> inject_Z (10 ^ 16).
Proof. apply (json_ipow_overflow 16). lia. Defined.

Lemma convert_loop_all_loop (m : memory) (n : nat) :
  forall (s : convert_state) (cur : Z),
    Forall (fun c => json_go_num c = JSON_STATE_NUM_LOOP) (mem_bytes m cur n) ->
    convert_loop n m s cur = Some (s, cur + Z.of_nat n).
Proof.
  induction n as [| n IH]; intros s cur Hall.
  - cbn [convert_loop Z.of_nat]. rewrite Z.add_0_r. reflexivity.
  - rewrite mem_bytes_S in Hall. inversion Hall as [| c l Hc Hl]; subst.
    cbn [convert_loop]. rewrite Hc. rewrite IH by exact Hl.
    do 2 f_equal. lia.
Qed.

Lemma stoi_fold (ds : list Z) :
  Forall (fun c => is_digit c = true) ds ->
  forall (a : Q) (z : Z),
    (a == inject_Z z)%Q ->
    (fold_left
       (fun (n : Q) (c : Z) =>
          if is_digit c
          then (n * inject_Z 10 + inject_Z c - inject_Z (ch "0"))%Q
          else n) ds a
     == inject_Z (fold_left (fun n c => 10 * n + (c - ch "0"))%Z ds z))%Q.
Proof.
  induction 1 as [| c ds Hc _ IH]; intros a z Ha; cbn [fold_left];
    [exact Ha |].
  rewrite Hc. apply IH. rewrite Ha.
  rewrite inject_Z_plus, inject_Z_mult.
  unfold Z.sub. rewrite inject_Z_plus, inject_Z_opp. ring.
Qed.

Lemma digit_not_sign (c : Z) :
  is_digit c = true -> (c =? ch "-") = false /\ (c =? ch "+") = false.
Proof.
  unfold is_digit. chvals. intros H. apply andb_true_iff in H.
  destruct H as [H1 H2]. apply Z.leb_le in H1, H2.
  split; apply Z.eqb_neq; lia.
Qed.

(** json_stoi on a token made of an optional sign and digits. *)
Lemma json_stoi_value (m : memory) (tok : json_token) (sign ds : list Z) :
  str tok <> 0 -> 0 < len tok ->
  token_bytes m tok = sign ++ ds ->
  sign = [] \/ sign = [ch "-"] \/ sign = [ch "+"] ->
  Forall (fun c => is_digit c = true) ds ->
  (json_stoi m tok == inject_Z (signed sign (decimal ds)))%Q.
Proof.
  intros Hs Hl Hbytes Hsign Hds. unfold json_stoi.
  destruct (Z.eqb_spec (str tok) 0) as [? | _]; [contradiction |].
  destruct (Z.eqb_spec (len tok) 0) as [? | _]; [lia |]. cbn [orb].
  unfold token_bytes in Hbytes.
  destruct (Z.to_nat (len tok)) as [| n] eqn:Hn; [lia |].
  rewrite mem_bytes_S in Hbytes.
  destruct Hsign as [-> | Hsign].
  - (* no sign *)
    cbn [List.app] in Hbytes.
    assert (Hc0 : is_digit (peek m (str tok)) = true).
    { rewrite <- Hbytes in Hds. inversion Hds; assumption. }
    destruct (digit_not_sign _ Hc0) as [-> ->]. cbn [orb signed].
    assert (Htb : tok_bytes m tok 0 = ds).
    { rewrite <- Hbytes, <- mem_bytes_S, <- Hn. unfold tok_bytes, mem_bytes.
      rewrite Z.sub_0_r. apply map_ext. intros i. f_equal. lia. }
    rewrite Htb. apply (stoi_fold ds Hds 0%Q 0). reflexivity.
  - (* a sign *)
    assert (Htb : tok_bytes m tok 1 = ds
                  /\ (peek m (str tok) = ch "-" \/ peek m (str tok) = ch "+")
                  /\ sign = [peek m (str tok)]).
    { destruct Hsign as [-> | ->]; cbn [List.app] in Hbytes;
        injection Hbytes as Hc Hrest; rewrite Hc;
        (split; [| split; [auto | reflexivity]]);
        rewrite <- Hrest; unfold tok_bytes, mem_bytes;
        replace (Z.to_nat (len tok - 1)) with n by lia; reflexivity. }
    destruct Htb as (Htb & Hc & ->).
    replace (if (peek m (str tok) =? ch "-") || (peek m (str tok) =? ch "+")
             then 1 else 0) with 1
      by (destruct Hc as [-> | ->]; reflexivity).
    rewrite Htb. cbn [signed].
    pose proof (stoi_fold ds Hds 0%Q 0 ltac:(reflexivity)) as Hfold.
    fold (decimal ds) in Hfold.
    destruct (peek m (str tok) =? ch "-").
    + rewrite Hfold, inject_Z_opp. reflexivity.
    + exact Hfold.
Qed.

Lemma convert_integer (m : memory) (tok : json_token)
    (sign ds : list Z) :
  0 < str tok -> 0 < len tok < 2 ^ 31 ->
  token_bytes m tok = sign ++ ds ->
  sign = [] \/ sign = [ch "-"] \/ sign = [ch "+"] ->
  Forall (fun c => is_digit c = true) ds ->
  (List.length ds <= 15)%nat ->
  exists v : json_number,
    json_convert m tok = (JSON_NUMBER, Some v)
    /\ (v == inject_Z (signed sign (decimal ds)))%Q.
Proof.
  intros Hs Hl Hbytes Hsign Hds _. unfold json_convert.
  destruct (Z.eqb_spec (str tok) 0) as [? | _]; [lia |].
  destruct (Z.eqb_spec (len tok) 0) as [? | _]; [lia |]. cbn [orb].
  rewrite convert_loop_all_loop.
  2:{ fold (token_bytes m tok). rewrite Hbytes. apply Forall_app. split.
      - destruct Hsign as [-> | [-> | ->]]; repeat constructor.
      - eapply Forall_impl; [exact Hds |]. intros c Hc.
        apply digit_loops. exact Hc. }
  cbn [write slot set_slot n_int n_flt n_exp set_str set_len
       type str len children sub JSON_TOKEN_NULL].
  replace (str tok + Z.of_nat (Z.to_nat (len tok)) - str tok)
    with (len tok) by lia.
  rewrite int32_id by lia.
  eexists. split; [reflexivity |].
  set (T := Token JSON_NONE (str tok) (len tok) 0 0).
  assert (Hi : (json_stoi m T == inject_Z (signed sign (decimal ds)))%Q).
  { apply json_stoi_value; auto; cbn [str len T]; try lia. }
  change (set_len (len tok) (set_str (str tok) JSON_TOKEN_NULL)) with T.
  change (json_stof m JSON_TOKEN_NULL) with 0%Q.
  change (json_stoi m JSON_TOKEN_NULL) with 0%Q.
  destruct (Qlt_le_dec 0 0) as [Hlt | _]; [inversion Hlt |].
  change (json_ipow 10 (uint32 (Qfloor 0))) with (inject_Z 1).
  destruct (Qlt_le_dec (json_stoi m T) 0); rewrite Hi; ring.
Qed.

(** X19: json_convert on a token that is an optional sign followed by at
    most 15 decimal digits (the range in which a [double] holds every
    integer exactly) returns JSON_NUMBER and stores the integer the
    digits denote, negated after a minus sign. *)
Theorem json_convert_integer (m : memory) (tok : json_token)
    (sign ds : list Z) :
  0 < str tok -> 0 < len tok < 2 ^ 31 ->
  token_bytes m tok = sign ++ ds ->
  sign = [] \/ sign = [ch "-"] \/ sign = [ch "+"] ->
  Forall (fun c => is_digit c = true) ds ->
  (List.length ds <= 15)%nat ->
  exists v : json_number,
    json_convert m tok = (JSON_NUMBER, Some v)
    /\ (v == inject_Z (signed sign (decimal ds)))%Q.
Proof. intros. eapply convert_integer; eassumption. Qed.

Lemma json_convert_integer_witness :
  exists v : json_number,
    json_convert (doc "-42") (Token JSON_NUMBER 1000 3 0 0)
    = (JSON_NUMBER, Some v)
    /\ (v == inject_Z (signed [ch "-"] (decimal [ch "4"; ch "2"])))%Q.
Proof.
  apply (json_convert_integer (doc "-42") (Token JSON_NUMBER 1000 3 0 0)
           [ch "-"] [ch "4"; ch "2"]);
    [cbn; lia | cbn; lia | reflexivity | right; left; reflexivity
    | repeat constructor | cbn; lia].
Defined.

Lemma plain_name_parse (m : memory) (path : Z) (k : nat) (tok : json_token) :
  plain_name m path k ->
  json_path_parse_name m tok path JSON_DELIMITER
  = (set_len (Z.of_nat k) (set_str path tok), 0).
Proof.
  intros (Hp & Hnz & Hnb & Hk & Hseg & Hend).
  assert (Hd : JSON_DELIMITER <> ch "[") by (vm_compute; discriminate).
  rewrite (parse_name_segment m tok path JSON_DELIMITER k
             Hp Hnz Hnb Hd Hk Hseg).
  rewrite Hend. reflexivity.
Qed.

Lemma key_at_lower (toks : gmap Z json_token) (count : Z) (n : nat) :
  pairs toks count n ->
  forall a : nat, (a <= n)%nat -> 2 * Z.of_nat a <= key_at toks a.
Proof.
  intros Hp. induction a as [| a IH]; intros Ha; [cbn; lia |].
  specialize (IH ltac:(lia)). destruct (Hp a ltac:(lia)) as (_ & _ & Hsub).
  cbn [key_at]. unfold next_key.
  destruct (is_container _); lia.
Qed.

Lemma walk_mismatch (m : memory) (toks : gmap Z json_token) (count : Z)
    (n : nat) (path : Z) (k : nat) (array : json_token) (rest : Z) (a : nat) :
  count < 2 ^ 30 -> pairs toks count n -> (a < n)%nat ->
  json_lcmp m (tok_at toks (key_at toks a)) path (Z.of_nat k) <> 0 ->
  query_body m toks count (at_pair toks path k array count rest a)
  = if count <=? key_at toks (S a) then QReturn None
    else QContinue (at_pair toks path k array count rest (S a)).
Proof.
  intros Hcount Hp Ha Hcmp.
  destruct (Hp a Ha) as (Hkey & Hnext & Hsub).
  pose proof (key_at_lower toks count n Hp a ltac:(lia)) as Hlow.
  unfold query_body, at_pair.
  cbn [q_i q_begin q_name q_array q_index q_size q_path str len set_len
       set_str type children sub].
  rewrite Hkey. cbn [orb].
  destruct (Z.eqb_spec (json_lcmp m (tok_at toks (key_at toks a)) path
                          (Z.of_nat k)) 0) as [? | _]; [contradiction |].
  rewrite (int32_id (Z.of_nat a + 1)) by lia.
  destruct (Z.leb_spec count (Z.of_nat a + 1)) as [? | _]; [lia |].
  rewrite (int32_id (key_at toks a + 1)) by lia.
  destruct (Z.leb_spec count (key_at toks a + 1)) as [? | _]; [lia |].
  assert (Hk : key_at toks (S a) = next_key toks (key_at toks a))
    by reflexivity.
  rewrite Hk. unfold next_key.
  replace (Z.of_nat (S a)) with (Z.of_nat a + 1) by lia.
  destruct (is_container (type (tok_at toks (key_at toks a + 1))));
    rewrite !int32_id by (try rewrite int32_id; lia); reflexivity.
Qed.

Lemma walk_match (m : memory) (toks : gmap Z json_token) (count : Z)
    (n : nat) (path : Z) (k : nat) (array : json_token) (a : nat) :
  count < 2 ^ 30 -> pairs toks count n -> (a < n)%nat ->
  json_lcmp m (tok_at toks (key_at toks a)) path (Z.of_nat k) = 0 ->
  query_body m toks count (at_pair toks path k array count 0 a)
  = QReturn (Some (key_at toks a + 1)).
Proof.
  intros Hcount Hp Ha Hcmp.
  destruct (Hp a Ha) as (Hkey & Hnext & Hsub).
  pose proof (key_at_lower toks count n Hp a ltac:(lia)) as Hlow.
  unfold query_body, at_pair.
  cbn [q_i q_begin q_name q_array q_index q_size q_path str len set_len
       set_str type children sub].
  rewrite Hkey. cbn [orb]. rewrite Hcmp. cbn [Z.eqb].
  rewrite !int32_id by lia.
  destruct (Z.ltb_spec count (key_at toks a + 1)) as [? | _];
    [lia | reflexivity].
Qed.

Lemma walk_found (m : memory) (toks : gmap Z json_token) (count : Z)
    (n : nat) (path : Z) (k : nat) (array : json_token) (j : nat) :
  count < 2 ^ 30 -> pairs toks count n -> (j < n)%nat ->
  json_lcmp m (tok_at toks (key_at toks j)) path (Z.of_nat k) = 0 ->
  (forall j' : nat,
      (j' < j)%nat ->
      json_lcmp m (tok_at toks (key_at toks j')) path (Z.of_nat k) <> 0) ->
  forall (d a extra : nat),
    (a + d = j)%nat ->
    query_loop (S d + extra) m toks count
      (at_pair toks path k array count 0 a)
    = Some (Some (key_at toks j + 1)).
Proof.
  intros Hcount Hp Hj Hcmp Hbefore.
  induction d as [| d IH]; intros a extra Had.
  - replace a with j by lia. cbn [Nat.add query_loop].
    rewrite (walk_match m toks count n) by assumption. reflexivity.
  - cbn [Nat.add query_loop].
    rewrite (walk_mismatch m toks count n);
      [| assumption | assumption | lia | apply Hbefore; lia].
    destruct (Hp (S a) ltac:(lia)) as (_ & Hnext & _).
    destruct (Z.leb_spec count (key_at toks (S a))) as [? | _]; [lia |].
    apply (IH (S a) extra). lia.
Qed.

Lemma walk_missing (m : memory) (toks : gmap Z json_token) (count : Z)
    (n : nat) (path : Z) (k : nat) (array : json_token) :
  count < 2 ^ 30 -> pairs toks count n -> count <= key_at toks n ->
  (forall j : nat,
      (j < n)%nat ->
      json_lcmp m (tok_at toks (key_at toks j)) path (Z.of_nat k) <> 0) ->
  forall (d a extra : nat),
    (a + S d = n)%nat ->
    query_loop (S d + extra) m toks count
      (at_pair toks path k array count 0 a)
    = Some None.
Proof.
  intros Hcount Hp Hend Hnone.
  induction d as [| d IH]; intros a extra Had.
  - cbn [Nat.add query_loop].
    rewrite (walk_mismatch m toks count n);
      [| assumption | assumption | lia | apply Hnone; lia].
    replace (S a) with n by lia.
    destruct (Z.leb_spec count (key_at toks n)) as [_ | ?]; [reflexivity | lia].
  - cbn [Nat.add query_loop].
    rewrite (walk_mismatch m toks count n);
      [| assumption | assumption | lia | apply Hnone; lia].
    destruct (Hp (S a) ltac:(lia)) as (_ & Hnext & _).
    destruct (Z.leb_spec count (key_at toks (S a))) as [? | _]; [lia |].
    apply (IH (S a) extra). lia.
Qed.

Lemma query_key_start (m : memory) (toks : gmap Z json_token) (count : Z)
    (path : Z) (k : nat) (fuel : nat) :
  count <> 0 -> plain_name m path k ->
  json_query (S fuel) m toks count path
  = query_loop fuel m toks count
      (at_pair toks path k (set_len 0 (set_str 0 JSON_TOKEN_NULL)) count 0 0).
Proof.
  intros Hn Hname. unfold json_query.
  destruct (Z.eqb_spec count 0) as [? | _]; [contradiction |].
  destruct Hname as (Hp & Hrest).
  destruct (Z.eqb_spec path 0) as [? | _]; [lia |].
  rewrite (plain_name_parse m path k) by (split; assumption).
  cbn [query_loop]. unfold query_body at 1.
  cbn [q_i q_begin q_name q_array q_index q_size q_path].
  rewrite orb_true_r. reflexivity.
Qed.

Lemma query_key_found (m : memory) (toks : gmap Z json_token)
    (count : Z) (n : nat) (path : Z) (k j fuel : nat) :
  count < 2 ^ 30 -> plain_name m path k ->
  pairs toks count n -> (j < n)%nat ->
  json_lcmp m (tok_at toks (key_at toks j)) path (Z.of_nat k) = 0 ->
  (forall j' : nat,
      (j' < j)%nat ->
      json_lcmp m (tok_at toks (key_at toks j')) path (Z.of_nat k) <> 0) ->
  (j + 2 <= fuel)%nat ->
  json_query fuel m toks count path = Some (Some (key_at toks j + 1)).
Proof.
  intros Hcount Hname Hp Hj Hcmp Hbefore Hfuel.
  destruct fuel as [| fuel]; [lia |].
  destruct (Hp j Hj) as (_ & Hnext & _).
  pose proof (key_at_lower toks count n Hp j ltac:(lia)) as Hlow.
  rewrite (query_key_start m toks count path k) by (try lia; assumption).
  replace fuel with (S j + (fuel - S j))%nat by lia.
  apply (walk_found m toks count n path k _ j); auto.
Qed.

(** X20: json_query with a path that is one plain name walks the keys of the
    outermost object, from [toks[0]] on, stepping over each value and
    the tokens nested in it, and returns the value that follows the
    first key json_lcmp accepts. *)
Theorem json_query_key_found (m : memory) (toks : gmap Z json_token)
    (count : Z) (n : nat) (path : Z) (k j fuel : nat) :
  count < 2 ^ 30 -> plain_name m path k ->
  pairs toks count n -> (j < n)%nat ->
  json_lcmp m (tok_at toks (key_at toks j)) path (Z.of_nat k) = 0 ->
  (forall j' : nat,
      (j' < j)%nat ->
      json_lcmp m (tok_at toks (key_at toks j')) path (Z.of_nat k) <> 0) ->
  (j + 2 <= fuel)%nat ->
  json_query fuel m toks count path = Some (Some (key_at toks j + 1)).
Proof. intros. eapply query_key_found; eassumption. Qed.

Lemma query_key_missing (m : memory) (toks : gmap Z json_token)
    (count : Z) (n : nat) (path : Z) (k fuel : nat) :
  (0 < n)%nat -> count < 2 ^ 30 -> plain_name m path k ->
  pairs toks count n -> count <= key_at toks n ->
  (forall j : nat,
      (j < n)%nat ->
      json_lcmp m (tok_at toks (key_at toks j)) path (Z.of_nat k) <> 0) ->
  (n + 1 <= fuel)%nat ->
  json_query fuel m toks count path = Some None.
Proof.
  intros Hn Hcount Hname Hp Hend Hnone Hfuel.
  destruct fuel as [| fuel]; [lia |].
  destruct (Hp O Hn) as (_ & Hnext & _). cbn [key_at] in Hnext.
  rewrite (query_key_start m toks count path k) by (try lia; assumption).
  destruct n as [| n']; [lia |].
  replace fuel with (S n' + (fuel - S n'))%nat by lia.
  apply (walk_missing m toks count (S n') path k _ Hcount Hp Hend Hnone n' 0).
  lia.
Qed.

(** X21: When json_lcmp accepts none of the keys of the outermost object,
    json_query returns null: a key that occurs only inside a nested
    value is not found by a one-name path. *)
Theorem json_query_key_missing (m : memory) (toks : gmap Z json_token)
    (count : Z) (n : nat) (path : Z) (k fuel : nat) :
  (0 < n)%nat -> count < 2 ^ 30 -> plain_name m path k ->
  pairs toks count n -> count <= key_at toks n ->
  (forall j : nat,
      (j < n)%nat ->
      json_lcmp m (tok_at toks (key_at toks j)) path (Z.of_nat k) <> 0) ->
  (n + 1 <= fuel)%nat ->
  json_query fuel m toks count path = Some None.
Proof. intros. eapply query_key_missing; eassumption. Qed.

(** A one-byte name after a document is a plain name. *)
Ltac one_byte_name :=
  unfold plain_name;
  split; [lia |];
  split; [vm_compute; discriminate |];
  split; [vm_compute; discriminate |];
  split; [cbn; lia |];
  split;
  [ split;
    [ intros i Hi; destruct i as [| i]; [| lia];
      split; [vm_compute; discriminate |];
      split; vm_compute; discriminate
    | left; vm_compute; reflexivity ]
  | vm_compute; reflexivity ].

Ltac pairs_cases :=
  intros a Ha;
  repeat (destruct a as [| a]; [vm_compute; repeat split; congruence |]);
  lia.

Lemma json_query_key_found_witness :
  json_query 3 (doc_path doc_nested "o")
    (store ∅ 0 [Token JSON_STRING 1002 1 0 0; Token JSON_OBJECT 1005 16 2 4;
                Token JSON_STRING 1007 1 0 0; Token JSON_NUMBER 1010 1 0 0;
                Token JSON_STRING 1013 1 0 0; Token JSON_STRING 1017 2 0 0])
    6 1023
  = Some (Some (key_at
                  (store ∅ 0 [Token JSON_STRING 1002 1 0 0;
                              Token JSON_OBJECT 1005 16 2 4;
                              Token JSON_STRING 1007 1 0 0;
                              Token JSON_NUMBER 1010 1 0 0;
                              Token JSON_STRING 1013 1 0 0;
                              Token JSON_STRING 1017 2 0 0]) 0 + 1)).
Proof.
  apply (json_query_key_found (doc_path doc_nested "o") _ 6 1 1023 1 0 3);
    [lia | one_byte_name | pairs_cases | lia | vm_compute; reflexivity
    | intros j' Hj'; lia | lia].
Defined.

Lemma json_query_key_missing_witness :
  json_query 3 (doc_path doc_nested "a")
    (store ∅ 0 [Token JSON_STRING 1002 1 0 0; Token JSON_OBJECT 1005 16 2 4;
                Token JSON_STRING 1007 1 0 0; Token JSON_NUMBER 1010 1 0 0;
                Token JSON_STRING 1013 1 0 0; Token JSON_STRING 1017 2 0 0])
    6 1023
  = Some None.
Proof.
  apply (json_query_key_missing (doc_path doc_nested "a") _ 6 1 1023 1 3);
    [lia | lia | one_byte_name | pairs_cases | vm_compute; discriminate
    | | lia].
  intros j Hj. destruct j as [| j]; [| lia]. vm_compute. discriminate.
Defined.

(** X22: A key that is not among the keys of the outermost object makes the
    three typed queries return JSON_NONE; the number is not stored, the
    buffer and the size are left alone. *)
Theorem json_query_typed_missing (m : memory) (toks : gmap Z json_token)
    (count : Z) (n : nat) (path : Z) (k fuel : nat) (buffer : gmap Z Z)
    (max : Z) :
  (0 < n)%nat -> count < 2 ^ 30 -> plain_name m path k ->
  pairs toks count n -> count <= key_at toks n ->
  (forall j : nat,
      (j < n)%nat ->
      json_lcmp m (tok_at toks (key_at toks j)) path (Z.of_nat k) <> 0) ->
  (n + 1 <= fuel)%nat ->
  json_query_type fuel m toks count path = Some JSON_NONE
  /\ json_query_number fuel m toks count path = Some (JSON_NONE, None)
  /\ json_query_string fuel m buffer max toks count path
     = Some (JSON_NONE, buffer, None).
Proof.
  intros Hn Hcount Hname Hp Hend Hnone Hfuel.
  pose proof (query_key_missing m toks count n path k fuel
                Hn Hcount Hname Hp Hend Hnone Hfuel) as Hq.
  destruct (Hp O Hn) as (_ & Hnext & _). cbn [key_at] in Hnext.
  destruct Hname as (Hpath & _).
  unfold json_query_type, json_query_number, json_query_string.
  destruct (Z.eqb_spec count 0) as [? | _]; [lia |].
  destruct (Z.eqb_spec path 0) as [? | _]; [lia |].
  cbn [orb]. rewrite Hq. auto.
Qed.

Lemma json_query_typed_missing_witness :
  json_query_type 3 (doc_path doc_nested "a")
    (store ∅ 0 [Token JSON_STRING 1002 1 0 0; Token JSON_OBJECT 1005 16 2 4;
                Token JSON_STRING 1007 1 0 0; Token JSON_NUMBER 1010 1 0 0;
                Token JSON_STRING 1013 1 0 0; Token JSON_STRING 1017 2 0 0])
    6 1023 = Some JSON_NONE
  /\ json_query_number 3 (doc_path doc_nested "a")
       (store ∅ 0 [Token JSON_STRING 1002 1 0 0; Token JSON_OBJECT 1005 16 2 4;
                   Token JSON_STRING 1007 1 0 0; Token JSON_NUMBER 1010 1 0 0;
                   Token JSON_STRING 1013 1 0 0; Token JSON_STRING 1017 2 0 0])
       6 1023 = Some (JSON_NONE, None)
  /\ json_query_string 3 (doc_path doc_nested "a") ∅ 8
       (store ∅ 0 [Token JSON_STRING 1002 1 0 0; Token JSON_OBJECT 1005 16 2 4;
                   Token JSON_STRING 1007 1 0 0; Token JSON_NUMBER 1010 1 0 0;
                   Token JSON_STRING 1013 1 0 0; Token JSON_STRING 1017 2 0 0])
       6 1023 = Some (JSON_NONE, ∅, None).
Proof.
  apply (json_query_typed_missing (doc_path doc_nested "a") _ 6 1 1023 1 3
           ∅ 8);
    [lia | lia | one_byte_name | pairs_cases | vm_compute; discriminate
    | | lia].
  intros j Hj. destruct j as [| j]; [| lia]. vm_compute. discriminate.
Defined.

(** X23: json_query_number with a one-name path: when the value that follows
    the first accepted key of the outermost object is a number token
    made of an optional sign and at most 15 digits, the query returns
    JSON_NUMBER and stores the integer the digits denote. *)
Theorem json_query_number_found (m : memory) (toks : gmap Z json_token)
    (count : Z) (n : nat) (path : Z) (k j fuel : nat) (sign ds : list Z) :
  count < 2 ^ 30 -> plain_name m path k ->
  pairs toks count n -> (j < n)%nat ->
  json_lcmp m (tok_at toks (key_at toks j)) path (Z.of_nat k) = 0 ->
  (forall j' : nat,
      (j' < j)%nat ->
      json_lcmp m (tok_at toks (key_at toks j')) path (Z.of_nat k) <> 0) ->
  (j + 2 <= fuel)%nat ->
  type (tok_at toks (key_at toks j + 1)) = JSON_NUMBER ->
  0 < str (tok_at toks (key_at toks j + 1)) ->
  0 < len (tok_at toks (key_at toks j + 1)) < 2 ^ 31 ->
  token_bytes m (tok_at toks (key_at toks j + 1)) = sign ++ ds ->
  sign = [] \/ sign = [ch "-"] \/ sign = [ch "+"] ->
  Forall (fun c => is_digit c = true) ds ->
  (List.length ds <= 15)%nat ->
  exists v : json_number,
    json_query_number fuel m toks count path = Some (JSON_NUMBER, Some v)
    /\ (v == inject_Z (signed sign (decimal ds)))%Q.
Proof.
  intros Hcount Hname Hp Hj Hcmp Hbefore Hfuel Hty Hs Hl Hbytes Hsign Hds
         Hlen.
  pose proof (query_key_found m toks count n path k j fuel
                Hcount Hname Hp Hj Hcmp Hbefore Hfuel) as Hq.
  destruct (convert_integer m _ sign ds Hs Hl Hbytes Hsign Hds Hlen)
    as (v & Hv & Hval).
  exists v. split; [| exact Hval].
  destruct (Hp j Hj) as (_ & Hnext & _).
  pose proof (key_at_lower toks count n Hp j ltac:(lia)) as Hlow.
  destruct Hname as (Hpath & _).
  unfold json_query_number.
  destruct (Z.eqb_spec count 0) as [? | _]; [lia |].
  destruct (Z.eqb_spec path 0) as [? | _]; [lia |].
  cbn [orb]. rewrite Hq, Hty. cbn [type_eqb negb]. rewrite Hv. reflexivity.
Qed.

Lemma json_query_number_found_witness :
  exists v : json_number,
    json_query_number 3 (doc_path doc_ab "a")
      (store ∅ 0 [Token JSON_STRING 1002 1 0 0; Token JSON_NUMBER 1005 1 0 0;
                  Token JSON_STRING 1008 1 0 0; Token JSON_STRING 1012 2 0 0])
      4 1017
    = Some (JSON_NUMBER, Some v)
    /\ (v == inject_Z (signed [] (decimal [ch "1"])))%Q.
Proof.
  apply (json_query_number_found (doc_path doc_ab "a") _ 4 2 1017 1 0 3
           [] [ch "1"]);
    [lia | one_byte_name | pairs_cases | lia | vm_compute; reflexivity
    | intros j' Hj'; lia | lia | reflexivity | vm_compute; reflexivity
    | vm_compute; split; [reflexivity | reflexivity]
    | vm_compute; reflexivity | left; reflexivity | repeat constructor
    | cbn; lia].
Defined.

(** X24: json_parse reads a name and a value: both reads stay inside the
    buffer of the iterator, and when the second read took place without
    an error, a finished value lies inside the buffer, after the end of
    a finished name. *)
Theorem json_parse_ordered (m : memory) (it : json_iter) :
  0 <= ilen it < 2 ^ 31 ->
  exists (it' : json_iter) (name value : json_token),
    json_parse m (Some it) = Some (it', (name, value))
    /\ iter_within (src it) (ilen it) it'
    /\ (type name <> JSON_NONE -> token_within (src it) (ilen it) name)
    /\ (err it' = false -> type value <> JSON_NONE ->
        token_within (src it) (ilen it) value
        /\ (type name <> JSON_NONE -> str name + len name <= str value)).
Proof.
  intros Hlen. unfold json_parse.
  destruct (read_within m it Hlen) as (it1 & name & -> & Hiw & Htw).
  destruct (err it1) eqn:He1.
  - exists it1, name, JSON_TOKEN_NULL. split; [reflexivity |].
    split; [exact Hiw |]. split; [intros Hn; apply Htw; exact Hn |].
    intros He. congruence.
  - assert (Hlen1 : 0 <= ilen it1 < 2 ^ 31)
      by (destruct Hiw as [[_ ->] | (? & ? & ?)]; lia).
    destruct (read_within m it1 Hlen1) as (it2 & value & Hr & Hiw2 & Htw2).
    rewrite Hr. exists it2, name, value. split; [reflexivity |].
    destruct Hiw as [[Hs0 Hl0] | (Hs1 & Hl1 & Hsum)].
    + (* the first read exhausted the input *)
      unfold json_read in Hr. rewrite Hs0 in Hr. cbn [Z.eqb orb] in Hr.
      injection Hr as <- <-.
      split; [left; split; reflexivity |].
      split; [intros Hn; apply Htw; exact Hn |].
      intros He. cbn in He. discriminate.
    + split.
      { destruct Hiw2 as [[? ?] | (? & ? & ?)]; [left; auto | right; lia]. }
      split; [intros Hn; apply Htw; exact Hn |].
      intros He Hv. destruct (Htw2 Hv) as [(Hv1 & Hv2 & Hv3) _].
      split; [unfold token_within; lia |].
      intros Hn. destruct (Htw Hn) as [_ [Hz | [Hb _]]]; [| lia].
      (* a first iterator without source makes the second read fail *)
      unfold json_read in Hr. rewrite Hz in Hr. cbn [Z.eqb orb] in Hr.
      injection Hr as <- <-. cbn in He. discriminate.
Qed.

Lemma json_parse_ordered_witness :
  exists (it' : json_iter) (name value : json_token),
    json_parse (doc doc_ab) (Some (json_begin 1000 16))
    = Some (it', (name, value))
    /\ iter_within (src (json_begin 1000 16)) (ilen (json_begin 1000 16)) it'
    /\ (type name <> JSON_NONE ->
        token_within (src (json_begin 1000 16)) (ilen (json_begin 1000 16))
          name)
    /\ (err it' = false -> type value <> JSON_NONE ->
        token_within (src (json_begin 1000 16)) (ilen (json_begin 1000 16))
          value
        /\ (type name <> JSON_NONE -> str name + len name <= str value)).
Proof.
  apply (json_parse_ordered (doc doc_ab) (json_begin 1000 16)). cbn. lia.
Defined.

Lemma decimal_bound (ds : list Z) :
  Forall (fun c => is_digit c = true) ds ->
  0 <= decimal ds < 10 ^ Z.of_nat (List.length ds).
Proof.
  unfold decimal.
  assert (H : forall (l : list Z) (z : Z) (n : nat),
             Forall (fun c => is_digit c = true) l ->
             0 <= z < 10 ^ Z.of_nat n ->
             0 <= fold_left (fun n c => 10 * n + (c - ch "0")) l z
             < 10 ^ Z.of_nat (n + List.length l)).
  { induction l as [| c l IH]; intros z n Hl Hz.
    - cbn [fold_left List.length]. rewrite Nat.add_0_r. exact Hz.
    - inversion Hl as [| c' l' Hc Hl']; subst.
      cbn [fold_left List.length].
      replace (n + S (List.length l))%nat with (S n + List.length l)%nat
        by lia.
      apply IH; [exact Hl' |].
      unfold is_digit in Hc. revert Hc. chvals. intros Hc.
      apply andb_true_iff in Hc. destruct Hc as [H1 H2].
      apply Z.leb_le in H1, H2.
      rewrite Nat2Z.inj_succ, Z.pow_succ_r by lia. lia. }
  intros Hds. apply (H ds 0 O Hds). cbn. lia.
Qed.

Lemma number_to_int_exact (v : Q) (q : Z) :
  (v == inject_Z q)%Q -> - 2 ^ 31 <= q < 2 ^ 31 ->
  number_to_int v = q /\ Qceiling v = q.
Proof.
  intros Hv Hq. split.
  - unfold number_to_int. unfold Qeq in Hv. cbn in Hv.
    rewrite Z.mul_1_r in Hv. rewrite Hv.
    rewrite Z.quot_mul by lia. apply int32_id. exact Hq.
  - rewrite Hv. apply Qceiling_Z.
Qed.

Lemma skip_elements_elems (toks : gmap Z json_token) (count i0 : Z)
    (v : Q) (q : nat) :
  (v == inject_Z (Z.of_nat q))%Q -> count < 2 ^ 30 -> Z.of_nat q < 2 ^ 30 ->
  0 <= i0 -> elems toks count i0 q ->
  forall (d a : nat),
    (a + d = q)%nat -> 0 <= elem_at toks i0 a <= count ->
    skip_elements d toks count v (Z.of_nat a) (elem_at toks i0 a)
    = Some (elem_at toks i0 q).
Proof.
  intros Hv Hcount Hq Hi0 Helems.
  induction d as [| d IH]; intros a Had Ha.
  - replace a with q by lia. reflexivity.
  - cbn [skip_elements].
    destruct (Qlt_le_dec (inject_Z (Z.of_nat a)) v) as [_ | Hle].
    2:{ exfalso. rewrite Hv in Hle. rewrite <- Zle_Qle in Hle. lia. }
    destruct (Helems a ltac:(lia)) as (Hsub & Hnext).
    assert (Hk : elem_at toks i0 (S a) = next_elem toks (elem_at toks i0 a))
      by reflexivity.
    rewrite Hk in Hnext. unfold next_elem in Hnext.
    assert (Hstep :
              (if is_container (type (tok_at toks (elem_at toks i0 a)))
               then int32 (int32 (elem_at toks i0 a
                                  + sub (tok_at toks (elem_at toks i0 a))) + 1)
               else int32 (elem_at toks i0 a + 1))
              = elem_at toks i0 (S a)).
    { rewrite Hk. unfold next_elem.
      destruct (is_container _);
        rewrite !int32_id by (try rewrite int32_id; lia); reflexivity. }
    rewrite Hstep. rewrite Hk. unfold next_elem.
    destruct (Z.ltb_spec count
                (if is_container (type (tok_at toks (elem_at toks i0 a)))
                 then elem_at toks i0 a
                      + sub (tok_at toks (elem_at toks i0 a)) + 1
                 else elem_at toks i0 a + 1)) as [? | _]; [lia |].
    rewrite (int32_id (Z.of_nat a + 1)) by lia.
    replace (Z.of_nat a + 1) with (Z.of_nat (S a)) by lia.
    fold (next_elem toks (elem_at toks i0 a)). rewrite <- Hk.
    apply IH; [lia |]. rewrite Hk. unfold next_elem.
    destruct (is_container _); lia.
Qed.

Lemma walk_to (m : memory) (toks : gmap Z json_token) (count : Z)
    (n : nat) (path : Z) (k : nat) (array : json_token) (rest : Z) (j : nat) :
  count < 2 ^ 30 -> pairs toks count n -> (j < n)%nat ->
  (forall j' : nat,
      (j' < j)%nat ->
      json_lcmp m (tok_at toks (key_at toks j')) path (Z.of_nat k) <> 0) ->
  forall (d a fuel : nat),
    (a + d = j)%nat ->
    query_loop (d + fuel) m toks count (at_pair toks path k array count rest a)
    = query_loop fuel m toks count (at_pair toks path k array count rest j).
Proof.
  intros Hcount Hp Hj Hbefore.
  induction d as [| d IH]; intros a fuel Had.
  - replace a with j by lia. reflexivity.
  - cbn [Nat.add query_loop].
    rewrite (walk_mismatch m toks count n);
      [| assumption | assumption | lia | apply Hbefore; lia].
    destruct (Hp (S a) ltac:(lia)) as (_ & Hnext & _).
    destruct (Z.leb_spec count (key_at toks (S a))) as [? | _]; [lia |].
    apply (IH (S a) fuel). lia.
Qed.

(** The round of [json_query] at an accepted key that is followed by an
    index: the walk moves to the value and the index segment becomes
    the name. *)
Lemma walk_descend (m : memory) (toks : gmap Z json_token) (count : Z)
    (n : nat) (path : Z) (k e : nat) (array : json_token) (j : nat) :
  count < 2 ^ 30 -> pairs toks count n -> (j < n)%nat ->
  json_lcmp m (tok_at toks (key_at toks j)) path (Z.of_nat k) = 0 ->
  is_container (type (tok_at toks (key_at toks j + 1))) = true ->
  0 < path ->
  peek m (path + Z.of_nat k) = ch "[" ->
  first_stop m (path + Z.of_nat k) (ch "]") e ->
  Z.of_nat e + 1 < 2 ^ 31 ->
  peek m (path + Z.of_nat k + Z.of_nat e + 1) = 0 ->
  query_body m toks count
    (at_pair toks path k array count (path + Z.of_nat k) j)
  = QContinue
      (QueryState (key_at toks j + 1) false
         (Token JSON_NONE (path + Z.of_nat k) (Z.of_nat e + 1) 0 0)
         array (Z.of_nat j) count 0).
Proof.
  intros Hcount Hp Hj Hcmp Hval Hpath Hopen Hstop He Hend.
  destruct (Hp j Hj) as (Hkey & Hnext & Hsub).
  pose proof (key_at_lower toks count n Hp j ltac:(lia)) as Hlow.
  unfold query_body, at_pair.
  cbn [q_i q_begin q_name q_array q_index q_size q_path str len set_len
       set_str type children sub].
  rewrite Hkey. cbn [orb]. rewrite Hcmp. cbn [Z.eqb].
  destruct (Z.eqb_spec (path + Z.of_nat k) 0) as [? | _]; [lia |].
  rewrite !int32_id by lia.
  destruct (Z.ltb_spec count (key_at toks j + 1)) as [? | _]; [lia |].
  rewrite Hval. cbn [negb].
  destruct (parse_index m
              (set_len (Z.of_nat k) (set_str path JSON_TOKEN_NULL)) array
              (path + Z.of_nat k) JSON_DELIMITER e
              ltac:(lia) Hopen He Hstop) as [Hname _].
  rewrite Hname, Hend. reflexivity.
Qed.

(** The round of [json_query] at an array token with an index segment
    as the name and no path left: the walk steps over as many elements
    as the index says and returns the element it reaches. *)
Lemma walk_index (m : memory) (toks : gmap Z json_token) (count : Z)
    (i rest : Z) (e : nat) (ds : list Z) (array : json_token)
    (index size : Z) :
  count < 2 ^ 30 -> 0 <= i -> i + 2 < count ->
  type (tok_at toks (i + 1)) = JSON_ARRAY ->
  0 < rest ->
  peek m rest = ch "[" ->
  first_stop m rest (ch "]") e ->
  peek m (rest + Z.of_nat e) = ch "]" ->
  Z.of_nat e + 1 < 2 ^ 31 ->
  mem_bytes m (rest + 1) (e - 1) = ds ->
  Forall (fun c => is_digit c = true) ds ->
  (1 <= List.length ds <= 9)%nat ->
  decimal ds < children (tok_at toks (i + 1)) ->
  elems toks count (i + 2) (Z.to_nat (decimal ds)) ->
  query_body m toks count
    (QueryState (i + 1) false (Token JSON_NONE rest (Z.of_nat e + 1) 0 0)
       array index size 0)
  = QReturn (Some (elem_at toks (i + 2) (Z.to_nat (decimal ds)))).
Proof.
  intros Hcount Hi Hroom Hty Hrest Hopen Hstop Hclose He Hbytes Hds Hlen
         Hchildren Helems.
  assert (Hel : List.length ds = (e - 1)%nat).
  { rewrite <- Hbytes. unfold mem_bytes. rewrite length_map, length_seq.
    reflexivity. }
  pose proof (decimal_bound ds Hds) as Hq.
  assert (Hq9 : 10 ^ Z.of_nat (List.length ds) <= 10 ^ 9)
    by (apply Z.pow_le_mono_r; lia).
  change (10 ^ 9) with 1000000000 in Hq9.
  unfold query_body.
  cbn [q_i q_begin q_name q_array q_index q_size q_path].
  rewrite Hty. cbn [is_container orb type_eqb].
  destruct (parse_index m
              (Token JSON_NONE rest (Z.of_nat e + 1) 0 0) array
              rest JSON_DELIMITER e Hrest Hopen He Hstop) as [_ Harr].
  specialize (Harr Hclose).
  change (set_len (Z.of_nat e + 1)
            (set_str rest (Token JSON_NONE rest (Z.of_nat e + 1) 0 0)))
    with (Token JSON_NONE rest (Z.of_nat e + 1) 0 0) in Harr.
  rewrite Harr. cbn [negb].
  replace (i + 1 + 1) with (i + 2) by lia.
  rewrite (int32_id (i + 2)) by lia.
  destruct (Z.leb_spec count (i + 2)) as [? | _]; [lia |].
  cbn [len]. destruct (Z.ltb_spec (Z.of_nat e - 1) 1) as [? | _]; [lia |].
  destruct (convert_integer m
              (Token (type array) (rest + 1) (Z.of_nat e - 1)
                 (children array) (sub array)) [] ds)
    as (v & Hv & Hval).
  { cbn [str]. lia. }
  { cbn [len]. lia. }
  { unfold token_bytes. cbn [str len List.app].
    replace (Z.to_nat (Z.of_nat e - 1)) with (e - 1)%nat by lia.
    exact Hbytes. }
  { left. reflexivity. }
  { exact Hds. }
  { lia. }
  rewrite Hv. cbn [signed] in Hval.
  destruct (number_to_int_exact v (decimal ds) Hval ltac:(lia))
    as [Hint Hceil].
  rewrite Hint, Hceil.
  destruct (Z.leb_spec (children (tok_at toks (i + 1))) (decimal ds))
    as [? | _]; [lia |].
  pose proof (skip_elements_elems toks count (i + 2) v (Z.to_nat (decimal ds))
                ltac:(rewrite Hval; rewrite Z2Nat.id by lia; reflexivity)
                Hcount ltac:(lia) ltac:(lia) Helems
                (Z.to_nat (decimal ds)) 0 ltac:(lia)
                ltac:(cbn [elem_at]; lia)) as Hskip.
  change (Z.of_nat 0) with 0 in Hskip.
  change (elem_at toks (i + 2) 0) with (i + 2) in Hskip.
  rewrite Hskip. reflexivity.
Qed.

Lemma query_index_start (m : memory) (toks : gmap Z json_token) (count : Z)
    (path : Z) (k e : nat) (ds : list Z) (fuel : nat) :
  count <> 0 -> indexed_name m path k e ds ->
  json_query (S fuel) m toks count path
  = query_loop fuel m toks count
      (at_pair toks path k (set_len 0 (set_str 0 JSON_TOKEN_NULL)) count
         (path + Z.of_nat k) 0).
Proof.
  intros Hn (Hp & Hnz & Hnb & Hk & Hseg & Hopen & _). unfold json_query.
  destruct (Z.eqb_spec count 0) as [? | _]; [contradiction |].
  destruct (Z.eqb_spec path 0) as [? | _]; [lia |].
  assert (Hd : JSON_DELIMITER <> ch "[") by (vm_compute; discriminate).
  rewrite (parse_name_segment m JSON_TOKEN_NULL path JSON_DELIMITER
             k Hp Hnz Hnb Hd Hk Hseg).
  rewrite Hopen.
  replace (ch "[" =? 0) with false by (vm_compute; reflexivity).
  rewrite Z.eqb_refl.
  cbn [query_loop]. unfold query_body at 1.
  cbn [q_i q_begin q_name q_array q_index q_size q_path].
  rewrite orb_true_r. reflexivity.
Qed.

(** X25: json_query with a path [name[q]]: after the first key of the
    outermost object that json_lcmp accepts, when the value is an array
    token with more than [q] children, the query steps over [q]
    elements (and the tokens nested in them) and returns the element it
    reaches. *)
Theorem json_query_array_element (m : memory) (toks : gmap Z json_token)
    (count : Z) (n : nat) (path : Z) (k e : nat) (ds : list Z)
    (j fuel : nat) :
  count < 2 ^ 30 -> indexed_name m path k e ds ->
  pairs toks count n -> (j < n)%nat ->
  json_lcmp m (tok_at toks (key_at toks j)) path (Z.of_nat k) = 0 ->
  (forall j' : nat,
      (j' < j)%nat ->
      json_lcmp m (tok_at toks (key_at toks j')) path (Z.of_nat k) <> 0) ->
  type (tok_at toks (key_at toks j + 1)) = JSON_ARRAY ->
  key_at toks j + 2 < count ->
  decimal ds < children (tok_at toks (key_at toks j + 1)) ->
  elems toks count (key_at toks j + 2) (Z.to_nat (decimal ds)) ->
  (j + 3 <= fuel)%nat ->
  json_query fuel m toks count path
  = Some (Some (elem_at toks (key_at toks j + 2) (Z.to_nat (decimal ds)))).
Proof.
  intros Hcount Hname Hp Hj Hcmp Hbefore Hty Hroom Hchildren Helems Hfuel.
  pose proof Hname as (Hpath & Hnz & Hnb & Hk & Hseg & Hopen & Hstop & Hclose
                       & He & Hend & Hbytes & Hds & Hlen).
  pose proof (key_at_lower toks count n Hp j ltac:(lia)) as Hlow.
  replace fuel with (S (j + S (S (fuel - (j + 3)))))%nat by lia.
  rewrite (query_index_start m toks count path k e ds) by (try lia; assumption).
  rewrite (walk_to m toks count n path k _ _ j Hcount Hp Hj Hbefore j 0)
    by lia.
  cbn [query_loop].
  rewrite (walk_descend m toks count n path k e _ j); auto.
  2:{ rewrite Hty. reflexivity. }
  rewrite (walk_index m toks count (key_at toks j) (path + Z.of_nat k) e ds);
    auto; lia.
Qed.

Lemma json_query_array_element_witness :
  json_query 3 (doc_path doc_arr "a[1]") toks_arr 5 1017
  = Some (Some (elem_at toks_arr (key_at toks_arr 0 + 2)
                  (Z.to_nat (decimal [ch "1"])))).
Proof.
  apply (json_query_array_element (doc_path doc_arr "a[1]") toks_arr 5 1
           1017 1 2 [ch "1"] 0 3);
    [lia | | | lia | vm_compute; reflexivity | intros j' Hj'; lia
    | reflexivity | vm_compute; reflexivity | vm_compute; reflexivity
    | | lia].
  - unfold indexed_name.
    split; [lia |].
    split; [vm_compute; discriminate |].
    split; [vm_compute; discriminate |].
    split; [cbn; lia |].
    split.
    { split.
      - intros i Hi. destruct i as [| i]; [| lia].
        split; [vm_compute; discriminate |].
        split; vm_compute; discriminate.
      - right. right. vm_compute. reflexivity. }
    split; [vm_compute; reflexivity |].
    split.
    { split.
      - intros i Hi. destruct i as [| [| i]]; [| | lia];
          (split; vm_compute; discriminate).
      - left. vm_compute. reflexivity. }
    split; [vm_compute; reflexivity |].
    split; [cbn; lia |].
    split; [vm_compute; reflexivity |].
    split; [vm_compute; reflexivity |].
    split; [repeat constructor | cbn; lia].
  - intros a Ha. destruct a as [| a]; [| lia].
    vm_compute. repeat split; congruence.
  - intros a Ha. change (Z.to_nat (decimal [ch "1"])) with 1%nat in Ha.
    destruct a as [| a]; [| lia].
    vm_compute. repeat split; congruence.
Defined.

Lemma string_loop_byte (c : Z) :
  json_go_string c = JSON_STATE_LOOP -> c <> 0.
Proof. intros H ->. vm_compute in H. discriminate. Qed.

Lemma bare_loop_byte (c : Z) :
  json_go_bare c = JSON_STATE_LOOP -> c <> 0.
Proof. intros H ->. vm_compute in H. discriminate. Qed.

(** One skipped byte. *)
Lemma skip_step (m : memory) (il sr p l ut c d d1 : Z) (g : nat) :
  d = 0 \/ d = 1 -> 0 < l ->
  skip m p (S g) d = Some d1 ->
  exists d',
    (d' = 0 \/ d' = 1)
    /\ skip m (p + 1) g d' = Some d1
    /\ read_body m (ReadState (Iter il false d GO_STRUCT sr) JSON_TOKEN_NULL
                      p l ut c)
       = Continue (ReadState (Iter il false d' GO_STRUCT sr) JSON_TOKEN_NULL
                     (p + 1) (l - 1) ut (peek m p)).
Proof.
  intros Hd Hl Hskip. cbn [skip] in Hskip.
  unfold read_body.
  cbn [r_iter r_obj r_cur r_len r_utf8 depth go str lookup_table].
  assert (Hnz : peek m p <> 0).
  { intros H0. rewrite H0 in Hskip. vm_compute in Hskip. discriminate. }
  destruct (Z.eqb_spec (peek m p) 0) as [? | _]; [contradiction |].
  assert (Hclose : (peek m p =? ch "}") || (peek m p =? ch "]") = false).
  { destruct (Z.eqb_spec (peek m p) (ch "}")) as [H0 | _];
      [rewrite H0 in Hskip; vm_compute in Hskip; discriminate |].
    destruct (Z.eqb_spec (peek m p) (ch "]")) as [H0 | _];
      [rewrite H0 in Hskip; vm_compute in Hskip; discriminate |].
    reflexivity. }
  rewrite Hclose, andb_false_r. cbn [andb].
  destruct (json_go_struct (peek m p)); try discriminate.
  - exists d. split; [exact Hd |]. split; [exact Hskip | reflexivity].
  - exists d. split; [exact Hd |]. split; [exact Hskip |].
    destruct Hd as [-> | ->]; reflexivity.
  - destruct (Z.eqb_spec d 0) as [-> | _]; [| discriminate].
    exists 1. split; [right; reflexivity |]. split; [exact Hskip |].
    reflexivity.
Qed.

(** Skipping the bytes before a token. *)
Lemma runs_skip (m : memory) (il sr d1 : Z) (r : json_iter * json_token) :
  forall (g : nat) (p l ut c d : Z),
    d = 0 \/ d = 1 ->
    skip m p g d = Some d1 -> Z.of_nat g < l ->
    (forall c', runs m (ReadState (Iter il false d1 GO_STRUCT sr)
                          JSON_TOKEN_NULL
                          (p + Z.of_nat g) (l - Z.of_nat g) ut c') r) ->
    runs m (ReadState (Iter il false d GO_STRUCT sr) JSON_TOKEN_NULL p l ut c)
      r.
Proof.
  induction g as [| g IH]; intros p l ut c d Hd Hskip Hl Hrest.
  - cbn [skip] in Hskip. injection Hskip as ->.
    specialize (Hrest c). cbn [Z.of_nat] in Hrest.
    rewrite Z.add_0_r, Z.sub_0_r in Hrest. exact Hrest.
  - destruct (skip_step m il sr p l ut c d d1 g Hd ltac:(lia) Hskip)
      as (d' & Hd' & Hskip' & Hbody).
    eapply runs_step; [cbn [r_len]; lia | exact Hbody |].
    apply (IH (p + 1) (l - 1) ut (peek m p) d' Hd' Hskip'); [lia |].
    intros c'. replace (p + 1 + Z.of_nat g) with (p + Z.of_nat (S g)) by lia.
    replace (l - 1 - Z.of_nat g) with (l - Z.of_nat (S g)) by lia.
    apply Hrest.
Qed.

Lemma skip_depth (m : memory) :
  forall (g : nat) (p d d1 : Z),
    d = 0 \/ d = 1 -> skip m p g d = Some d1 -> d1 = 0 \/ d1 = 1.
Proof.
  induction g as [| g IH]; intros p d d1 Hd Hskip; cbn [skip] in Hskip.
  - injection Hskip as <-. exact Hd.
  - destruct (json_go_struct (peek m p)); try discriminate;
      try (apply (IH _ _ _ Hd Hskip)).
    destruct (d =? 0); [| discriminate].
    apply (IH _ _ _ (or_intror eq_refl) Hskip).
Qed.

(** Running over string content. *)
Lemma runs_string_content (m : memory) (il d sr st : Z)
    (r : json_iter * json_token) :
  st <> 0 ->
  forall (n : nat) (p l ut c : Z),
    plain_content m p n -> Z.of_nat n < l ->
    (forall c', runs m (ReadState (Iter il false d GO_STRING sr)
                          (Token JSON_NONE st 0 0 0)
                          (p + Z.of_nat n) (l - Z.of_nat n) ut c') r) ->
    runs m (ReadState (Iter il false d GO_STRING sr)
              (Token JSON_NONE st 0 0 0) p l ut c) r.
Proof.
  intros Hst. induction n as [| n IH]; intros p l ut c Hcont Hl Hrest.
  - specialize (Hrest c). cbn [Z.of_nat] in Hrest.
    rewrite Z.add_0_r, Z.sub_0_r in Hrest. exact Hrest.
  - pose proof (Hcont O ltac:(lia)) as H0. cbn [Z.of_nat] in H0.
    rewrite Z.add_0_r in H0.
    pose proof (string_loop_byte _ H0) as Hnz.
    eapply (runs_step m _ (ReadState (Iter il false d GO_STRING sr)
                             (Token JSON_NONE st 0 0 0)
                             (p + 1) (l - 1) ut (peek m p))).
    + cbn [r_len]. lia.
    + unfold read_body.
      cbn [r_iter r_obj r_cur r_len r_utf8 depth go str lookup_table].
      destruct (Z.eqb_spec (peek m p) 0) as [? | _]; [contradiction |].
      destruct (Z.eqb_spec st 0) as [? | _]; [contradiction |].
      rewrite andb_false_r. rewrite H0. reflexivity.
    + apply IH.
      * intros i Hi. replace (p + 1 + Z.of_nat i) with (p + Z.of_nat (S i))
          by lia. apply Hcont. lia.
      * lia.
      * intros c'. replace (p + 1 + Z.of_nat n) with (p + Z.of_nat (S n))
          by lia.
        replace (l - 1 - Z.of_nat n) with (l - Z.of_nat (S n)) by lia.
        apply Hrest.
Qed.

Lemma read_start_between (it : json_iter) :
  between_tokens it ->
  read_init (read_start it)
  = ReadState (Iter (ilen it) false (depth it) GO_STRUCT (src it))
      JSON_TOKEN_NULL (src it) (ilen it) 0 0.
Proof.
  intros (He & Hg & _). destruct it as [il er d g sr]. cbn in He, Hg.
  subst er. destruct Hg as [-> | ->]; reflexivity.
Qed.

Lemma read_string (m : memory) (it : json_iter) (g n : nat) (d1 : Z) :
  between_tokens it ->
  Z.of_nat g + Z.of_nat n + 2 <= ilen it ->
  skip m (src it) g (depth it) = Some d1 ->
  peek m (src it + Z.of_nat g) = DQUOTE ->
  plain_content m (src it + Z.of_nat g + 1) n ->
  peek m (src it + Z.of_nat g + 1 + Z.of_nat n) = DQUOTE ->
  json_read m (Some it)
  = Some (Iter (ilen it - Z.of_nat g - Z.of_nat n - 2) false d1
            GO_STRUCT (src it + Z.of_nat g + Z.of_nat n + 2),
          Token JSON_STRING (src it + Z.of_nat g + 1) (Z.of_nat n) 0 0).
Proof.
  intros Hbt Hlen Hskip Hopen Hcont Hclose.
  pose proof Hbt as (He & Hg & Hd & Hsrc & Hil).
  apply json_read_runs; [lia | lia | exact He |].
  rewrite (read_start_between it Hbt).
  set (il := ilen it) in *. set (sr := src it) in *. set (d := depth it) in *.
  pose proof (skip_depth m g sr d d1 Hd Hskip) as Hd1'.
  assert (Hd1 : (d1 <=? 1) = true) by (apply Z.leb_le; lia).
  apply (runs_skip m il sr d1 _ g sr il 0 0 d Hd Hskip ltac:(lia)).
  intros c1.
  (* the opening quote *)
  eapply (runs_step m _ (ReadState (Iter il false d1 GO_STRING sr)
                           (Token JSON_NONE (sr + Z.of_nat g) 0 0 0)
                           (sr + Z.of_nat g + 1) (il - Z.of_nat g - 1) 0
                           DQUOTE)).
  { cbn [r_len]. lia. }
  { unfold read_body.
    cbn [r_iter r_obj r_cur r_len r_utf8 depth go str lookup_table].
    rewrite Hopen.
    replace (DQUOTE =? 0) with false by reflexivity.
    replace ((DQUOTE =? ch "}") || (DQUOTE =? ch "]")) with false
      by reflexivity.
    rewrite andb_false_r. cbn [andb].
    replace (json_go_struct DQUOTE) with JSON_STATE_QUP by reflexivity.
    rewrite Hd1. reflexivity. }
  apply (runs_string_content m il d1 sr (sr + Z.of_nat g) _ ltac:(lia) n
           (sr + Z.of_nat g + 1) (il - Z.of_nat g - 1) 0 DQUOTE Hcont
           ltac:(lia)).
  intros c2.
  (* the closing quote *)
  apply runs_return.
  { cbn [r_len]. lia. }
  unfold read_body.
  cbn [r_iter r_obj r_cur r_len r_utf8 depth go str lookup_table].
  rewrite Hclose.
  replace (DQUOTE =? 0) with false by reflexivity.
  destruct (Z.eqb_spec (sr + Z.of_nat g) 0) as [? | _]; [lia |].
  rewrite andb_false_r.
  replace (json_go_string DQUOTE) with JSON_STATE_QDOWN by reflexivity.
  cbn [set_go depth]. rewrite Hd1.
  cbn [set_len str type len children sub].
  destruct (Z.eqb_spec (sr + Z.of_nat g) 0) as [? | _]; [lia |].
  unfold read_yield.
  replace (sr + Z.of_nat g + 1 + Z.of_nat n - (sr + Z.of_nat g))
    with (Z.of_nat n + 1) by lia.
  rewrite !int32_id by (try rewrite int32_id; lia).
  unfold set_len, set_go, set_src.
  cbn [type str len children sub ilen err depth go src].
  rewrite finish_string by (try lia; exact Hopen).
  replace (Z.of_nat n + 1 + 1 - 2) with (Z.of_nat n) by lia.
  rewrite int32_id by lia.
  f_equal. f_equal; lia.
Qed.

(** X26: json_read on a plain string: from an iterator between tokens,
    after [g] skipped bytes, a double quote, [n] bytes of plain content
    and the closing quote, the token is the string without its quotes
    and the iterator is just past the closing quote. *)
Theorem json_read_string (m : memory) (it : json_iter) (g n : nat) (d1 : Z) :
  between_tokens it ->
  Z.of_nat g + Z.of_nat n + 2 <= ilen it ->
  skip m (src it) g (depth it) = Some d1 ->
  peek m (src it + Z.of_nat g) = DQUOTE ->
  plain_content m (src it + Z.of_nat g + 1) n ->
  peek m (src it + Z.of_nat g + 1 + Z.of_nat n) = DQUOTE ->
  json_read m (Some it)
  = Some (Iter (ilen it - Z.of_nat g - Z.of_nat n - 2) false d1
            GO_STRUCT (src it + Z.of_nat g + Z.of_nat n + 2),
          Token JSON_STRING (src it + Z.of_nat g + 1) (Z.of_nat n) 0 0).
Proof. intros. eapply read_string; eassumption. Qed.

Lemma json_read_string_witness :
  json_read (doc "{'ab': 1}") (Some (json_begin 1000 9))
  = Some (Iter (ilen (json_begin 1000 9) - Z.of_nat 1 - Z.of_nat 2 - 2) false
            1 GO_STRUCT
            (src (json_begin 1000 9) + Z.of_nat 1 + Z.of_nat 2 + 2),
          Token JSON_STRING (src (json_begin 1000 9) + Z.of_nat 1 + 1)
            (Z.of_nat 2) 0 0).
Proof.
  apply (json_read_string (doc "{'ab': 1}") (json_begin 1000 9) 1 2 1).
  - unfold between_tokens. cbn. repeat split; auto; lia.
  - cbn. lia.
  - reflexivity.
  - reflexivity.
  - intros i Hi. destruct i as [| [| i]]; [| | lia]; reflexivity.
  - reflexivity.
Defined.

Lemma finish_bare_type (m : memory) (ty : json_token_type) (q ln chn su : Z) :
  json_go_struct (peek m q) = JSON_STATE_BARE -> q <> 0 -> ln <> 0 ->
  finish_token m (Token ty q ln chn su)
  = Token (bare_type (peek m q)) q ln chn su.
Proof.
  intros Hq Hq0 Hln.
  destruct (json_type_bare m ty q ln chn su Hq Hq0 Hln) as [_ Hns].
  unfold finish_token. rewrite Hns. cbn [str len children sub].
  f_equal. apply bare_bytes in Hq. destruct Hq as (H1 & H2 & H3).
  unfold json_type, bare_type. cbn [str len].
  destruct (Z.eqb_spec q 0); [contradiction |].
  destruct (Z.eqb_spec ln 0); [contradiction |]. cbn [orb].
  destruct (Z.eqb_spec (peek m q) (ch "{")); [contradiction |].
  destruct (Z.eqb_spec (peek m q) (ch "[")); [contradiction |].
  destruct (Z.eqb_spec (peek m q) DQUOTE); [contradiction |].
  reflexivity.
Qed.

(** Running over the continuation of a bare token. *)
Lemma runs_bare_content (m : memory) (il d sr st : Z)
    (r : json_iter * json_token) :
  st <> 0 ->
  forall (n : nat) (p l ut c : Z),
    bare_content m p n -> Z.of_nat n < l ->
    (forall c', runs m (ReadState (Iter il false d GO_BARE sr)
                          (Token JSON_NONE st 0 0 0)
                          (p + Z.of_nat n) (l - Z.of_nat n) ut c') r) ->
    runs m (ReadState (Iter il false d GO_BARE sr)
              (Token JSON_NONE st 0 0 0) p l ut c) r.
Proof.
  intros Hst. induction n as [| n IH]; intros p l ut c Hcont Hl Hrest.
  - specialize (Hrest c). cbn [Z.of_nat] in Hrest.
    rewrite Z.add_0_r, Z.sub_0_r in Hrest. exact Hrest.
  - pose proof (Hcont O ltac:(lia)) as H0. cbn [Z.of_nat] in H0.
    rewrite Z.add_0_r in H0.
    pose proof (bare_loop_byte _ H0) as Hnz.
    eapply (runs_step m _ (ReadState (Iter il false d GO_BARE sr)
                             (Token JSON_NONE st 0 0 0)
                             (p + 1) (l - 1) ut (peek m p))).
    + cbn [r_len]. lia.
    + unfold read_body.
      cbn [r_iter r_obj r_cur r_len r_utf8 depth go str lookup_table].
      destruct (Z.eqb_spec (peek m p) 0) as [? | _]; [contradiction |].
      destruct (Z.eqb_spec st 0) as [? | _]; [contradiction |].
      rewrite andb_false_r. rewrite H0. reflexivity.
    + apply IH.
      * intros i Hi. replace (p + 1 + Z.of_nat i) with (p + Z.of_nat (S i))
          by lia. apply Hcont. lia.
      * lia.
      * intros c'. replace (p + 1 + Z.of_nat n) with (p + Z.of_nat (S n))
          by lia.
        replace (l - 1 - Z.of_nat n) with (l - Z.of_nat (S n)) by lia.
        apply Hrest.
Qed.

Lemma read_bare (m : memory) (it : json_iter) (g n : nat) (d1 : Z) :
  between_tokens it ->
  Z.of_nat g + Z.of_nat n + 2 <= ilen it ->
  skip m (src it) g (depth it) = Some d1 ->
  json_go_struct (peek m (src it + Z.of_nat g)) = JSON_STATE_BARE ->
  bare_content m (src it + Z.of_nat g + 1) n ->
  json_go_bare (peek m (src it + Z.of_nat g + 1 + Z.of_nat n))
  = JSON_STATE_UNBARE ->
  json_read m (Some it)
  = Some (Iter (ilen it - Z.of_nat g - Z.of_nat n - 1) false d1
            GO_STRUCT (src it + Z.of_nat g + Z.of_nat n + 1),
          Token (bare_type (peek m (src it + Z.of_nat g)))
            (src it + Z.of_nat g) (Z.of_nat n + 1) 0 0).
Proof.
  intros Hbt Hlen Hskip Hopen Hcont Hclose.
  pose proof Hbt as (He & Hg & Hd & Hsrc & Hil).
  apply json_read_runs; [lia | lia | exact He |].
  rewrite (read_start_between it Hbt).
  set (il := ilen it) in *. set (sr := src it) in *. set (d := depth it) in *.
  pose proof (skip_depth m g sr d d1 Hd Hskip) as Hd1'.
  assert (Hd1 : (d1 <=? 1) = true) by (apply Z.leb_le; lia).
  apply (runs_skip m il sr d1 _ g sr il 0 0 d Hd Hskip ltac:(lia)).
  intros c1.
  (* the first byte of the token *)
  set (c := peek m (sr + Z.of_nat g)) in *.
  assert (Hc : c <> 0 /\ (c =? ch "}") || (c =? ch "]") = false).
  { split.
    - intros H0. rewrite H0 in Hopen. vm_compute in Hopen. discriminate.
    - destruct (Z.eqb_spec c (ch "}")) as [H0 | _];
        [rewrite H0 in Hopen; vm_compute in Hopen; discriminate |].
      destruct (Z.eqb_spec c (ch "]")) as [H0 | _];
        [rewrite H0 in Hopen; vm_compute in Hopen; discriminate |].
      reflexivity. }
  destruct Hc as [Hc0 Hcc].
  eapply (runs_step m _ (ReadState (Iter il false d1 GO_BARE sr)
                           (Token JSON_NONE (sr + Z.of_nat g) 0 0 0)
                           (sr + Z.of_nat g + 1) (il - Z.of_nat g - 1) 0 c)).
  { cbn [r_len]. lia. }
  { unfold read_body.
    cbn [r_iter r_obj r_cur r_len r_utf8 depth go str lookup_table].
    fold c.
    destruct (Z.eqb_spec c 0) as [? | _]; [contradiction |].
    rewrite Hcc, andb_false_r. cbn [andb]. rewrite Hopen, Hd1.
    reflexivity. }
  apply (runs_bare_content m il d1 sr (sr + Z.of_nat g) _ ltac:(lia) n
           (sr + Z.of_nat g + 1) (il - Z.of_nat g - 1) 0 c Hcont
           ltac:(lia)).
  intros c2.
  (* the byte that ends the token *)
  apply runs_return.
  { cbn [r_len]. lia. }
  unfold read_body.
  cbn [r_iter r_obj r_cur r_len r_utf8 depth go str lookup_table].
  set (t := peek m (sr + Z.of_nat g + 1 + Z.of_nat n)) in *.
  assert (Ht0 : t <> 0).
  { intros H0. rewrite H0 in Hclose. vm_compute in Hclose. discriminate. }
  destruct (Z.eqb_spec t 0) as [? | _]; [contradiction |].
  destruct (Z.eqb_spec (sr + Z.of_nat g) 0) as [? | _]; [lia |].
  rewrite andb_false_r. rewrite Hclose.
  cbn [set_go depth]. rewrite Hd1.
  replace (sr + Z.of_nat g + 1 + Z.of_nat n - (sr + Z.of_nat g))
    with (Z.of_nat n + 1) by lia.
  rewrite int32_id by lia.
  unfold set_len, set_go, set_src.
  cbn [type str len children sub ilen err depth go src].
  rewrite finish_bare_type by (try lia; exact Hopen).
  fold c. f_equal. f_equal; lia.
Qed.

(** X27: json_read on a bare token (a number or a literal): from an iterator
    between tokens, after [g] skipped bytes, a byte that starts a bare
    token, [n] bytes that continue it and a byte that ends it (a comma,
    a closing bracket, a line break or a tab), the token is these
    [n + 1] bytes, its type is given by its first byte, and the
    iterator is left at the byte that ended the token. *)
Theorem json_read_bare (m : memory) (it : json_iter) (g n : nat) (d1 : Z) :
  between_tokens it ->
  Z.of_nat g + Z.of_nat n + 2 <= ilen it ->
  skip m (src it) g (depth it) = Some d1 ->
  json_go_struct (peek m (src it + Z.of_nat g)) = JSON_STATE_BARE ->
  bare_content m (src it + Z.of_nat g + 1) n ->
  json_go_bare (peek m (src it + Z.of_nat g + 1 + Z.of_nat n))
  = JSON_STATE_UNBARE ->
  json_read m (Some it)
  = Some (Iter (ilen it - Z.of_nat g - Z.of_nat n - 1) false d1
            GO_STRUCT (src it + Z.of_nat g + Z.of_nat n + 1),
          Token (bare_type (peek m (src it + Z.of_nat g)))
            (src it + Z.of_nat g) (Z.of_nat n + 1) 0 0).
Proof. intros. eapply read_bare; eassumption. Qed.

Lemma json_read_bare_witness :
  json_read (doc "[12,true]") (Some (json_begin 1000 9))
  = Some (Iter (ilen (json_begin 1000 9) - Z.of_nat 1 - Z.of_nat 1 - 1) false
            1 GO_STRUCT
            (src (json_begin 1000 9) + Z.of_nat 1 + Z.of_nat 1 + 1),
          Token (bare_type (peek (doc "[12,true]")
                              (src (json_begin 1000 9) + Z.of_nat 1)))
            (src (json_begin 1000 9) + Z.of_nat 1) (Z.of_nat 1 + 1) 0 0).
Proof.
  apply (json_read_bare (doc "[12,true]") (json_begin 1000 9) 1 1 1).
  - unfold between_tokens. cbn. repeat split; auto; lia.
  - cbn. lia.
  - reflexivity.
  - reflexivity.
  - intros i Hi. destruct i as [| i]; [| lia]. reflexivity.
  - reflexivity.
Defined.

(** X28: json_parse on a pair whose name is a plain string and whose value
    is a bare token: the name is the string without its quotes, the
    value is the bare token, and the iterator is left at the byte that
    ended the value. *)
Theorem json_parse_pair (m : memory) (it : json_iter) (g n g2 n2 : nat)
    (d1 d2 : Z) :
  between_tokens it ->
  Z.of_nat g + Z.of_nat n + 2 + Z.of_nat g2 + Z.of_nat n2 + 2 <= ilen it ->
  skip m (src it) g (depth it) = Some d1 ->
  peek m (src it + Z.of_nat g) = DQUOTE ->
  plain_content m (src it + Z.of_nat g + 1) n ->
  peek m (src it + Z.of_nat g + 1 + Z.of_nat n) = DQUOTE ->
  skip m (src it + Z.of_nat g + Z.of_nat n + 2) g2 d1 = Some d2 ->
  json_go_struct
    (peek m (src it + Z.of_nat g + Z.of_nat n + 2 + Z.of_nat g2))
  = JSON_STATE_BARE ->
  bare_content m (src it + Z.of_nat g + Z.of_nat n + 2 + Z.of_nat g2 + 1) n2 ->
  json_go_bare
    (peek m (src it + Z.of_nat g + Z.of_nat n + 2 + Z.of_nat g2 + 1
             + Z.of_nat n2))
  = JSON_STATE_UNBARE ->
  json_parse m (Some it)
  = Some (Iter (ilen it - Z.of_nat g - Z.of_nat n - 2 - Z.of_nat g2
                - Z.of_nat n2 - 1) false d2 GO_STRUCT
            (src it + Z.of_nat g + Z.of_nat n + 2 + Z.of_nat g2
             + Z.of_nat n2 + 1),
          (Token JSON_STRING (src it + Z.of_nat g + 1) (Z.of_nat n) 0 0,
           Token (bare_type
                    (peek m (src it + Z.of_nat g + Z.of_nat n + 2
                             + Z.of_nat g2)))
             (src it + Z.of_nat g + Z.of_nat n + 2 + Z.of_nat g2)
             (Z.of_nat n2 + 1) 0 0)).
Proof.
  intros Hbt Hlen Hskip Hopen Hcont Hclose Hskip2 Hbare Hcont2 Hend.
  pose proof Hbt as (He & Hg & Hd & Hsrc & Hil).
  unfold json_parse.
  rewrite (read_string m it g n d1 Hbt ltac:(lia) Hskip Hopen Hcont
             Hclose).
  cbn [err].
  set (it1 := Iter (ilen it - Z.of_nat g - Z.of_nat n - 2) false d1 GO_STRUCT
                (src it + Z.of_nat g + Z.of_nat n + 2)).
  assert (Hbt1 : between_tokens it1).
  { unfold between_tokens, it1. cbn [err go depth src ilen].
    split; [reflexivity |]. split; [left; reflexivity |].
    split; [exact (skip_depth m g _ _ d1 Hd Hskip) |]. lia. }
  rewrite (read_bare m it1 g2 n2 d2 Hbt1 ltac:(unfold it1; cbn [ilen]; lia)
             Hskip2 Hbare Hcont2 Hend).
  unfold it1. cbn [err go depth src ilen]. reflexivity.
Qed.

Lemma json_parse_pair_witness :
  json_parse (doc "{'ab': 1}") (Some (json_begin 1000 9))
  = Some (Iter (ilen (json_begin 1000 9) - Z.of_nat 1 - Z.of_nat 2 - 2
                - Z.of_nat 2 - Z.of_nat 0 - 1) false 1 GO_STRUCT
            (src (json_begin 1000 9) + Z.of_nat 1 + Z.of_nat 2 + 2
             + Z.of_nat 2 + Z.of_nat 0 + 1),
          (Token JSON_STRING (src (json_begin 1000 9) + Z.of_nat 1 + 1)
             (Z.of_nat 2) 0 0,
           Token (bare_type
                    (peek (doc "{'ab': 1}")
                       (src (json_begin 1000 9) + Z.of_nat 1 + Z.of_nat 2 + 2
                        + Z.of_nat 2)))
             (src (json_begin 1000 9) + Z.of_nat 1 + Z.of_nat 2 + 2
              + Z.of_nat 2)
             (Z.of_nat 0 + 1) 0 0)).
Proof.
  apply (json_parse_pair (doc "{'ab': 1}") (json_begin 1000 9) 1 2 2 0 1 1).
  - unfold between_tokens. cbn. repeat split; auto; lia.
  - cbn. lia.
  - reflexivity.
  - reflexivity.
  - intros i Hi. destruct i as [| [| i]]; [| | lia]; reflexivity.
  - reflexivity.
  - reflexivity.
  - reflexivity.
  - intros i Hi. lia.
  - reflexivity.
Defined.

